(** * Commons Delpher source updater: a shallow embedding

    This development embeds the pipeline of
    [addDelpherURLsToWikitext-InternetArchiveFiles.py] in Rocq and proves
    properties of it.  Python strings are lists of Unicode code points,
    the two compiled patterns are terms of a small regular-expression
    syntax run by a backtracking matcher with the priorities of Python's
    [re] module, [SystemExit] is an explicit result, and calls to the wiki
    and to the spreadsheet are events of a program tree. *)

From Stdlib Require Import ZArith NArith QArith Qround Ascii String DecimalString List Lia Bool.
From stdpp Require Import base tactics option list strings gmap.

Set Default Proof Using "Type".
Set Warnings "-register-all".
Open Scope nat_scope.

(** ** Characters and strings *)

(** A Python [str] is a sequence of code points. *)
Definition char := N.
Definition str := list char.

(** ASCII literals of the source are written as Rocq strings. *)
Definition py (s : string) : str := N_of_ascii <$> list_ascii_of_string s.

Definition ch (a : ascii) : char := N_of_ascii a.

Definition NL : char := 10%N.   (* "\n" *)
Definition CR : char := 13%N.   (* "\r" *)

Definition in_range (lo hi x : char) : bool := ((lo <=? x) && (x <=? hi))%N.

Definition ascii_upper (x : char) : bool := in_range 65%N 90%N x.
Definition ascii_lower (x : char) : bool := in_range 97%N 122%N x.
Definition ascii_digit (x : char) : bool := in_range 48%N 57%N x.
Definition ascii_alnum (x : char) : bool := ascii_upper x || ascii_lower x || ascii_digit x.

(** [str.isspace] on one code point, which is also [\s] of a [str]
    pattern: the ASCII table of CPython and the code points of
    bidirectional type WS, B or S, or of category Zs. *)
Definition ascii_space (x : char) : bool := in_range 9%N 13%N x || (x =? 32)%N.
Definition unicode_space (x : char) : bool :=
  in_range 9%N 13%N x || in_range 28%N 32%N x || (x =? 133)%N || (x =? 160)%N
  || (x =? 5760)%N || in_range 8192%N 8202%N x || (x =? 8232)%N || (x =? 8233)%N
  || (x =? 8239)%N || (x =? 8287)%N || (x =? 12288)%N.

(** [str.strip()], [str.lstrip()] and [str.rstrip()] without argument. *)
Fixpoint lstrip (s : str) : str :=
  match s with
  | x :: s' => if unicode_space x then lstrip s' else s
  | [] => []
  end.
Definition rstrip (s : str) : str := reverse (lstrip (reverse s)).
Definition strip (s : str) : str := rstrip (lstrip s).

(** A cell of a sheet as pandas reads it: an integer, a float, an empty
    cell (NaN) or text.  Finite floats are modelled by the rationals they
    denote. *)
Inductive cell :=
| CInt (z : Z)
| CFloat (q : Q)
| CNaN
| CStr (s : str).

(** A numeric value of a pandas Series. *)
Inductive num :=
| NumInt (z : Z)
| NumFloat (q : Q)
| NumNaN.

(** What the script takes from the Python runtime and from pandas, and
    which is not part of the repository: beyond ASCII, which code points
    are alphanumeric ([\w]) and which are decimal digits ([\d], with the
    value [int] gives them); how [pd.to_numeric] reads a text cell; how
    [astype(str)] prints a cell; [sys.get_int_max_str_digits()], the
    longest run of digits [int] converts, 0 for no limit (4300 unless the
    interpreter is told otherwise); and what the cast of a float to a
    64-bit integer leaves when the float is out of range, which C does not
    define (the smallest 64-bit integer on x86-64).  Below 128 the
    character classes do not look at the tables. *)
Record runtime := {
  uni_alnum : char -> bool;
  uni_decimal : char -> option N;
  numeric_of_text : str -> num;
  text_of_cell : cell -> str;
  int_max_str_digits : nat;
  cast_out_of_range : Q -> Z
}.

(** The other cased variant of an ASCII letter. *)
Definition swapcase (c : char) : char :=
  if ascii_upper c then (c + 32)%N else if ascii_lower c then (c - 32)%N else c.

(** A literal under [re.IGNORECASE]: both cases of the letter and, as the
    documentation of [re] lists, U+0130 and U+0131 for i, U+017F for s and
    U+212A for k. *)
Definition ci_eq (c x : char) : bool :=
  (x =? c)%N || (x =? swapcase c)%N
  || (((c =? 105) || (c =? 73)) && ((x =? 304) || (x =? 305)))%N
  || (((c =? 115) || (c =? 83)) && (x =? 383))%N
  || (((c =? 107) || (c =? 75)) && (x =? 8490))%N.

(** ** Regular expressions *)

Record flags := { IGNORECASE : bool; ASCII : bool }.

Inductive cset_item :=
| Lit (c : char)             (* a literal character *)
| Range (lo hi : char)       (* lo-hi *)
| CatSpace                   (* \s *)
| CatWord                    (* \w *)
| CatDigit.                  (* \d *)

Inductive cclass :=
| OneOf (items : list cset_item)    (* a literal, a category or [...] *)
| NoneOf (items : list cset_item)   (* [^...] *)
| AnyChar.                          (* . without DOTALL *)

(** Repetition in the source patterns is always over one character
    class, so [Rep] takes a class: [c*] is [Rep true 0 c], [c+] is
    [Rep true 1 c] and [c+?] is [Rep false 1 c]. *)
Inductive regex :=
| Eps
| Chr (c : cclass)
| Seq (r1 r2 : regex)
| Rep (greedy : bool) (least : nat) (c : cclass)
| Opt (r : regex)                   (* greedy r? *)
| Grp (name : string) (r : regex)   (* (?P<name>r) *)
| Bol                               (* ^ *)
| Eol.                              (* $ without MULTILINE *)

Declare Scope regex_scope.
Delimit Scope regex_scope with re.
Bind Scope regex_scope with regex.
Infix "⋅" := Seq (at level 41, right associativity) : regex_scope.

Definition chr (a : ascii) : regex := Chr (OneOf [Lit (ch a)]).
Fixpoint lit (s : string) : regex :=
  match s with
  | EmptyString => Eps
  | String a EmptyString => chr a
  | String a s' => Seq (chr a) (lit s')
  end.

Definition ws_star : regex := Rep true 0 (OneOf [CatSpace]).   (* \s* *)
Definition ws_plus : regex := Rep true 1 (OneOf [CatSpace]).   (* \s+ *)

(** A match object: the span of the whole match and of each named group. *)
Abbreviation captures := (gmap string (nat * nat)).
Record pymatch := { m_start : nat; m_end : nat; m_groups : captures }.

(** [text[a:b]] for [0 <= a], [0 <= b]. *)
Definition slice (text : str) (a b : nat) : str := take (b - a) (drop a text).

(** [m.group(name)]; [None] when the group took no part in the match. *)
Definition group (text : str) (m : pymatch) (name : string) : option str :=
  (λ ab, slice text ab.1 ab.2) <$> m_groups m !! name.

(** ** Failure

    Every fatal path of the script logs one CRITICAL line and raises
    [SystemExit(1)]; the constructors of [critical] name those lines. *)
Inductive critical :=
(* derive_delpher_urn *)
| UrnEmptyIaId            (* empty or invalid IA ID *)
| UrnInvalidIaId          (* Invalid Internet Archive ID for URN derivation *)
(* build_new_source_block *)
| BlockEmptyIaId          (* empty or invalid ia_id *)
| BlockEmptyPdfUrl        (* empty or invalid pdf_url *)
| BlockInvalidPdfUrl      (* Invalid PDF URL for Internet Archive direct download *)
(* transform_wikitext *)
| TransformMultiple (n : nat)   (* multiple (n) OLD |source= blocks found; aborting *)
(* apply_slice_records *)
| SliceBothSet            (* both RANGE and HEAD are set; set only one *)
| SliceRangeForm          (* RANGE must be in the form N-M (1-based) *)
| SliceRangeValues (start stop : Z)   (* invalid RANGE values *)
| SliceRangeBounds (total : nat) (start stop : Z)   (* RANGE out of bounds *)
| SliceHeadBounds (total : nat) (n : Z)   (* HEAD must be between 1 and total *)
(* fetch_wikitext_by_pageid *)
| FetchBadPageid | FetchApiError | FetchTransport | FetchNoQuery | FetchNoPages
| FetchMissing | FetchNoRevisions | FetchNoContent | FetchNoTimestamp
(* save_wikitext_by_pageid *)
| SaveBadPageid | SaveEmptyText | SaveNoTimestamp | SaveTokenFailed | SaveTokenEmpty
| SaveRetryFailed         (* retry after re-login failed *)
| SaveApiError | SaveTransport | SaveEditFailed | SaveUnexpected
(* get_records *)
| RecNoFile | RecReadFailed | RecNotFrame | RecNoColumn
| RecInvalidValues        (* invalid values in the pageid column (must be positive integers) *)
| RecNone                 (* no valid records after validation and de-duplication *)
| RecTooMany (n : nat)    (* n rows exceed MAX_FILES *)
(* write_status_to_excel *)
| WrNoFile | WrReadFailed | WrNoColumn | WrSheetNames | WrSheetIndex | WrWriteFailed
(* process_records *)
| ProcNoRecords | ProcBadPageid (idx : nat)
(* main *)
| MainNoRecords | MainLogin | MainUnexpected.

(** [SystemExit] derives from [BaseException], every other error of the
    script from [Exception]; [except Exception] catches only the latter. *)
Inductive exn :=
| SystemExit (why : critical)
| Exception (what : string).

Inductive result (A : Type) :=
| Return (a : A)
| Raise (e : exn).
Arguments Return {A} a.
Arguments Raise {A} e.

#[export] Instance result_ret : MRet result := @Return.
#[export] Instance result_bind : MBind result := λ A B f m,
  match m with
  | Return a => f a
  | Raise e => Raise e
  end.
#[export] Instance result_fmap : FMap result := λ A B f m,
  match m with
  | Return a => Return (f a)
  | Raise e => Raise e
  end.

(** What an f-string prints for [m.group(name)]. *)
Definition fmt_group (g : option str) : str := default (py "None") g.

(** [sep.join(parts)] *)
Fixpoint join (sep : str) (parts : list str) : str :=
  match parts with
  | [] => []
  | [x] => x
  | x :: rest => x ++ sep ++ join sep rest
  end.

(** [str(n)] for an integer. *)
Definition str_of_Z (z : Z) : str := py (NilZero.string_of_int (Z.to_int z)).

(** ** Configuration and records *)

(** [EXCEL_SHEET] is the index 0 or a sheet name. *)
Inductive sheet_ref :=
| SheetIndex (i : Z)
| SheetName (name : str).

(** The module-level settings, after [os.getenv] and [int] or [float]. *)
Record config := {
  USERNAME : str;
  PASSWORD : str;
  HEAD : Z;
  RANGE : str;
  EXCEL_FILE : str;
  EXCEL_SHEET : sheet_ref;
  EXCEL_TITLE_COL : str;
  EXCEL_PAGEID_COL : str;
  EXCEL_STATUS_COL : str;
  MAX_FILES : Z;
  EDIT_SUMMARY : str;
  EDIT_SLEEP_SEC : Q;
  OPEN_AFTER_SUCCESS : Z;
  OPEN_AFTER_SUCCESS_MAX : Z;
  CHECKPOINT_EVERY_SUCCESS : Z
}.

(** One worklist entry: the dict with keys pageid, mid and title. *)
Record record := { pageid : Z; mid : str; title : option str }.

Section WithUnicode.

Variable U : runtime.
Variable cfg : config.

Definition is_space (fl : flags) (x : char) : bool :=
  if ASCII fl then ascii_space x else unicode_space x.
Definition is_digit (fl : flags) (x : char) : bool :=
  if (x <? 128)%N then ascii_digit x
  else if ASCII fl then false else bool_decide (is_Some (uni_decimal U x)).
Definition is_word (fl : flags) (x : char) : bool :=
  if (x <? 128)%N then ascii_alnum x || (x =? 95)%N
  else if ASCII fl then false else uni_alnum U x.

Definition item_match (fl : flags) (it : cset_item) (x : char) : bool :=
  match it with
  | Lit c => if IGNORECASE fl then ci_eq c x else (x =? c)%N
  | Range lo hi => in_range lo hi x
  | CatSpace => is_space fl x
  | CatWord => is_word fl x
  | CatDigit => is_digit fl x
  end.

Definition cmatch (fl : flags) (c : cclass) (x : char) : bool :=
  match c with
  | OneOf items => existsb (λ it, item_match fl it x) items
  | NoneOf items => negb (existsb (λ it, item_match fl it x) items)
  | AnyChar => negb (x =? NL)%N
  end.

(** *** The backtracking matcher

    The matcher is written in continuation-passing style: [k] is what
    remains to be matched after the current node, and the first
    alternative that lets [k] succeed wins, which is the order in which
    [re] explores greedy and lazy repetitions. *)

Section Matcher.
Context {R : Type}.
Variable fl : flags.

(** [least] mandatory characters of class [p]. *)
Fixpoint need (p : char -> bool) (n : nat) (k : nat -> str -> option R)
    (pos : nat) (s : str) : option R :=
  match n with
  | 0 => k pos s
  | S n' =>
      match s with
      | x :: s' => if p x then need p n' k (S pos) s' else None
      | [] => None
      end
  end.

(** Greedy: take as many as possible, give back one at a time. *)
Fixpoint star_greedy (p : char -> bool) (k : nat -> str -> option R)
    (pos : nat) (s : str) : option R :=
  match s with
  | x :: s' =>
      if p x then
        match star_greedy p k (S pos) s' with
        | Some r => Some r
        | None => k pos s
        end
      else k pos s
  | [] => k pos s
  end.

(** Lazy: try to go on first, take one more only when that fails. *)
Fixpoint star_lazy (p : char -> bool) (k : nat -> str -> option R)
    (pos : nat) (s : str) : option R :=
  match k pos s with
  | Some r => Some r
  | None =>
      match s with
      | x :: s' => if p x then star_lazy p k (S pos) s' else None
      | [] => None
      end
  end.

Fixpoint rmatch (r : regex) (k : nat -> str -> captures -> option R)
    (pos : nat) (s : str) (caps : captures) : option R :=
  match r with
  | Eps => k pos s caps
  | Chr c =>
      match s with
      | x :: s' => if cmatch fl c x then k (S pos) s' caps else None
      | [] => None
      end
  | Seq r1 r2 => rmatch r1 (λ pos' s' caps', rmatch r2 k pos' s' caps') pos s caps
  | Rep greedy least c =>
      need (cmatch fl c) least
        ((if greedy then star_greedy else star_lazy) (cmatch fl c)
           (λ pos' s', k pos' s' caps))
        pos s
  | Opt r' =>
      match rmatch r' k pos s caps with
      | Some res => Some res
      | None => k pos s caps
      end
  | Grp name r' =>
      rmatch r' (λ pos' s' caps', k pos' s' (<[name := (pos, pos')]> caps')) pos s caps
  | Bol => if decide (pos = 0) then k pos s caps else None
  | Eol => if bool_decide (s = [] ∨ s = [NL]) then k pos s caps else None
  end.

End Matcher.

(** [pattern.match(text)] tried at offset [pos], where [s] is [text[pos:]]. *)
Definition match_at (fl : flags) (r : regex) (pos : nat) (s : str) : option pymatch :=
  rmatch fl r (λ pos' _ caps, Some {| m_start := pos; m_end := pos'; m_groups := caps |})
    pos s ∅.

(** [re.match(pattern, text)] *)
Definition re_match (fl : flags) (r : regex) (text : str) : option pymatch :=
  match_at fl r 0 text.

(** [pattern.finditer(text)]: the leftmost match, then the leftmost match
    that starts at or after its end, and so on.  [skip] counts the
    characters still covered by the last match; after an empty match the
    scan moves on by one character. *)
Fixpoint finditer_from (fl : flags) (r : regex) (pos : nat) (s : str) (skip : nat)
    : list pymatch :=
  match skip with
  | S n =>
      match s with
      | [] => []
      | _ :: s' => finditer_from fl r (S pos) s' n
      end
  | 0 =>
      match match_at fl r pos s with
      | Some m =>
          m :: match s with
               | [] => []
               | _ :: s' => finditer_from fl r (S pos) s' (m_end m - pos - 1)
               end
      | None =>
          match s with
          | [] => []
          | _ :: s' => finditer_from fl r (S pos) s' 0
          end
      end
  end.

Definition finditer (fl : flags) (r : regex) (text : str) : list pymatch :=
  finditer_from fl r 0 text 0.

(** ** The identifier deriver *)

(** [URN_FROM_IA_RE]: anchored at both ends, a group [prefix] of one or
    more of [A-Za-z0-9], an underscore, a group [number] of one or more
    [\d], an optional non-capturing underscore followed by any run of
    [.], compiled with [re.ASCII]. *)
Definition URN_FROM_IA_RE : regex :=
  (Bol
   ⋅ Grp "prefix" (Rep true 1 (OneOf [Range (ch "A") (ch "Z"); Range (ch "a") (ch "z");
                                      Range (ch "0") (ch "9")]))
   ⋅ chr "_"
   ⋅ Grp "number" (Rep true 1 (OneOf [CatDigit]))
   ⋅ Opt (chr "_" ⋅ Rep true 0 AnyChar)
   ⋅ Eol)%re.
Definition URN_FLAGS : flags := {| IGNORECASE := false; ASCII := true |}.

Definition derive_delpher_urn (ia_id : str) : result str :=
  if bool_decide (strip ia_id = []) then Raise (SystemExit UrnEmptyIaId)
  else
    let s := strip ia_id in
    match re_match URN_FLAGS URN_FROM_IA_RE s with
    | None => Raise (SystemExit UrnInvalidIaId)
    | Some m =>
        let prefix := group s m "prefix" in
        let number := group s m "number" in
        Return (fmt_group prefix ++ py ":" ++ fmt_group number)
    end.

(** The two fatal messages of [derive_delpher_urn]. *)
Definition MalformedIdentifier (e : exn) : Prop :=
  e = SystemExit UrnEmptyIaId ∨ e = SystemExit UrnInvalidIaId.

(** ** The block matcher and transformer *)

(** The direct-download URL, written twice in the source with the same
    text: http, an optional s, ://archive.org/download/, a lazy run of one
    or more of [\w\-\./], and .pdf. *)
Definition PDF_URL : regex :=
  (lit "http" ⋅ Opt (chr "s") ⋅ lit "://archive" ⋅ chr "." ⋅ lit "org/download/"
   ⋅ Rep false 1 (OneOf [CatWord; Lit (ch "-"); Lit (ch "."); Lit (ch "/")])
   ⋅ chr "." ⋅ lit "pdf")%re.

(** [OLD_BLOCK_RE], compiled with [re.IGNORECASE]: the three lines of the
    old block, with the groups [prefix], [iaid] and [pdf].  The pieces are
    named after what they match; [OLD_BLOCK_RE] is their concatenation in
    the order of the source. *)
Definition OLD_PREFIX : regex :=         (* "\|\s*source\s*=\s*\n" *)
  (chr "|" ⋅ ws_star ⋅ lit "source" ⋅ ws_star ⋅ chr "=" ⋅ ws_star ⋅ Chr (OneOf [Lit NL]))%re.
Definition OLD_LINK_OPEN : regex :=      (* "\s*:\s*\{\{\s*Internet\s+Archive\s+link\s*" *)
  (ws_star ⋅ chr ":" ⋅ ws_star ⋅ lit "{{" ⋅ ws_star ⋅ lit "Internet" ⋅ ws_plus
   ⋅ lit "Archive" ⋅ ws_plus ⋅ lit "link" ⋅ ws_star)%re.
Definition OLD_IAID : regex :=           (* "[^}\n\r]+?" *)
  Rep false 1 (NoneOf [Lit (ch "}"); Lit NL; Lit CR]).
Definition OLD_LINK_CLOSE : regex :=     (* "\s*\}\}\s*\n" *)
  (ws_star ⋅ lit "}}" ⋅ ws_star ⋅ Chr (OneOf [Lit NL]))%re.
Definition OLD_PDF_LINE : regex :=       (* "\s*:\s*(?P<pdf>...)\s*\n?" *)
  (ws_star ⋅ chr ":" ⋅ ws_star ⋅ Grp "pdf" PDF_URL ⋅ ws_star ⋅ Opt (Chr (OneOf [Lit NL])))%re.
Definition OLD_BLOCK_RE : regex :=
  (Grp "prefix" OLD_PREFIX
   ⋅ OLD_LINK_OPEN ⋅ chr "|" ⋅ ws_star ⋅ Grp "iaid" OLD_IAID ⋅ OLD_LINK_CLOSE
   ⋅ OLD_PDF_LINE)%re.
Definition OLD_FLAGS : flags := {| IGNORECASE := true; ASCII := false |}.

(** No flags: a [str] pattern matches with the Unicode tables. *)
Definition NO_FLAGS : flags := {| IGNORECASE := false; ASCII := false |}.

Definition build_new_source_block (ia_id pdf_url : str) : result str :=
  if bool_decide (strip ia_id = []) then Raise (SystemExit BlockEmptyIaId)
  else if bool_decide (strip pdf_url = []) then Raise (SystemExit BlockEmptyPdfUrl)
  else
    let s_pdf := strip pdf_url in
    match re_match NO_FLAGS (Bol ⋅ PDF_URL ⋅ Eol) s_pdf with
    | None => Raise (SystemExit BlockInvalidPdfUrl)
    | Some _ =>
        urn ← derive_delpher_urn ia_id;
        let ia_link_tpl := py "{{Internet Archive link|" ++ ia_id ++ py "}}" in
        let delpher_site := py "https://resolver.kb.nl/resolve?urn=" ++ urn in
        let delpher_pdf :=
          py "https://resolver.kb.nl/resolve?urn=" ++ urn ++ py ":mpeg21:pdf" in
        Return (join [NL] [
          py "Internet Archive";
          py "* Website: " ++ ia_link_tpl;
          py "* Direct download: " ++ s_pdf;
          py "Delpher";
          py "* Website: " ++ delpher_site;
          py "* Direct download: " ++ delpher_pdf ])
    end.

(** A method call or a concatenation on [None] raises. *)
Definition not_none {A} (what : string) (o : option A) : result A :=
  match o with
  | Some a => Return a
  | None => Raise (Exception what)
  end.

Definition transform_wikitext (text : str) : result str :=
  let matches := finditer OLD_FLAGS OLD_BLOCK_RE text in
  match matches with
  | [] => Return text
  | [m] =>
      let prefix := group text m "prefix" in
      iaid ← strip <$> not_none "AttributeError" (group text m "iaid");
      pdf ← strip <$> not_none "AttributeError" (group text m "pdf");
      urn ← derive_delpher_urn iaid;
      new_block ← build_new_source_block iaid pdf;
      let '(start, stop) := (m_start m, m_end m) in
      prefix ← not_none "TypeError" prefix;
      Return (take start text ++ prefix ++ new_block ++ [NL] ++ drop stop text)
  | _ => Raise (SystemExit (TransformMultiple (length matches)))
  end.

(** ** The workload slicer *)

(** The pattern of RANGE: anchored, optional blanks, a first group of
    digits, a hyphen or a colon between optional blanks, a second group of
    digits, optional blanks. *)
Definition RANGE_RE : regex :=
  (Bol ⋅ ws_star ⋅ Grp "1" (Rep true 1 (OneOf [CatDigit])) ⋅ ws_star
   ⋅ Chr (OneOf [Lit (ch "-"); Lit (ch ":")])
   ⋅ ws_star ⋅ Grp "2" (Rep true 1 (OneOf [CatDigit])) ⋅ ws_star ⋅ Eol)%re.

(** [int(s)] on a run of decimal digits: a character that is no digit is
    a [ValueError], and so is a run of more digits, leading zeros
    included, than the limit of the interpreter when there is one. *)
Definition digit_value (x : char) : option Z :=
  if (x <? 128)%N then
    if ascii_digit x then Some (Z.of_N (x - 48)) else None
  else Z.of_N <$> uni_decimal U x.
Definition over_int_limit (s : str) : bool :=
  bool_decide (0 < int_max_str_digits U) && bool_decide (int_max_str_digits U < length s).
Definition int_of_digits (s : str) : result Z :=
  match s with
  | [] => Raise (Exception "ValueError")
  | _ =>
      if over_int_limit s then Raise (Exception "ValueError")
      else
        foldl (λ acc x, a ← acc; d ← not_none "ValueError" (digit_value x);
                        Return (10 * a + d)%Z)
              (Return 0%Z) s
  end.

(** [records[i:j]] for non-negative [i] and [j]. *)
Definition sublist {A} (l : list A) (i j : Z) : list A :=
  take (Z.to_nat j - Z.to_nat i) (drop (Z.to_nat i) l).

Definition apply_slice_records (records : list record) : result (list record) :=
  let total := length records in
  if decide (total = 0) then Return records
  else
    let has_range := bool_decide (strip (RANGE cfg) ≠ []) in
    let has_head := bool_decide (HEAD cfg > 0)%Z in
    if has_range && has_head then Raise (SystemExit SliceBothSet)
    else if has_range then
      match re_match NO_FLAGS RANGE_RE (RANGE cfg) with
      | None => Raise (SystemExit SliceRangeForm)
      | Some m =>
          start ← not_none "TypeError" (group (RANGE cfg) m "1") ≫= int_of_digits;
          stop ← not_none "TypeError" (group (RANGE cfg) m "2") ≫= int_of_digits;
          if bool_decide (start < 1 ∨ stop < start)%Z
          then Raise (SystemExit (SliceRangeValues start stop))
          else if bool_decide (start > Z.of_nat total ∨ stop > Z.of_nat total)%Z
          then Raise (SystemExit (SliceRangeBounds total start stop))
          else Return (sublist records (start - 1) stop)
      end
    else if has_head then
      let n := HEAD cfg in
      if bool_decide (n < 1 ∨ n > Z.of_nat total)%Z
      then Raise (SystemExit (SliceHeadBounds total n))
      else Return (take (Z.to_nat n) records)
    else Return records.

(** ** The outside world

    The wiki, the workbook, the browser and the clock are collaborators.
    A call to one of them is an event of a program tree; the tree continues
    with whatever the collaborator replies. *)

Inductive json :=
| JNull
| JBool (b : bool)
| JInt (z : Z)
| JStr (s : str)
| JList (l : list json)
| JDict (d : list (str * json)).

(** What [site.api] can do: return the response, raise
    [mwclient.errors.APIError] (with the text [str(e)] gives), or raise
    anything else. *)
Inductive api_reply :=
| ApiResponse (resp : json)
| ApiAPIError (err : str)
| ApiException.

Inductive token_reply :=
| TokenException
| Token (t : option str).

Inductive login_reply :=
| LoginOk
| LoginError        (* mwclient.LoginError *)
| LoginException.

(** A sheet: its columns in order, each with its cells. *)
Record dataframe := { columns : list (str * list cell) }.

Inductive read_reply :=
| ReadException
| ReadFrame (df : dataframe)
| ReadOther.        (* an object without [columns] *)

Inductive status :=
| STATUS_PROCESSED          (* "Successfully processed" *)
| STATUS_SKIPPED_NO_OLD     (* "Skipped - no old pattern found" *)
| STATUS_ERROR.             (* "Skipped - other error" *)

Definition status_text (st : status) : str :=
  match st with
  | STATUS_PROCESSED => py "Successfully processed"
  | STATUS_SKIPPED_NO_OLD => py "Skipped - no old pattern found"
  | STATUS_ERROR => py "Skipped - other error"
  end.

(** The parameters of the [action=edit] call that vary. *)
Record edit_params := {
  ep_pageid : str;
  ep_text : str;
  ep_summary : str;
  ep_token : str;
  ep_basetimestamp : str
}.

Inductive event :=
| SiteConnect                                  (* mwclient.Site("commons.wikimedia.org", ...) *)
| SiteLogin (user password : str)              (* site.login(USERNAME, PASSWORD) *)
| SiteGetToken                                 (* site.get_token('csrf') *)
| SiteApiQuery (pageids : str)                 (* site.api("query", pageids=..., ...) *)
| SiteApiEdit (params : edit_params)           (* site.api(action="edit", ...) *)
| PathExists (path : str)                      (* os.path.exists *)
| ReadExcel (path : str) (sheet : sheet_ref)   (* pd.read_excel *)
| LoadWorkbook (path : str)                    (* load_workbook(...).sheetnames *)
| WriteExcel (path sheet : str) (replace : bool) (df : dataframe)   (* df.to_excel *)
| OpenTab (url : str)                          (* webbrowser.open_new_tab *)
| Sleep (sec : Q)                              (* time.sleep *)
| StatusWriter (statuses : gmap Z status).     (* the Status Writer, seen from the batch runner *)

Definition reply (e : event) : Type :=
  match e with
  | SiteConnect => bool
  | SiteLogin _ _ => login_reply
  | SiteGetToken => token_reply
  | SiteApiQuery _ => api_reply
  | SiteApiEdit _ => api_reply
  | PathExists _ => bool
  | ReadExcel _ _ => read_reply
  | LoadWorkbook _ => option (list str)
  | WriteExcel _ _ _ _ => bool
  | OpenTab _ => bool
  | Sleep _ => bool
  | StatusWriter _ => result unit
  end.

Inductive prog (A : Type) : Type :=
| Ret (a : A)
| Call (e : event) (k : reply e → prog A).
Arguments Ret {A} a.
Arguments Call {A} e k.

Fixpoint pbind {A B} (m : prog A) (f : A → prog B) : prog B :=
  match m with
  | Ret a => f a
  | Call e k => Call e (λ r, pbind (k r) f)
  end.

(** A computation that may raise. *)
Definition io (A : Type) : Type := prog (result A).

#[export] Instance io_ret : MRet io := λ A a, Ret (Return a).
#[export] Instance io_bind : MBind io := λ A B f m,
  pbind m (λ r, match r with
                | Return a => f a
                | Raise e => Ret (Raise e)
                end).

Definition call (e : event) : io (reply e) := Call e (λ r, Ret (Return r)).
Definition raise {A} (e : exn) : io A := Ret (Raise e).
Definition exit {A} (why : critical) : io A := raise (SystemExit why).
Definition lift {A} (r : result A) : io A := Ret r.

(** [try: m] followed by the handlers [h], which see how [m] ended. *)
Definition try {A B} (m : io A) (h : result A → prog B) : prog B := pbind m h.

(** Running a program against an environment that answers every event,
    with the events in the order of issue. *)
Fixpoint run {A W} (respond : ∀ e : event, W → reply e * W) (p : prog A) (w : W)
    : A * W * list event :=
  match p with
  | Ret a => (a, w, [])
  | Call e k =>
      let '(r, w1) := respond e w in
      let '(a, w2, t) := run respond (k r) w1 in
      (a, w2, e :: t)
  end.

(** *** JSON values as Python sees them *)

Definition truthy (j : json) : bool :=
  match j with
  | JNull => false
  | JBool b => b
  | JInt z => negb (z =? 0)%Z
  | JStr s => bool_decide (s ≠ [])
  | JList l => bool_decide (l ≠ [])
  | JDict d => bool_decide (d ≠ [])
  end.

Fixpoint assoc {A} (key : str) (d : list (str * A)) : option A :=
  match d with
  | [] => None
  | (k, v) :: d' => if decide (k = key) then Some v else assoc key d'
  end.

(** [j.get(key)]: [None] for an absent key, [AttributeError] when [j] has
    no [get]. *)
Definition jget (j : json) (key : string) : result json :=
  match j with
  | JDict d => Return (default JNull (assoc (py key) d))
  | _ => Raise (Exception "AttributeError")
  end.

(** [j == s] for a string [s] *)
Definition is_str (s : str) (j : json) : bool :=
  match j with
  | JStr s' => bool_decide (s' = s)
  | _ => false
  end.

(** [a or b] *)
Definition jor (a b : json) : json := if truthy a then a else b.

(** [needle in haystack] for strings. *)
Fixpoint is_prefix (p s : str) : bool :=
  match p, s with
  | [], _ => true
  | x :: p', y :: s' => (x =? y)%N && is_prefix p' s'
  | _ :: _, [] => false
  end.
Fixpoint contains (needle haystack : str) : bool :=
  is_prefix needle haystack
  || match haystack with
     | [] => false
     | _ :: h' => contains needle h'
     end.

(** ** The page editor *)

Definition fetch_wikitext_by_pageid (pageid : Z) : io (str * str) :=
  if bool_decide (pageid ≤ 0)%Z then exit FetchBadPageid
  else
    r ← call (SiteApiQuery (str_of_Z pageid));
    match r with
    | ApiAPIError _ => exit FetchApiError
    | ApiException => exit FetchTransport
    | ApiResponse resp =>
        query ← lift (jget resp "query");
        match query with
        | JDict _ =>
            pages ← lift (jget query "pages");
            match pages with
            | JList (page :: _) =>
                missing ← lift (jget page "missing");
                if truthy missing then exit FetchMissing
                else
                  revs ← lift (jget page "revisions");
                  match revs with
                  | JList (rev0 :: _) =>
                      slots ← lift (jget rev0 "slots");
                      main ← lift (jget (jor slots (JDict [])) "main");
                      let main_slot := jor main (JDict []) in
                      content ← lift (jget main_slot "content");
                      text ← (if truthy content then mret content
                              else lift (jget main_slot "*"));
                      ts ← lift (jget rev0 "timestamp");
                      match text with
                      | JStr ((_ :: _) as text) =>
                          match ts with
                          | JStr ((_ :: _) as ts) => mret (text, ts)
                          | _ => exit FetchNoTimestamp
                          end
                      | _ => exit FetchNoContent
                      end
                  | _ => exit FetchNoRevisions
                  end
            | _ => exit FetchNoPages
            end
        | _ => exit FetchNoQuery
        end
    end.

(** [_get_token] of [save_wikitext_by_pageid] *)
Definition get_token : io str :=
  r ← call SiteGetToken;
  match r with
  | TokenException => exit SaveTokenFailed
  | Token (Some ((_ :: _) as token)) => mret token
  | Token _ => exit SaveTokenEmpty
  end.

(** [_edit_with_token]: one [action=edit] call; what it raises is left to
    the caller. *)
Definition edit_with_token (pageid : Z) (new_text basetimestamp token : str)
    : io api_reply :=
  call (SiteApiEdit {| ep_pageid := str_of_Z pageid; ep_text := new_text;
                       ep_summary := EDIT_SUMMARY cfg; ep_token := token;
                       ep_basetimestamp := basetimestamp |}).

Definition auth_keys : list str :=
  [py "assertuserfailed"; py "assertnameduserfailed"; py "notloggedin"; py "badtoken"].

Definition save_wikitext_by_pageid (pageid : Z) (new_text : str)
    (basetimestamp : option str) : io bool :=
  if bool_decide (pageid ≤ 0)%Z then exit SaveBadPageid
  else if bool_decide (new_text = []) then exit SaveEmptyText
  else
    match basetimestamp with
    | None | Some [] => exit SaveNoTimestamp
    | Some basetimestamp =>
        (* First attempt *)
        token ← get_token;
        r ← edit_with_token pageid new_text basetimestamp token;
        resp ← match r with
               | ApiResponse resp => mret resp
               | ApiAPIError err =>
                   if existsb (λ k, contains k err) auth_keys then
                     l ← call (SiteLogin (USERNAME cfg) (PASSWORD cfg));
                     match l with
                     | LoginOk =>
                         token ← get_token;
                         r2 ← edit_with_token pageid new_text basetimestamp token;
                         match r2 with
                         | ApiResponse resp => mret resp
                         | _ => exit SaveRetryFailed
                         end
                     | _ => exit SaveRetryFailed
                     end
                   else exit SaveApiError
               | ApiException => exit SaveTransport
               end;
        (* Validate response *)
        has_error ← lift (match resp with
                          | JDict d => Return (bool_decide (is_Some (assoc (py "error") d)))
                          | JList l => Return (existsb (is_str (py "error")) l)
                          | JStr s => Return (contains (py "error") s)
                          | _ => Raise (Exception "TypeError")
                          end);
        if has_error : bool then exit SaveEditFailed
        else
          edit ← lift (match resp with
                       | JDict d => Return (default (JDict []) (assoc (py "edit") d))
                       | _ => Raise (Exception "AttributeError")
                       end);
          result ← lift (jget edit "result");
          if is_str (py "Success") result then mret true
          else
            nochange ← lift (jget edit "nochange");
            if (match nochange with JBool true => true | _ => false end) then mret true
            else exit SaveUnexpected
    end.

(** ** The record loader *)

(** [pd.to_numeric(..., errors="coerce")] on one cell. *)
Definition to_numeric (c : cell) : num :=
  match c with
  | CInt z => NumInt z
  | CFloat q => NumFloat q
  | CNaN => NumNaN
  | CStr s => numeric_of_text U s
  end.

Definition isna (n : num) : bool :=
  match n with
  | NumNaN => true
  | _ => false
  end.

(** [n <= 0]; false on NaN. *)
Definition le_zero (n : num) : bool :=
  match n with
  | NumInt z => (z <=? 0)%Z
  | NumFloat q => Qle_bool q 0
  | NumNaN => false
  end.

(** Rounding towards zero, which is what a cast of a float to [int] does. *)
Definition Qtrunc (q : Q) : Z := if Qle_bool 0 q then Qfloor q else Qceiling q.

(** The integers of 64 bits. *)
Definition INT64_MIN : Z := - 2 ^ 63.
Definition INT64_MAX : Z := 2 ^ 63 - 1.
Definition in_int64 (z : Z) : bool := (INT64_MIN <=? z)%Z && (z <=? INT64_MAX)%Z.

(** [astype(int)] on one value, [int] being the integer of 64 bits: NaN
    cannot be cast; a float is rounded towards zero when the result fits,
    and is otherwise whatever the conversion of the machine leaves, with
    no error. *)
Definition astype_int (n : num) : result Z :=
  match n with
  | NumInt z => Return z
  | NumFloat q =>
      if in_int64 (Qtrunc q) then Return (Qtrunc q) else Return (cast_out_of_range U q)
  | NumNaN => Raise (Exception "IntCastingNaNError")
  end.

(** [astype("Int64")] on one value: NaN becomes NA, a float with a
    fraction cannot be cast safely. *)
Definition astype_Int64 (n : num) : result (option Z) :=
  match n with
  | NumInt z => Return (Some z)
  | NumFloat q =>
      if Qeq_bool q (inject_Z (Qfloor q)) then Return (Some (Qfloor q))
      else Raise (Exception "TypeError")
  | NumNaN => Return None
  end.

(** Casting a whole Series. *)
Fixpoint cast_all {A B} (f : A → result B) (l : list A) : result (list B) :=
  match l with
  | [] => Return []
  | x :: l' => y ← f x; ys ← cast_all f l'; Return (y :: ys)
  end.

(** De-duplication by pageid, first occurrence kept; returns the unique
    records and the number of rows dropped. *)
Fixpoint dedup (seen : gset Z) (records : list record) : list record * nat :=
  match records with
  | [] => ([], 0)
  | rec :: rest =>
      let pid := pageid rec in
      if decide (pid ∈ seen) then
        let '(uniq, dup_count) := dedup seen rest in (uniq, S dup_count)
      else
        let '(uniq, dup_count) := dedup ({[pid]} ∪ seen) rest in (rec :: uniq, dup_count)
  end.

Definition get_records : io (list record) :=
  (* Validate file exists *)
  ex ← call (PathExists (EXCEL_FILE cfg));
  if negb ex then exit RecNoFile
  else
    (* Read sheet *)
    r ← call (ReadExcel (EXCEL_FILE cfg) (EXCEL_SHEET cfg));
    match r with
    | ReadException => exit RecReadFailed
    | ReadOther => exit RecNotFrame
    | ReadFrame df =>
        match assoc (EXCEL_PAGEID_COL cfg) (columns df) with
        | None => exit RecNoColumn
        | Some raw_pid =>
            (* Convert pageid column to strictly positive ints *)
            let num_pid := to_numeric <$> raw_pid in
            let invalid_mask := (λ n, isna n || le_zero n) <$> num_pid in
            if existsb id invalid_mask then exit RecInvalidValues
            else
              pageids ← lift (cast_all astype_int num_pid);
              (* Optional titles *)
              let titles :=
                match assoc (EXCEL_TITLE_COL cfg) (columns df) with
                | Some col => (λ c, Some (strip (text_of_cell U c))) <$> col
                | None => replicate (length pageids) None
                end in
              (* Build records *)
              let records :=
                zip_with (λ pid title,
                    {| pageid := pid;
                       mid := py "M" ++ str_of_Z pid;
                       title := match title with
                                | Some ((_ :: _) as t) => Some t
                                | _ => None
                                end |})
                  pageids titles in
              (* De-duplicate by pageid while preserving order *)
              let '(uniq, dup_count) := dedup ∅ records in
              if decide (uniq = []) then exit RecNone
              else if bool_decide (Z.of_nat (length uniq) > MAX_FILES cfg)%Z
              then exit (RecTooMany (length uniq))
              else mret uniq
        end
    end.

(** ** The status writer *)

Definition nrows (df : dataframe) : nat :=
  match columns df with
  | [] => 0
  | (_, col) :: _ => length col
  end.

(** [df[name] = value] for a new column. *)
Definition add_column (name : str) (value : cell) (df : dataframe) : dataframe :=
  {| columns := columns df ++ [(name, replicate (nrows df) value)] |}.

(** [df.loc[mask, name] = value] *)
Definition set_where (mask : list bool) (name : str) (value : cell) (df : dataframe)
    : dataframe :=
  {| columns :=
       (λ '(n, col), if decide (n = name)
                     then (n, zip_with (λ (b : bool) old, if b then value else old) mask col)
                     else (n, col)) <$> columns df |}.

Definition write_status_to_excel (status_by_pageid : gmap Z status) : io unit :=
  if decide (status_by_pageid = ∅) then mret ()
  else
    ex ← call (PathExists (EXCEL_FILE cfg));
    if negb ex then exit WrNoFile
    else
      r ← call (ReadExcel (EXCEL_FILE cfg) (EXCEL_SHEET cfg));
      match r with
      | ReadException => exit WrReadFailed
      | ReadOther => raise (Exception "AttributeError")
      | ReadFrame df =>
          match assoc (EXCEL_PAGEID_COL cfg) (columns df) with
          | None => exit WrNoColumn
          | Some raw_pid =>
              (* Ensure status column exists *)
              let df :=
                if decide (is_Some (assoc (EXCEL_STATUS_COL cfg) (columns df))) then df
                else add_column (EXCEL_STATUS_COL cfg) (CStr []) df in
              (* Normalize pageid column to Int64 and apply statuses *)
              pid_series ← (lift (cast_all astype_Int64 (to_numeric <$> raw_pid))
                            : io (list (option Z)));
              let df :=
                foldl (λ df '(pid, st),
                    let mask := (λ v, bool_decide (v = Some pid)) <$> pid_series in
                    if existsb id mask
                    then set_where mask (EXCEL_STATUS_COL cfg) (CStr (status_text st)) df
                    else df)
                  df (map_to_list status_by_pageid) in
              (* Resolve a valid sheet name for writing *)
              names ← (call (LoadWorkbook (EXCEL_FILE cfg)) : io (option (list str)));
              match names with
              | None => exit WrSheetNames
              | Some sheetnames =>
                  target_sheet ←
                    match EXCEL_SHEET cfg with
                    | SheetIndex i =>
                        if bool_decide (i < 0 ∨ i >= Z.of_nat (length sheetnames))%Z
                        then exit WrSheetIndex
                        else lift (not_none "IndexError" (sheetnames !! Z.to_nat i))
                    | SheetName name =>
                        if bool_decide (strip name ≠ []) then mret name
                        else lift (not_none "IndexError" (sheetnames !! 0))
                    end;
                  (* Choose replace vs new *)
                  let sheet_exists := bool_decide (target_sheet ∈ sheetnames) in
                  (* Write back *)
                  ok ← call (WriteExcel (EXCEL_FILE cfg) target_sheet sheet_exists df);
                  if ok : bool then mret () else exit WrWriteFailed
              end
          end
      end.

(** ** The batch runner *)

(** [open_page_in_browser]: whatever the browser does, nothing is raised. *)
Definition open_page_in_browser (pageid : Z) : io unit :=
  _ ← call (OpenTab (py "https://commons.wikimedia.org/wiki/Special:Redirect/page/"
                     ++ str_of_Z pageid));
  mret ().

(** The variables of [process_records] that change while it runs. *)
Record runner := {
  status_by_pageid : gmap Z status;
  opened : Z;
  successes_since_flush : Z;
  total_successes : Z
}.

Definition set_status (pid : Z) (s : status) (st : runner) : runner :=
  {| status_by_pageid := <[pid := s]> (status_by_pageid st);
     opened := opened st;
     successes_since_flush := successes_since_flush st;
     total_successes := total_successes st |}.

(** The variables before the first record. *)
Definition runner0 : runner :=
  {| status_by_pageid := ∅; opened := 0; successes_since_flush := 0; total_successes := 0 |}.

Section BatchRunner.

(** The runner calls the status writer by its global name; here it is a
    parameter, which [main] sets to [write_status_to_excel]. *)
Variable write_status : gmap Z status → io unit.

(** The part of the loop body after a successful save: browser tab. *)
Definition open_after_success (pid : Z) (st : runner) : prog (runner * result unit) :=
  if bool_decide (OPEN_AFTER_SUCCESS cfg ≠ 0)%Z
     && bool_decide (opened st < OPEN_AFTER_SUCCESS_MAX cfg)%Z
  then
    try (open_page_in_browser pid) (λ _,
      Ret ({| status_by_pageid := status_by_pageid st;
              opened := (opened st + 1)%Z;
              successes_since_flush := successes_since_flush st;
              total_successes := total_successes st |}, Return ()))
  else Ret (st, Return ()).

(** The [try] block of the loop body: the state it leaves and how it
    ended. *)
Definition attempt (pid : Z) (st : runner) : prog (runner * result unit) :=
  try (fetch_wikitext_by_pageid pid) (λ fetched,
    match fetched with
    | Raise e => Ret (st, Raise e)
    | Return (text, base) =>
        match transform_wikitext text with
        | Raise e => Ret (st, Raise e)
        | Return new_text =>
            if decide (new_text = text) then
              Ret (set_status pid STATUS_SKIPPED_NO_OLD st, Return ())
            else
              try (save_wikitext_by_pageid pid new_text (Some base)) (λ saved,
                match saved with
                | Raise e => Ret (st, Raise e)
                | Return _ =>
                    (* count successes and checkpoint if threshold reached *)
                    let st :=
                      {| status_by_pageid := <[pid := STATUS_PROCESSED]> (status_by_pageid st);
                         opened := opened st;
                         successes_since_flush := (successes_since_flush st + 1)%Z;
                         total_successes := (total_successes st + 1)%Z |} in
                    if bool_decide (CHECKPOINT_EVERY_SUCCESS cfg > 0)%Z
                       && bool_decide (successes_since_flush st
                                       >= CHECKPOINT_EVERY_SUCCESS cfg)%Z
                    then
                      try (write_status (status_by_pageid st)) (λ written,
                        (* reset counter regardless of write outcome *)
                        let st :=
                          {| status_by_pageid := status_by_pageid st;
                             opened := opened st;
                             successes_since_flush := 0;
                             total_successes := total_successes st |} in
                        match written with
                        | Raise (SystemExit why) => Ret (st, Raise (SystemExit why))
                        | _ => open_after_success pid st
                        end)
                    else open_after_success pid st
                end)
        end
    end).

(** One turn of the loop, for the record at 1-based index [idx]. *)
Definition process_one (total idx : nat) (rec : record) (st : runner) : io runner :=
  let pid := pageid rec in
  if bool_decide (pid ≤ 0)%Z then exit (ProcBadPageid idx)
  else
    pbind (attempt pid st) (λ '(st, outcome),
      let st :=
        match outcome with
        | Return _ => st
        | Raise _ => set_status pid STATUS_ERROR st
        end in
      if negb (Qle_bool (EDIT_SLEEP_SEC cfg) 0) && bool_decide (idx < total)
      then try (call (Sleep (EDIT_SLEEP_SEC cfg))) (λ _, Ret (Return st))
      else Ret (Return st)).

(** The [for] loop. *)
Fixpoint process_loop (total idx : nat) (records : list record) (st : runner) : io runner :=
  match records with
  | [] => mret st
  | rec :: rest =>
      st ← process_one total idx rec st;
      process_loop total (S idx) rest st
  end.

Definition process_records (records : list record) : io (gmap Z status) :=
  if decide (records = []) then exit ProcNoRecords
  else
    let total := length records in
    st ← process_loop total 1 records runner0;
    (* flush any remaining successes that did not hit the threshold *)
    if bool_decide (CHECKPOINT_EVERY_SUCCESS cfg > 0)%Z
       && bool_decide (successes_since_flush st > 0)%Z
    then
      try (write_status (status_by_pageid st)) (λ written,
        match written with
        | Raise (SystemExit why) => exit why
        | _ => Ret (Return (status_by_pageid st))
        end)
    else mret (status_by_pageid st).

(** The last steps of [main]: process and collect statuses, then write
    them back. *)
Definition process_and_write (records : list record) : io unit :=
  status_by_pageid ← process_records records;
  write_status status_by_pageid.

End BatchRunner.

Definition main : io unit :=
  try (records ← get_records;
       records ← lift (apply_slice_records records);
       if decide (records = []) then exit MainNoRecords
       else
         (* Login *)
         connected ← call SiteConnect;
         if negb connected then exit MainLogin
         else
           l ← call (SiteLogin (USERNAME cfg) (PASSWORD cfg));
           match l with
           | LoginOk => process_and_write write_status_to_excel records
           | _ => exit MainLogin
           end)
    (λ r, match r with
          | Raise (Exception _) => exit MainUnexpected
          | _ => Ret r
          end).

(** ** Observing the status writer *)






(** ** What the matcher accepts

    [derives fl r pos u rest c c'] says that [r], started at offset [pos]
    with captures [c], can consume exactly [u] when [rest] follows, and
    leaves captures [c'].  The matcher finds a match exactly when some
    derivation lets the continuation succeed. *)

Fixpoint derives (fl : flags) (r : regex) (pos : nat) (u rest : str) (c c' : captures) : Prop :=
  match r with
  | Eps => u = [] ∧ c' = c
  | Chr cl => ∃ x, u = [x] ∧ cmatch fl cl x = true ∧ c' = c
  | Seq r1 r2 =>
      ∃ u1 u2 c1, u = u1 ++ u2
        ∧ derives fl r1 pos u1 (u2 ++ rest) c c1
        ∧ derives fl r2 (pos + length u1) u2 rest c1 c'
  | Rep _ n cl => Forall (λ x, cmatch fl cl x = true) u ∧ n ≤ length u ∧ c' = c
  | Opt r' => (u = [] ∧ c' = c) ∨ derives fl r' pos u rest c c'
  | Grp name r' =>
      ∃ c1, derives fl r' pos u rest c c1 ∧ c' = <[name := (pos, pos + length u)]> c1
  | Bol => u = [] ∧ pos = 0 ∧ c' = c
  | Eol => u = [] ∧ (rest = [] ∨ rest = [NL]) ∧ c' = c
  end.

(** A pattern without [^] and [$] matches a string whatever surrounds it. *)
Fixpoint anchor_free (r : regex) : bool :=
  match r with
  | Eps | Chr _ | Rep _ _ _ => true
  | Seq r1 r2 => anchor_free r1 && anchor_free r2
  | Opt r' | Grp _ r' => anchor_free r'
  | Bol | Eol => false
  end.

(** No character class of [r] accepts [x]. *)
Fixpoint rejects (fl : flags) (x : char) (r : regex) : bool :=
  match r with
  | Eps | Bol | Eol => true
  | Chr cl | Rep _ _ cl => negb (cmatch fl cl x)
  | Seq r1 r2 => rejects fl x r1 && rejects fl x r2
  | Opt r' | Grp _ r' => rejects fl x r'
  end.

(** The names of the groups of [r]. *)
Fixpoint group_names (r : regex) : list string :=
  match r with
  | Eps | Chr _ | Rep _ _ _ | Bol | Eol => []
  | Seq r1 r2 => group_names r1 ++ group_names r2
  | Opt r' => group_names r'
  | Grp name r' => name :: group_names r'
  end.

(** [r] can consume [u], somewhere. *)
Definition lang (fl : flags) (r : regex) (u : str) : Prop :=
  ∃ pos rest c c', derives fl r pos u rest c c'.

(** A maximal run of characters satisfying [P] ends at the end of the
    string or before a character that does not satisfy [P]. *)
Definition stops (P : char → bool) (b : str) : Prop :=
  match b with
  | [] => True
  | x :: _ => P x = false
  end.

(** The shape of the identifiers [URN_FROM_IA_RE] accepts: a prefix of
    ASCII letters and digits, an underscore, a number of ASCII digits, and
    nothing more or an underscore and any text without a line break. *)
Definition well_formed (P N suffix : str) : Prop :=
  P ≠ [] ∧ Forall (λ x, ascii_alnum x = true) P
  ∧ N ≠ [] ∧ Forall (λ x, ascii_digit x = true) N
  ∧ (suffix = [] ∨ ∃ t, suffix = ch "_" :: t ∧ NL ∉ t).

Definition urn_shape (s : str) : Prop :=
  ∃ P N suffix, s = P ++ ch "_" :: N ++ suffix ∧ well_formed P N suffix.

(** A run of white space. *)
Definition spaces (w : str) : Prop := Forall (λ x, unicode_space x = true) w.

(** An old block starts at the head of [s]. *)
Definition heads (s : str) : Prop :=
  ∃ u rest, s = u ++ rest ∧ lang OLD_FLAGS OLD_BLOCK_RE u.

(** No old block starts at any offset of [R]. *)
Definition clean_from (R : str) : Prop := ∀ j, ¬ heads (drop j R).

End WithUnicode.

Arguments Ret {A} a.
Arguments Call {A} e k.

(** ** Observing every event *)

(** [post p Q]: whatever the collaborators reply, [p] ends with a value
    [a] after issuing the events [t], in this order, such that [Q a t]. *)
Fixpoint post {A} (p : prog A) (Q : A → list event → Prop) : Prop :=
  match p with
  | Ret a => Q a []
  | Call e k => ∀ r, post (k r) (λ a t, Q a (e :: t))
  end.

(** The [action=edit] calls of a trace. *)
Definition edits (t : list event) : list edit_params :=
  omap (λ e, match e with
             | SiteApiEdit p => Some p
             | _ => None
             end) t.

(** The events that reach the wiki. *)
Definition is_site (e : event) : bool :=
  match e with
  | SiteConnect | SiteLogin _ _ | SiteGetToken | SiteApiQuery _ | SiteApiEdit _ => true
  | _ => false
  end.

Definition is_login (e : event) : bool :=
  match e with
  | SiteLogin _ _ => true
  | _ => false
  end.

Definition is_tab (e : event) : bool :=
  match e with
  | OpenTab _ => true
  | _ => false
  end.

Definition is_sleep (e : event) : bool :=
  match e with
  | Sleep _ => true
  | _ => false
  end.

(** The events that change something outside the process: an edit of a
    page or a write of the workbook. *)
Definition is_write (e : event) : bool :=
  match e with
  | SiteApiEdit _ | WriteExcel _ _ _ _ => true
  | _ => false
  end.

(** The events that concern the workbook. *)
Definition is_book (e : event) : bool :=
  match e with
  | PathExists _ | ReadExcel _ _ | LoadWorkbook _ | WriteExcel _ _ _ _ => true
  | _ => false
  end.

(** How many events of a trace are of class [c]. *)
Definition count (c : event → bool) (t : list event) : nat := length (filter c t).

(** Every event of [p] is of class [c]. *)
Definition only {A} (c : event → bool) (p : prog A) : Prop :=
  post p (λ _ t, Forall (λ e, c e = true) t).

(** An [action=edit] call for page [pid] with text [new_text], guarded by
    the timestamp [base], under the configured summary. *)
Definition same_edit (cfg : config) (pid : Z) (new_text : str) (base : option str)
    (p : edit_params) : Prop :=
  ep_pageid p = str_of_Z pid ∧ ep_text p = new_text
  ∧ base = Some (ep_basetimestamp p) ∧ ep_summary p = EDIT_SUMMARY cfg.

(** An environment in which the workbook exists and its sheet reads as [df]. *)
Definition workbook_is {W} (cfg : config) (df : dataframe)
    (respond : ∀ e : event, W → reply e * W) : Prop :=
  (∀ w, (respond (PathExists (EXCEL_FILE cfg)) w).1 = true)
  ∧ (∀ w, (respond (ReadExcel (EXCEL_FILE cfg) (EXCEL_SHEET cfg)) w).1 = ReadFrame df).

(** A cell that is no page id: blank, a number that is not positive, or
    text that [pd.to_numeric] cannot read. *)
Definition refused (U : runtime) (c : cell) : Prop :=
  c = CNaN
  ∨ (∃ z, c = CInt z ∧ (z ≤ 0)%Z)
  ∨ (∃ q, c = CFloat q ∧ (q <= 0)%Q)
  ∨ (∃ s, c = CStr s ∧ numeric_of_text U s = NumNaN).



(** What one record does to the count of opened tabs: nothing, or one tab
    more, which needs the switch on and the count below the cap. *)
Definition tab_step (cfg : config) (st st' : runner) (t : list event) : Prop :=
  (opened st' = opened st ∧ count is_tab t = 0)
  ∨ ((OPEN_AFTER_SUCCESS cfg ≠ 0)%Z ∧ (opened st < OPEN_AFTER_SUCCESS_MAX cfg)%Z
     ∧ opened st' = (opened st + 1)%Z ∧ count is_tab t = 1).

(** What the [try] block of the loop body leaves behind for page [pid]:
    the state, how the block ended, and the events. *)
Definition attempted (cfg : config) (pid : Z) (st : runner)
    (x : runner * result ()) (t : list event) : Prop :=
  count is_sleep t = 0
  ∧ tab_step cfg st x.1 t
  ∧ Forall (λ p, ep_pageid p = str_of_Z pid) (edits t) ∧ length (edits t) ≤ 2
  ∧ match x.2 with
    | Return _ =>
        ∃ s, status_by_pageid x.1 = <[pid := s]> (status_by_pageid st)
             ∧ s ≠ STATUS_ERROR
             ∧ (s = STATUS_SKIPPED_NO_OLD → count is_write t = 0)
             ∧ (s = STATUS_PROCESSED → edits t ≠ [])
    | Raise _ =>
        <[pid := STATUS_ERROR]> (status_by_pageid x.1)
        = <[pid := STATUS_ERROR]> (status_by_pageid st)
    end.

(** Whether the runner sleeps after the record at index [idx] of [total]. *)
Definition sleeps_after (cfg : config) (total idx : nat) : bool :=
  negb (Qle_bool (EDIT_SLEEP_SEC cfg) 0) && bool_decide (idx < total).

(** What one turn of the loop leaves behind for page [pid]. *)
Definition turned (cfg : config) (total idx : nat) (pid : Z) (st : runner)
    (r : result runner) (t : list event) : Prop :=
  ∃ st', r = Return st'
    ∧ count is_sleep t = (if sleeps_after cfg total idx then 1 else 0)
    ∧ tab_step cfg st st' t
    ∧ Forall (λ p, ep_pageid p = str_of_Z pid) (edits t) ∧ length (edits t) ≤ 2
    ∧ ∃ s, status_by_pageid st' = <[pid := s]> (status_by_pageid st)
           ∧ (s = STATUS_SKIPPED_NO_OLD → count is_write t = 0)
           ∧ (s = STATUS_PROCESSED → edits t ≠ []).


(** The records the loop goes through: those before the first whose page
    id is not positive. *)
Fixpoint reached (records : list record) : list record :=
  match records with
  | [] => []
  | rec :: rest => if bool_decide (pageid rec ≤ 0)%Z then [] else rec :: reached rest
  end.

(** What the loop leaves behind turn by turn, from the 1-based index
    [idx] on: one run of events for each record reached, and the error of
    the first record whose page id is not positive, if there is one. *)
Fixpoint walked (cfg : config) (total idx : nat) (records : list record) (st : runner)
    (r : result runner) (turns : list (list event)) : Prop :=
  match records with
  | [] => r = Return st ∧ turns = []
  | rec :: rest =>
      if bool_decide (pageid rec ≤ 0)%Z
      then r = Raise (SystemExit (ProcBadPageid idx)) ∧ turns = []
      else ∃ st1 t1 turns', turns = t1 :: turns'
             ∧ turned cfg total idx (pageid rec) st (Return st1) t1
             ∧ walked cfg total (S idx) rest st1 r turns'
  end.

(** The edit calls of one turn: at most two, all for the page of the
    record. *)
Definition edits_of (rec : record) (t : list event) : Prop :=
  length (edits t) ≤ 2 ∧ Forall (λ p, ep_pageid p = str_of_Z (pageid rec)) (edits t).

(** The order in which [main] meets its collaborators: the workbook is
    looked for and read, then the site is connected to and logged in to,
    and everything else comes after. *)
Definition main_order (cfg : config) (t : list event) : Prop :=
  let f := EXCEL_FILE cfg in
  t = [PathExists f]
  ∨ t = [PathExists f; ReadExcel f (EXCEL_SHEET cfg)]
  ∨ t = [PathExists f; ReadExcel f (EXCEL_SHEET cfg); SiteConnect]
  ∨ ∃ t', t = PathExists f :: ReadExcel f (EXCEL_SHEET cfg) :: SiteConnect
              :: SiteLogin (USERNAME cfg) (PASSWORD cfg) :: t'.

(** Runs of ASCII white space and non-empty runs of ASCII digits. *)
Definition blanks (w : str) : Prop := Forall (λ x, ascii_space x = true) w.
Definition digits (D : str) : Prop := D ≠ [] ∧ Forall (λ x, ascii_digit x = true) D.

(** ** The resolver of a title *)

(** [IA_ID_FROM_TITLE_RE], compiled without flags: an opening parenthesis,
    IA_, a group [prefix] of one or more of [A-Za-z0-9], an underscore, a
    group [number] of one or more [\d], an optional underscore followed by
    one or more characters other than a closing parenthesis, and a closing
    parenthesis. *)
Definition IA_ID_FROM_TITLE_RE : regex :=
  (chr "(" ⋅ lit "IA_"
   ⋅ Grp "prefix" (Rep true 1 (OneOf [Range (ch "A") (ch "Z"); Range (ch "a") (ch "z");
                                      Range (ch "0") (ch "9")]))
   ⋅ chr "_"
   ⋅ Grp "number" (Rep true 1 (OneOf [CatDigit]))
   ⋅ Opt (chr "_" ⋅ Rep true 1 (NoneOf [Lit (ch ")")]))
   ⋅ chr ")")%re.

(** [pattern.search(text)]: the match at the first offset that has one. *)
Fixpoint search_from (U : runtime) (fl : flags) (r : regex) (pos : nat) (s : str)
    : option pymatch :=
  match match_at U fl r pos s with
  | Some m => Some m
  | None =>
      match s with
      | [] => None
      | _ :: s' => search_from U fl r (S pos) s'
      end
  end.

Definition search (U : runtime) (fl : flags) (r : regex) (text : str) : option pymatch :=
  search_from U fl r 0 text.

Definition resolver_from_title (U : runtime) (title : option str) : option str :=
  match title with
  | None => None
  | Some title =>
      if bool_decide (strip title = []) then None
      else
        match search U NO_FLAGS IA_ID_FROM_TITLE_RE title with
        | None => None
        | Some m =>
            let prefix := group title m "prefix" in
            let number := group title m "number" in
            Some (py "https://resolver.kb.nl/resolve?urn="
                  ++ fmt_group prefix ++ py ":" ++ fmt_group number)
        end
  end.

(** A suffix as the title pattern accepts it: nothing, or an underscore
    and at least one character, none of them a closing parenthesis. *)
Definition title_suffix (s : str) : Prop :=
  s = [] ∨ ∃ t, s = ch "_" :: t ∧ t ≠ [] ∧ ((ch ")") ∉ t).

(** * Concrete inputs *)

(** The tables of a runtime that knows no character beyond ASCII and
    reads no text cell as a number, with the digit limit of an interpreter
    left as it comes and the out-of-range cast of x86-64. *)
Definition ascii_runtime : runtime :=
  {| uni_alnum := λ _, false; uni_decimal := λ _, None;
     numeric_of_text := λ _, NumNaN;
     text_of_cell := λ c, match c with CStr s => s | _ => [] end;
     int_max_str_digits := 4300;
     cast_out_of_range := λ _, INT64_MIN |}.

Definition demo_config : config :=
  {| USERNAME := py "bot"; PASSWORD := py "secret"; HEAD := 0; RANGE := [];
     EXCEL_FILE := py "worklist.xlsx"; EXCEL_SHEET := SheetIndex 0;
     EXCEL_TITLE_COL := py "Title"; EXCEL_PAGEID_COL := py "PageID";
     EXCEL_STATUS_COL := py "ProcessingStatus"; MAX_FILES := 60000;
     EDIT_SUMMARY := py "Improved sourcing"; EDIT_SLEEP_SEC := 0;
     OPEN_AFTER_SUCCESS := 0; OPEN_AFTER_SUCCESS_MAX := 20;
     CHECKPOINT_EVERY_SUCCESS := 50 |}.

Definition demo_record (pid : Z) : record :=
  {| pageid := pid; mid := py "M" ++ str_of_Z pid; title := None |}.

(** A file page with one old block. *)
Definition demo_page : str := py "{{Information
|description=Arnhemsche courant
|source =
:{{Internet Archive link|ddd_010124175_mpeg21}}
:https://archive.org/download/ddd_010124175_mpeg21/ddd_010124175_mpeg21.pdf
|date=1852-12-05
}}".

(** The smallest page with an old block, and a worklist of fifty pages. *)
Definition tiny_page : str := py "|source=
:{{Internet Archive link|a_1}}
:https://archive.org/download/a_1/a_1.pdf
".


(** ** A small wiki and a small workbook *)

(** What the query API answers for a page with content [text]. *)
Definition page_response (text : str) : json :=
  JDict [(py "query",
    JDict [(py "pages",
      JList [JDict [(py "revisions",
        JList [JDict [
          (py "slots", JDict [(py "main", JDict [(py "content", JStr text)])]);
          (py "timestamp", JStr (py "2025-09-18T10:00:00Z"))]])]])])].

Definition edit_success : json :=
  JDict [(py "edit", JDict [(py "result", JStr (py "Success"))])].

(** An environment: every page has content [text]; edits succeed, except
    the first one when [stale] is set, which fails with a bad token; the
    workbook is the sheet [df].  The state counts the edits. *)
Definition small_world (stale : bool) (text : str) (df : dataframe)
    (e : event) (edits : nat) : reply e * nat :=
  match e with
  | SiteConnect => (true, edits)
  | SiteLogin _ _ => (LoginOk, edits)
  | SiteGetToken => (Token (Some (py "0123456789abcdef+")), edits)
  | SiteApiQuery _ => (ApiResponse (page_response text), edits)
  | SiteApiEdit _ =>
      (if stale && bool_decide (edits = 0)
       then ApiAPIError (py "badtoken: Invalid CSRF token.")
       else ApiResponse edit_success, S edits)
  | PathExists _ => (true, edits)
  | ReadExcel _ _ => (ReadFrame df, edits)
  | LoadWorkbook _ => (Some [py "Sheet1"], edits)
  | WriteExcel _ _ _ _ => (true, edits)
  | OpenTab _ => (true, edits)
  | Sleep _ => (true, edits)
  | StatusWriter _ => (Return (), edits)
  end.

Definition no_sheet : dataframe := {| columns := [] |}.

(** A sheet whose only page id has a fraction. *)
Definition fraction_sheet : dataframe :=
  {| columns := [(py "Title", [CStr (py "File:Arnhemsche courant.pdf")]);
                 (py "PageID", [CFloat (11 # 2)])] |}.

(** A page without an old block. *)
Definition plain_page : str := py "{{Information
|description=Arnhemsche courant
|source=Delpher
}}".

(** A sheet with a blank page id, and a sheet without a flaw. *)
Definition blank_sheet : dataframe :=
  {| columns := [(py "Title", [CStr (py "File:A.pdf"); CStr (py "File:B.pdf")]);
                 (py "PageID", [CInt 5; CNaN])] |}.

Definition clean_sheet : dataframe :=
  {| columns := [(py "Title", [CStr (py " File:A.pdf"); CStr (py "File:B.pdf ")]);
                 (py "PageID", [CInt 5; CInt 7])] |}.

(** The settings with a RANGE. *)
Definition range_config : config :=
  {| USERNAME := py "bot"; PASSWORD := py "secret"; HEAD := 0; RANGE := py " 2 - 3";
     EXCEL_FILE := py "worklist.xlsx"; EXCEL_SHEET := SheetIndex 0;
     EXCEL_TITLE_COL := py "Title"; EXCEL_PAGEID_COL := py "PageID";
     EXCEL_STATUS_COL := py "ProcessingStatus"; MAX_FILES := 60000;
     EDIT_SUMMARY := py "Improved sourcing"; EDIT_SLEEP_SEC := 0;
     OPEN_AFTER_SUCCESS := 0; OPEN_AFTER_SUCCESS_MAX := 20;
     CHECKPOINT_EVERY_SUCCESS := 50 |}.

(** The settings with a HEAD and a RANGE. *)
Definition slicing (head : Z) (range : str) : config :=
  {| USERNAME := py "bot"; PASSWORD := py "secret"; HEAD := head; RANGE := range;
     EXCEL_FILE := py "worklist.xlsx"; EXCEL_SHEET := SheetIndex 0;
     EXCEL_TITLE_COL := py "Title"; EXCEL_PAGEID_COL := py "PageID";
     EXCEL_STATUS_COL := py "ProcessingStatus"; MAX_FILES := 60000;
     EDIT_SUMMARY := py "Improved sourcing"; EDIT_SLEEP_SEC := 0;
     OPEN_AFTER_SUCCESS := 0; OPEN_AFTER_SUCCESS_MAX := 20;
     CHECKPOINT_EVERY_SUCCESS := 50 |}.

(** A RANGE whose first number has one digit more than [int] converts. *)
Definition long_range : str := replicate 4301 (ch "1") ++ py "-5".



(** The settings with a pause between records and at most two browser
    tabs; a worklist whose fourth page id is not positive; and what the
    runner does with it when the first edit meets a stale token. *)
Definition eager_config : config :=
  {| USERNAME := py "bot"; PASSWORD := py "secret"; HEAD := 0; RANGE := [];
     EXCEL_FILE := py "worklist.xlsx"; EXCEL_SHEET := SheetIndex 0;
     EXCEL_TITLE_COL := py "Title"; EXCEL_PAGEID_COL := py "PageID";
     EXCEL_STATUS_COL := py "ProcessingStatus"; MAX_FILES := 60000;
     EDIT_SUMMARY := py "Improved sourcing"; EDIT_SLEEP_SEC := 1 # 2;
     OPEN_AFTER_SUCCESS := 1; OPEN_AFTER_SUCCESS_MAX := 2;
     CHECKPOINT_EVERY_SUCCESS := 50 |}.

Definition mixed_worklist : list record :=
  [demo_record 5; demo_record 7; demo_record 9; demo_record 0; demo_record 11].

Definition eager_trace : list event :=
  (run (small_world true tiny_page clean_sheet)
       (process_records ascii_runtime eager_config
          (write_status_to_excel ascii_runtime eager_config) mixed_worklist) 0).2.


(** * Properties *)

Arguments cmatch : simpl never.
Arguments ch : simpl never.
Arguments N.eqb : simpl never.

(** ** The matcher finds exactly the derivations *)

Section MatcherFacts.
Variable U : runtime.
Variable fl : flags.
Context {R : Type}.
Implicit Types (k : nat → str → option R) (p : char → bool).

Lemma need_sound p n k pos s res :
  need p n k pos s = Some res →
  ∃ u rest, s = u ++ rest ∧ Forall (λ x, p x = true) u ∧ length u = n
            ∧ k (pos + n) rest = Some res.
Proof.
  revert pos s. induction n as [|n IH]; intros pos s H; simpl in H.
  - exists [], s. rewrite Nat.add_0_r. auto.
  - destruct s as [|x s']; [done|]. destruct (p x) eqn:Hp; [|done].
    apply IH in H as (u & rest & -> & Hu & Hlen & Hk).
    exists (x :: u), rest. repeat split; auto.
    + simpl. by rewrite Hlen.
    + by replace (pos + S n) with (S pos + n) by lia.
Qed.

Lemma need_complete p n k pos u rest :
  Forall (λ x, p x = true) u → length u = n →
  is_Some (k (pos + n) rest) → is_Some (need p n k pos (u ++ rest)).
Proof.
  intros Hu. revert n pos. induction Hu as [|x u Hx Hu IH]; intros n pos Hlen Hk.
  - simpl in *. subst n. by rewrite Nat.add_0_r in Hk.
  - simpl in *. subst n. simpl. rewrite Hx. apply IH; [done|].
    by replace (S pos + length u) with (pos + S (length u)) by lia.
Qed.

Lemma star_greedy_sound p k pos s res :
  star_greedy p k pos s = Some res →
  ∃ u rest, s = u ++ rest ∧ Forall (λ x, p x = true) u
            ∧ k (pos + length u) rest = Some res.
Proof.
  revert pos. induction s as [|x s' IH]; intros pos H; simpl in H.
  - exists [], []. rewrite Nat.add_0_r. auto.
  - destruct (p x) eqn:Hp.
    + destruct (star_greedy p k (S pos) s') eqn:Hrec.
      * inversion H; subst. apply IH in Hrec as (u & rest & -> & Hu & Hk).
        exists (x :: u), rest. repeat split; auto.
        simpl. by replace (pos + S (length u)) with (S pos + length u) by lia.
      * exists [], (x :: s'). rewrite Nat.add_0_r. auto.
    + exists [], (x :: s'). rewrite Nat.add_0_r. auto.
Qed.

Lemma star_greedy_complete p k pos u rest :
  Forall (λ x, p x = true) u →
  is_Some (k (pos + length u) rest) → is_Some (star_greedy p k pos (u ++ rest)).
Proof.
  intros Hu. revert pos. induction Hu as [|x u Hx Hu IH]; intros pos Hk.
  - simpl in *. rewrite Nat.add_0_r in Hk.
    destruct rest as [|y rest]; simpl; [done|].
    destruct (p y); [|done]. by destruct (star_greedy p k (S pos) rest).
  - simpl. rewrite Hx.
    assert (is_Some (star_greedy p k (S pos) (u ++ rest))) as [r ->]; [|done].
    apply IH. simpl in Hk. by replace (S pos + length u) with (pos + S (length u)) by lia.
Qed.

Lemma star_lazy_sound p k pos s res :
  star_lazy p k pos s = Some res →
  ∃ u rest, s = u ++ rest ∧ Forall (λ x, p x = true) u
            ∧ k (pos + length u) rest = Some res.
Proof.
  revert pos. induction s as [|x s' IH]; intros pos H; simpl in H.
  - destruct (k pos []) eqn:Hk; [|done]. inversion H; subst.
    exists [], []. rewrite Nat.add_0_r. auto.
  - destruct (k pos (x :: s')) eqn:Hk.
    + inversion H; subst. exists [], (x :: s'). rewrite Nat.add_0_r. auto.
    + destruct (p x) eqn:Hp; [|done].
      apply IH in H as (u & rest & -> & Hu & Hk').
      exists (x :: u), rest. repeat split; auto.
      simpl. by replace (pos + S (length u)) with (S pos + length u) by lia.
Qed.

Lemma star_lazy_complete p k pos u rest :
  Forall (λ x, p x = true) u →
  is_Some (k (pos + length u) rest) → is_Some (star_lazy p k pos (u ++ rest)).
Proof.
  intros Hu. revert pos. induction Hu as [|x u Hx Hu IH]; intros pos Hk.
  - simpl in *. rewrite Nat.add_0_r in Hk. destruct Hk as [r Hk].
    destruct rest; simpl; by rewrite Hk.
  - simpl. destruct (k pos (x :: u ++ rest)); [done|]. rewrite Hx.
    apply IH. simpl in Hk. by replace (S pos + length u) with (pos + S (length u)) by lia.
Qed.

Lemma rmatch_sound r (k : nat → str → captures → option R) pos s c res :
  rmatch U fl r k pos s c = Some res →
  ∃ u rest c', s = u ++ rest ∧ derives U fl r pos u rest c c'
               ∧ k (pos + length u) rest c' = Some res.
Proof.
  revert k pos s c. induction r as [|cl|r1 IH1 r2 IH2|g n cl|r IH|name r IH| |];
    intros k pos s c H; simpl in H.
  - exists [], s, c. rewrite Nat.add_0_r. simpl. auto.
  - destruct s as [|x s']; [done|]. destruct (cmatch U fl cl x) eqn:Hx; [|done].
    exists [x], s', c. simpl. rewrite Nat.add_1_r. eauto 6.
  - apply IH1 in H as (u1 & rest1 & c1 & -> & H1 & H).
    apply IH2 in H as (u2 & rest & c' & -> & H2 & H).
    exists (u1 ++ u2), rest, c'. rewrite <-(assoc_L (++)), length_app, Nat.add_assoc.
    split; [done|]. split; [|done]. simpl. eauto 8.
  - apply need_sound in H as (u1 & rest1 & -> & Hu1 & Hlen & H).
    assert (∃ u2 rest, rest1 = u2 ++ rest ∧ Forall (λ x, cmatch U fl cl x = true) u2
              ∧ k (pos + n + length u2) rest c = Some res) as (u2 & rest & -> & Hu2 & Hk).
    { destruct g; [apply star_greedy_sound in H|apply star_lazy_sound in H];
        destruct H as (u2 & rest & ? & ? & ?); eauto. }
    exists (u1 ++ u2), rest, c. rewrite <-(assoc_L (++)), length_app, Nat.add_assoc, Hlen.
    split; [done|]. split; [|done]. simpl. rewrite length_app, Forall_app. auto with lia.
  - destruct (rmatch U fl r k pos s c) eqn:Hr.
    + inversion H; subst. apply IH in Hr as (u & rest & c' & -> & Hd & Hk).
      exists u, rest, c'. simpl. auto.
    + exists [], s, c. rewrite Nat.add_0_r. simpl. auto.
  - apply IH in H as (u & rest & c' & -> & Hd & Hk).
    exists u, rest, (<[name := (pos, pos + length u)]> c'). simpl. eauto.
  - destruct (decide (pos = 0)); [|done].
    exists [], s, c. rewrite Nat.add_0_r. simpl. auto.
  - case_bool_decide; [|done].
    exists [], s, c. rewrite Nat.add_0_r. simpl. auto.
Qed.

Lemma rmatch_complete r (k : nat → str → captures → option R) pos u rest c c' :
  derives U fl r pos u rest c c' →
  is_Some (k (pos + length u) rest c') → is_Some (rmatch U fl r k pos (u ++ rest) c).
Proof.
  revert k pos u rest c c'.
  induction r as [|cl|r1 IH1 r2 IH2|g n cl|r IH|name r IH| |];
    intros k pos u rest c c' Hd Hk; simpl in Hd |- *.
  - destruct Hd as [-> ->]. by rewrite Nat.add_0_r in Hk.
  - destruct Hd as (x & -> & Hx & ->). simpl. rewrite Hx.
    by rewrite Nat.add_1_r in Hk.
  - destruct Hd as (u1 & u2 & c1 & -> & H1 & H2).
    rewrite <-(assoc_L (++)). eapply IH1; [done|].
    eapply IH2; [done|]. by rewrite length_app, Nat.add_assoc in Hk.
  - destruct Hd as (Hu & Hlen & ->).
    rewrite <-(take_drop n u), <-(assoc_L (++)).
    rewrite <-(take_drop n u), Forall_app in Hu. destruct Hu as [Hu1 Hu2].
    assert (length (take n u) = n) as Hn by (rewrite length_take; lia).
    apply need_complete; [done..|].
    assert (is_Some (k (pos + n + length (drop n u)) rest c)) as Hk'.
    { rewrite length_drop. by replace (pos + n + (length u - n)) with (pos + length u) by lia. }
    destruct g; [by apply star_greedy_complete|by apply star_lazy_complete].
  - destruct Hd as [[-> ->]|Hd].
    + rewrite Nat.add_0_r in Hk. simpl. by destruct (rmatch U fl r k pos rest c).
    + assert (is_Some (rmatch U fl r k pos (u ++ rest) c)) as [res ->]; [|done].
      by eapply IH.
  - destruct Hd as (c1 & Hd & ->). by eapply (IH (λ pos' s' caps', k pos' s' (<[name:=(pos, pos')]> caps'))).
  - destruct Hd as (-> & -> & ->). simpl. by rewrite Nat.add_0_r in Hk.
  - destruct Hd as (-> & Hrest & ->). simpl. rewrite bool_decide_eq_true_2 by done.
    by rewrite Nat.add_0_r in Hk.
Qed.


End MatcherFacts.

(** ** Strings *)

Lemma lstrip_nonspace x s : unicode_space x = false → lstrip (x :: s) = x :: s.
Proof. intros H. simpl. by rewrite H. Qed.

Lemma lstrip_app_nonspace a x b :
  unicode_space x = false → lstrip (a ++ x :: b) = lstrip a ++ x :: b.
Proof.
  intros Hx. induction a as [|y a IH]; simpl.
  - by rewrite Hx.
  - by destruct (unicode_space y).
Qed.

Lemma rstrip_app_nonspace a x b :
  unicode_space x = false → rstrip (a ++ x :: b) = a ++ x :: rstrip b.
Proof.
  intros Hx. unfold rstrip.
  rewrite reverse_app, reverse_cons, <-(assoc_L (++)). simpl.
  rewrite lstrip_app_nonspace by done.
  by rewrite reverse_app, reverse_cons, reverse_involutive, <-(assoc_L (++)).
Qed.


Lemma lstrip_suffix s : ∃ w, s = w ++ lstrip s ∧ Forall (λ x, unicode_space x = true) w.
Proof.
  induction s as [|x s (w & IH & Hw)]; [by exists []|]. simpl.
  destruct (unicode_space x) eqn:Hx.
  - exists (x :: w). split; [by rewrite IH at 1|]. by constructor.
  - by exists [].
Qed.

Lemma rstrip_prefix s : ∃ w, s = rstrip s ++ w ∧ Forall (λ x, unicode_space x = true) w.
Proof.
  unfold rstrip. destruct (lstrip_suffix (reverse s)) as (w & Hs & Hw).
  exists (reverse w). split; [|by apply Forall_reverse].
  by rewrite <-reverse_app, <-Hs, reverse_involutive.
Qed.

Lemma strip_infix s :
  ∃ w1 w2, s = w1 ++ strip s ++ w2
    ∧ Forall (λ x, unicode_space x = true) w1 ∧ Forall (λ x, unicode_space x = true) w2.
Proof.
  unfold strip. destruct (lstrip_suffix s) as (w1 & H1 & Hw1).
  destruct (rstrip_prefix (lstrip s)) as (w2 & H2 & Hw2).
  exists w1, w2. split; [|done]. by rewrite <-H2.
Qed.

Lemma lstrip_head s x t : lstrip s = x :: t → unicode_space x = false.
Proof.
  induction s as [|y s IH]; [done|]. simpl.
  destruct (unicode_space y) eqn:Hy; [done|]. by intros [= <- _].
Qed.

Lemma rstrip_last s a x : rstrip s = a ++ [x] → unicode_space x = false.
Proof.
  unfold rstrip. intros H. apply (f_equal reverse) in H.
  rewrite reverse_involutive, reverse_app in H. by apply lstrip_head in H.
Qed.

(** A run of characters satisfying [P] that is followed by the end or by
    a character that does not satisfy [P] is determined by the string. *)
Lemma span_unique (P : char → bool) a b a' b' :
  Forall (λ x, P x = true) a → Forall (λ x, P x = true) a' →
  stops P b → stops P b' → a ++ b = a' ++ b' → a = a' ∧ b = b'.
Proof.
  intros Ha. revert a'. induction Ha as [|x a Hx Ha IH]; intros a' Ha' Hb Hb' Heq.
  - destruct Ha' as [|y a' Hy Ha']; [done|]. simpl in Heq. subst b. simpl in Hb. congruence.
  - destruct Ha' as [|y a' Hy Ha'].
    + simpl in Heq. subst b'. simpl in Hb'. congruence.
    + simpl in Heq. injection Heq as -> Heq. destruct (IH a' Ha' Hb Hb' Heq) as [-> ->]. done.
Qed.

(** Two ways of cutting one string. *)
Lemma app_eq_cases {A} (l1 l2 a b : list A) :
  l1 ++ l2 = a ++ b →
  (∃ m, l1 = a ++ m ∧ b = m ++ l2) ∨ (∃ m, a = l1 ++ m ∧ l2 = m ++ b).
Proof.
  revert a. induction l1 as [|x l1 IH]; intros a H.
  - right. exists a. by simpl in *.
  - destruct a as [|y a].
    + left. exists (x :: l1). by simpl in *.
    + simpl in H. injection H as -> H.
      destruct (IH _ H) as [(m & -> & ->)|(m & -> & ->)]; [left|right]; by exists m.
Qed.

(** An occurrence of [x] that is not in [a] lies in what follows [a]. *)
Lemma locate_skip {A} (x : A) l1 l2 a b :
  x ∉ a → l1 ++ x :: l2 = a ++ b → ∃ m, l1 = a ++ m ∧ b = m ++ x :: l2.
Proof.
  intros Hx H. apply app_eq_cases in H as [(m & -> & ->)|(m & -> & H)]; [by exists m|].
  destruct m as [|y m]; simplify_eq/=.
  - exists []. by rewrite !app_nil_r.
  - exfalso. apply Hx, elem_of_app. right. by left.
Qed.

(** The first [x] of one cut cannot come before the first [y] of another
    and after it at once. *)
Lemma first_clash {A} (x y : A) a b a' b' :
  x ≠ y → x ∉ a' → y ∉ a → a ++ x :: b = a' ++ y :: b' → False.
Proof.
  intros Hxy Hx Hy H. apply app_eq_cases in H as [(m & -> & H)|(m & -> & H)].
  - destruct m as [|z m]; simplify_eq/=.
    apply Hy, elem_of_app. right. by left.
  - destruct m as [|z m]; simplify_eq/=.
    apply Hx, elem_of_app. right. by left.
Qed.

(** The same first occurrence of [x] gives the same cut. *)
Lemma first_same {A} (x : A) a b a' b' :
  x ∉ a → x ∉ a' → a ++ x :: b = a' ++ x :: b' → a = a' ∧ b = b'.
Proof.
  intros Hx Hx' H. apply app_eq_cases in H as [(m & -> & H)|(m & -> & H)].
  - destruct m as [|z m]; simplify_eq/=.
    + by rewrite app_nil_r.
    + exfalso. apply Hx, elem_of_app. right. by left.
  - destruct m as [|z m]; simplify_eq/=.
    + by rewrite app_nil_r.
    + exfalso. apply Hx', elem_of_app. right. by left.
Qed.

(** White space, a run without line break, white space: such a string
    has no line break between two characters that are not white. *)
Lemma no_break_inside (w1 body w2 X m : str) (x y : char) :
  Forall (λ c, unicode_space c = true) w1 → NL ∉ body →
  Forall (λ c, unicode_space c = true) w2 →
  x ∈ X → unicode_space x = false → unicode_space y = false →
  w1 ++ body ++ w2 = X ++ NL :: y :: m → False.
Proof.
  intros Hw1 Hbody Hw2 HxX Hx Hy H.
  assert (∀ w, Forall (λ c, unicode_space c = true) w → x ∉ w) as Hxw.
  { intros w Hw Hin. rewrite Forall_forall in Hw. apply Hw in Hin. congruence. }
  assert (∀ w, Forall (λ c, unicode_space c = true) w → y ∉ w) as Hyw.
  { intros w Hw Hin. rewrite Forall_forall in Hw. apply Hw in Hin. congruence. }
  apply app_eq_cases in H as [(m1 & -> & H)|(m1 & -> & H)].
  - (* X ends inside w1 *)
    apply (Hxw _ Hw1). apply elem_of_app. by left.
  - (* w1 is a prefix of X *)
    apply elem_of_app in HxX as [HxX|HxX]; [by apply (Hxw _ Hw1)|].
    change (m1 ++ NL :: y :: m) with (m1 ++ [NL] ++ y :: m) in H.
    rewrite (assoc_L (++) m1) in H.
    apply app_eq_cases in H as [(m2 & -> & H)|(m2 & Hm2 & ->)].
    + apply Hbody. apply elem_of_app. left. apply elem_of_app. right. by left.
    + apply (Hyw _ Hw2). apply elem_of_app. right. by left.
Qed.

Lemma slice_app (a b c : str) :
  slice (a ++ b ++ c) (length a) (length a + length b) = b.
Proof.
  unfold slice. rewrite drop_app_length.
  replace (length a + length b - length a) with (length b) by lia.
  by rewrite take_app_length.
Qed.

(** ** Matches *)

Section MatchFacts.
Variable U : runtime.
Variable fl : flags.

Lemma match_at_sound r pos s m :
  match_at U fl r pos s = Some m →
  ∃ u rest, s = u ++ rest ∧ derives U fl r pos u rest ∅ (m_groups m)
            ∧ m_start m = pos ∧ m_end m = pos + length u.
Proof.
  unfold match_at. intros H. apply rmatch_sound in H as (u & rest & c' & -> & Hd & Hk).
  inversion Hk; subst. simpl. eauto 6.
Qed.

Lemma match_at_complete r pos u rest c' :
  derives U fl r pos u rest ∅ c' → is_Some (match_at U fl r pos (u ++ rest)).
Proof. intros Hd. unfold match_at. eapply rmatch_complete; [done|]. by eexists. Qed.

Lemma derives_shift r pos u rest c c' pos' rest' c0 :
  anchor_free r = true → derives U fl r pos u rest c c' →
  ∃ c0', derives U fl r pos' u rest' c0 c0'.
Proof.
  revert pos u rest c c' pos' rest' c0.
  induction r as [|cl|r1 IH1 r2 IH2|g n cl|r IH|name r IH| |];
    intros pos u rest c c' pos' rest' c0 Haf Hd; cbn [derives anchor_free] in *; try done.
  - destruct Hd as [-> _]. eauto.
  - destruct Hd as (x & -> & Hx & _). eauto 6.
  - apply andb_true_iff in Haf as [Haf1 Haf2].
    destruct Hd as (u1 & u2 & c1 & -> & H1 & H2).
    eapply (IH1 _ _ _ _ _ pos' (u2 ++ rest') c0) in H1 as [c1' H1]; [|done].
    eapply (IH2 _ _ _ _ _ (pos' + length u1) rest' c1') in H2 as [c2' H2]; [|done].
    eauto 10.
  - destruct Hd as (Hu & Hlen & _). eauto.
  - destruct Hd as [[-> _]|Hd]; [eauto|].
    eapply IH in Hd as [c0' Hd]; eauto.
  - destruct Hd as (c1 & Hd & _). eapply IH in Hd as [c0' Hd]; eauto.
Qed.

Lemma derives_rejects r x pos u rest c c' :
  rejects U fl x r = true → derives U fl r pos u rest c c' → x ∉ u.
Proof.
  revert pos u rest c c'.
  induction r as [|cl|r1 IH1 r2 IH2|g n cl|r IH|name r IH| |];
    intros pos u rest c c' Hr Hd; cbn [derives rejects] in *.
  - destruct Hd as [-> _]. by apply not_elem_of_nil.
  - destruct Hd as (y & -> & Hy & _). intros ->%list_elem_of_singleton.
    by rewrite Hy in Hr.
  - apply andb_true_iff in Hr as [Hr1 Hr2].
    destruct Hd as (u1 & u2 & c1 & -> & H1 & H2).
    rewrite elem_of_app. intros [Hin|Hin]; [by eapply IH1|by eapply IH2].
  - destruct Hd as (Hu & _). intros Hin. rewrite Forall_forall in Hu.
    apply Hu in Hin. by rewrite Hin in Hr.
  - destruct Hd as [[-> _]|Hd]; [by apply not_elem_of_nil|by eapply IH].
  - destruct Hd as (c1 & Hd & _). by eapply IH.
  - destruct Hd as [-> _]. by apply not_elem_of_nil.
  - destruct Hd as [-> _]. by apply not_elem_of_nil.
Qed.

Lemma derives_other_names r pos u rest c c' name :
  derives U fl r pos u rest c c' → name ∉ group_names r → c' !! name = c !! name.
Proof.
  revert pos u rest c c'.
  induction r as [|cl|r1 IH1 r2 IH2|g n cl|r IH|nm r IH| |];
    intros pos u rest c c' Hd Hn; cbn [derives group_names] in *.
  - by destruct Hd as [_ ->].
  - by destruct Hd as (? & _ & _ & ->).
  - destruct Hd as (u1 & u2 & c1 & -> & H1 & H2).
    rewrite elem_of_app in Hn.
    erewrite IH2; [|done|]; [eapply IH1; [done|]|]; tauto.
  - by destruct Hd as (_ & _ & ->).
  - destruct Hd as [[_ ->]|Hd]; [done|by eapply IH].
  - destruct Hd as (c1 & Hd & ->). rewrite not_elem_of_cons in Hn.
    destruct Hn as [Hne Hn]. rewrite lookup_insert_ne by done. by eapply IH.
  - by destruct Hd as (_ & _ & ->).
  - by destruct Hd as (_ & _ & ->).
Qed.

Lemma lang_rejects r x u : rejects U fl x r = true → lang U fl r u → x ∉ u.
Proof. intros Hr (pos & rest & c & c' & Hd). by eapply derives_rejects. Qed.

(** For a pattern without anchors, whether a match starts at the head of
    [s] depends neither on the offset nor on what follows the match. *)
Lemma match_at_lang r pos s :
  anchor_free r = true →
  is_Some (match_at U fl r pos s) ↔ ∃ u rest, s = u ++ rest ∧ lang U fl r u.
Proof.
  intros Haf. split.
  - intros [m Hm]. apply match_at_sound in Hm as (u & rest & -> & Hd & _).
    exists u, rest. split; [done|]. by exists pos, rest, ∅, (m_groups m).
  - intros (u & rest & -> & pos0 & rest0 & c & c' & Hd).
    eapply (derives_shift _ _ _ _ _ _ pos rest ∅) in Hd as [c0' Hd]; [|done].
    by eapply match_at_complete.
Qed.

Lemma match_at_None_shift r pos pos' s :
  anchor_free r = true → match_at U fl r pos s = None → match_at U fl r pos' s = None.
Proof.
  intros Haf Hnone. apply eq_None_not_Some. intros Hsome.
  apply (match_at_lang r pos' s Haf) in Hsome.
  apply (match_at_lang r pos s Haf) in Hsome. rewrite Hnone in Hsome. by destruct Hsome.
Qed.

(** *** What [finditer] returns *)

Lemma finditer_from_nil r pos s skip :
  finditer_from U fl r pos s skip = [] ↔
  ∀ k, skip ≤ k ≤ length s → match_at U fl r (pos + k) (drop k s) = None.
Proof.
  revert pos skip. induction s as [|x s IH]; intros pos skip.
  - destruct skip as [|n]; simpl.
    + destruct (match_at U fl r pos []) eqn:Hm.
      * split; [done|]. intros H. specialize (H 0 ltac:(lia)).
        rewrite Nat.add_0_r in H. simpl in H. congruence.
      * split; [|done]. intros _ k Hk. replace k with 0 by lia.
        by rewrite Nat.add_0_r.
    + split; [|done]. intros _ k Hk. lia.
  - destruct skip as [|n]; cbn [finditer_from].
    + destruct (match_at U fl r pos (x :: s)) eqn:Hm.
      * split; [done|]. intros H. specialize (H 0 ltac:(lia)).
        rewrite Nat.add_0_r in H. simpl in H. congruence.
      * rewrite IH. split.
        -- intros H k Hk. destruct k as [|k]; [by rewrite Nat.add_0_r|].
           specialize (H k ltac:(simpl in Hk; lia)).
           by replace (pos + S k) with (S pos + k) by lia.
        -- intros H k Hk. specialize (H (S k) ltac:(simpl; lia)).
           by replace (pos + S k) with (S pos + k) in H by lia.
    + rewrite IH. split.
      * intros H k Hk. destruct k as [|k]; [lia|].
        specialize (H k ltac:(simpl in Hk; lia)).
        by replace (pos + S k) with (S pos + k) by lia.
      * intros H k Hk. specialize (H (S k) ltac:(simpl; lia)).
        by replace (pos + S k) with (S pos + k) in H by lia.
Qed.

Lemma finditer_from_single r pos s skip m :
  finditer_from U fl r pos s skip = [m] →
  ∃ k, skip ≤ k ≤ length s
    ∧ match_at U fl r (pos + k) (drop k s) = Some m
    ∧ (∀ j, skip ≤ j < k → match_at U fl r (pos + j) (drop j s) = None)
    ∧ (∀ j, k < j ≤ length s → m_end m ≤ pos + j →
         match_at U fl r (pos + j) (drop j s) = None).
Proof.
  revert pos skip. induction s as [|x s IH]; intros pos skip.
  - destruct skip as [|n]; simpl; [|done].
    destruct (match_at U fl r pos []) eqn:Hm; [|done].
    intros [= ->]. exists 0. rewrite Nat.add_0_r. simpl.
    split; [lia|]. split; [done|]. split; intros; lia.
  - destruct skip as [|n]; cbn [finditer_from].
    + destruct (match_at U fl r pos (x :: s)) eqn:Hm.
      * intros [= -> Hrest]. exists 0. rewrite Nat.add_0_r. cbn [drop].
        split; [simpl; lia|]. split; [done|]. split; [intros; lia|].
        intros j Hj Hend. destruct j as [|j]; [lia|].
        rewrite finditer_from_nil in Hrest.
        specialize (Hrest j ltac:(simpl in Hj; lia)).
        by replace (pos + S j) with (S pos + j) by lia.
      * intros H. apply IH in H as (k & Hk & Hmk & Hbefore & Hafter).
        exists (S k). replace (pos + S k) with (S pos + k) by lia.
        split; [simpl; lia|]. split; [done|]. split.
        -- intros j Hj. destruct j as [|j]; [by rewrite Nat.add_0_r|].
           replace (pos + S j) with (S pos + j) by lia. apply Hbefore. lia.
        -- intros j Hj Hend. destruct j as [|j]; [lia|].
           replace (pos + S j) with (S pos + j) by lia.
           apply Hafter; [simpl in Hj|]; lia.
    + intros H. apply IH in H as (k & Hk & Hmk & Hbefore & Hafter).
      exists (S k). replace (pos + S k) with (S pos + k) by lia.
      split; [simpl; lia|]. split; [done|]. split.
      * intros j Hj. destruct j as [|j]; [lia|].
        replace (pos + S j) with (S pos + j) by lia. apply Hbefore. lia.
      * intros j Hj Hend. destruct j as [|j]; [lia|].
        replace (pos + S j) with (S pos + j) by lia.
        apply Hafter; [simpl in Hj|]; lia.
Qed.

End MatchFacts.

(** ** The identifier deriver *)

(** Concatenations up to bracketing. *)
Ltac norm_app := repeat first [ rewrite <-!(assoc_L (++)) | progress cbn [app] ].
Ltac by_assoc := norm_app; reflexivity.

(** [x] is not in a string written out in full. *)
Ltac not_in_literal := apply (bool_decide_unpack _); vm_compute; exact I.

(** Where an element of a concatenation lies. *)
Ltac mem_cases H :=
  repeat first [ apply elem_of_app in H as [H|H]
               | apply elem_of_cons in H as [H|H]
               | apply elem_of_nil in H; destruct H ].

(** Unpacking of a derivation of a concrete pattern. *)
Ltac unpack :=
  repeat match goal with
         | H : ∃ _, _ |- _ => destruct H as [? H]
         | H : _ ∧ _ |- _ => destruct H as [? ?]
         end.

Section Urn.
Variable U : runtime.

Lemma urn_class_alnum x :
  cmatch U URN_FLAGS
    (OneOf [Range (ch "A") (ch "Z"); Range (ch "a") (ch "z"); Range (ch "0") (ch "9")]) x
  = ascii_alnum x.
Proof.
  unfold cmatch, ascii_alnum, ascii_upper, ascii_lower, ascii_digit. simpl.
  by rewrite orb_false_r, orb_assoc.
Qed.

Lemma urn_class_digit x : cmatch U URN_FLAGS (OneOf [CatDigit]) x = ascii_digit x.
Proof.
  unfold cmatch, is_digit. simpl. rewrite orb_false_r. unfold is_digit. simpl.
  destruct (x <? 128)%N eqn:Hx; [done|].
  unfold ascii_digit, in_range. apply N.ltb_ge in Hx.
  symmetry. apply andb_false_iff. right. apply N.leb_gt. lia.
Qed.

Lemma class_lit_off c x : cmatch U URN_FLAGS (OneOf [Lit c]) x = (x =? c)%N.
Proof. unfold cmatch. simpl. by rewrite orb_false_r. Qed.

Lemma urn_suffix_derives pos suffix c :
  (suffix = [] ∨ ∃ t, suffix = ch "_" :: t ∧ NL ∉ t) →
  derives U URN_FLAGS (Opt (chr "_" ⋅ Rep true 0 AnyChar)) pos suffix [] c c.
Proof.
  intros [->|(t & -> & Ht)]; [by left|]. right.
  eexists [ch "_"], t, _. split; [done|]. split.
  { exists (ch "_"). split; [done|]. split; [|done]. by rewrite class_lit_off. }
  split; [|split; [lia|done]].
  apply Forall_forall. intros x Hx. unfold cmatch. apply negb_true_iff, N.eqb_neq.
  intros ->. done.
Qed.

Lemma urn_derives P N suffix c :
  well_formed P N suffix →
  derives U URN_FLAGS URN_FROM_IA_RE 0 (P ++ ch "_" :: N ++ suffix) [] c
    (<["number" := (S (length P), S (length P) + length N)]>
       (<["prefix" := (0, length P)]> c)).
Proof.
  intros (HP0 & HP & HN0 & HN & Hsuf).
  unfold URN_FROM_IA_RE.
  eexists [], (P ++ ch "_" :: N ++ suffix), c. split; [done|]. split; [done|].
  eexists P, (ch "_" :: N ++ suffix), _. split; [done|]. split.
  { eexists. split; [|done]. split; [|split; [|done]].
    - eapply Forall_impl; [exact HP|]. intros x Hx. by rewrite urn_class_alnum.
    - destruct P; [done|simpl; lia]. }
  eexists [ch "_"], (N ++ suffix), _. split; [done|]. split.
  { exists (ch "_"). split; [done|]. split; [|done]. by rewrite class_lit_off. }
  eexists N, suffix, _. split; [done|]. split.
  { eexists. split; [|done]. split; [|split; [|done]].
    - eapply Forall_impl; [exact HN|]. intros x Hx. by rewrite urn_class_digit.
    - destruct N; [done|simpl; lia]. }
  eexists suffix, [], _. split; [by rewrite app_nil_r|].
  split; [by apply urn_suffix_derives|].
  simpl. split; [done|]. split; [auto|]. by rewrite !Nat.add_1_r.
Qed.

Lemma urn_invert pos u rest c c' :
  derives U URN_FLAGS URN_FROM_IA_RE pos u rest c c' →
  ∃ P N suffix, u = P ++ ch "_" :: N ++ suffix ∧ well_formed P N suffix
    ∧ (rest = [] ∨ rest = [NL])
    ∧ c' !! "prefix" = Some (0, length P)
    ∧ c' !! "number" = Some (S (length P), S (length P) + length N).
Proof.
  unfold URN_FROM_IA_RE. cbn [derives chr].
  intros (u1 & u2 & c1 & -> & (-> & -> & ->) & H).
  destruct H as (P & u3 & c2 & -> & (c3 & (HP & HPlen & ->) & ->) & H).
  destruct H as (us & u4 & c4 & -> & (x & -> & Hx & ->) & H).
  destruct H as (N & u5 & c5 & -> & (c6 & (HN & HNlen & ->) & ->) & H).
  destruct H as (suffix & u6 & c7 & -> & Hopt & (-> & Hrest & ->)).
  rewrite class_lit_off in Hx. apply N.eqb_eq in Hx as ->.
  exists P, N, suffix. cbn [length app] in *. rewrite app_nil_r.
  assert (c7 = <["number":=(S (length P), S (length P) + length N)]>
                 (<["prefix":=(0, length P)]> c)
          ∧ (suffix = [] ∨ ∃ t, suffix = ch "_" :: t ∧ NL ∉ t)) as [-> Hsuf].
  { rewrite !Nat.add_0_l, !Nat.add_1_r in Hopt.
    destruct Hopt as [[-> ->]|Hopt]; [by auto|].
    destruct Hopt as (us & t & c8 & -> & (x & -> & Hx & ->) & (Ht & _ & ->)).
    split; [done|]. right.
    rewrite class_lit_off in Hx. apply N.eqb_eq in Hx as ->.
    exists t. split; [done|]. intros Hin.
    rewrite Forall_forall in Ht. apply Ht in Hin.
    unfold cmatch in Hin. by rewrite N.eqb_refl in Hin. }
  split; [done|]. split; [|split; [done|split]].
  2: { rewrite lookup_insert_ne by done. by rewrite lookup_insert_eq. }
  2: { by rewrite lookup_insert_eq. }
  split; [by intros ->; simpl in *; lia|].
  split; [eapply Forall_impl; [exact HP|]; intros x Hx; by rewrite <-urn_class_alnum|].
  split; [by intros ->; simpl in *; lia|].
  split; [eapply Forall_impl; [exact HN|]; intros x Hx; by rewrite <-urn_class_digit|].
  done.
Qed.

Lemma urn_shape_match s :
  urn_shape s → is_Some (re_match U URN_FLAGS URN_FROM_IA_RE s).
Proof.
  intros (P & N & suffix & -> & Hwf). unfold re_match.
  rewrite <-(app_nil_r (P ++ _)). eapply match_at_complete. by apply urn_derives.
Qed.

Lemma alnum_not_space x : ascii_alnum x = true → unicode_space x = false.
Proof.
  unfold ascii_alnum, ascii_upper, ascii_lower, ascii_digit, unicode_space, in_range.
  intros H. repeat (apply orb_true_iff in H as [H|H]);
    apply andb_true_iff in H as [H1 H2]; apply N.leb_le in H1, H2;
    repeat (apply orb_false_iff; split);
    first [apply andb_false_iff; (left; apply N.leb_gt; lia) || (right; apply N.leb_gt; lia)
          | apply N.eqb_neq; lia].
Qed.

Lemma digit_alnum x : ascii_digit x = true → ascii_alnum x = true.
Proof. unfold ascii_alnum. intros ->. by rewrite orb_true_r. Qed.

Lemma underscore_not_alnum : ascii_alnum (ch "_") = false.
Proof. done. Qed.

Lemma underscore_not_digit : ascii_digit (ch "_") = false.
Proof. done. Qed.

(** Stripping a well-formed identifier keeps it well-formed, with the
    same prefix and number. *)
Lemma strip_well_formed P N suffix :
  well_formed P N suffix →
  ∃ suffix', strip (P ++ ch "_" :: N ++ suffix) = P ++ ch "_" :: N ++ suffix'
             ∧ well_formed P N suffix'.
Proof.
  intros (HP0 & HP & HN0 & HN & Hsuf). unfold strip.
  destruct P as [|p P]; [done|]. inversion HP as [|? ? Hp HP']; subst.
  cbn [app]. rewrite lstrip_nonspace by by apply alnum_not_space.
  destruct Hsuf as [->|(t & -> & Ht)].
  - exists []. split; [|by repeat split; auto].
    rewrite app_nil_r.
    destruct (exists_last HN0) as (N' & d & ->).
    apply Forall_app in HN as [_ Hd]. inversion Hd; subst.
    replace (p :: P ++ ch "_" :: N' ++ [d]) with ((p :: P ++ ch "_" :: N') ++ d :: [])
      by by rewrite <-!app_comm_cons, <-(assoc_L (++)).
    rewrite rstrip_app_nonspace by by apply alnum_not_space, digit_alnum.
    done.
  - exists (ch "_" :: rstrip t). split.
    + replace (p :: P ++ ch "_" :: N ++ ch "_" :: t)
        with ((p :: P ++ ch "_" :: N) ++ ch "_" :: t)
        by by rewrite <-!app_comm_cons, <-(assoc_L (++)).
      rewrite rstrip_app_nonspace by done.
      by rewrite <-!app_comm_cons, <-(assoc_L (++)).
    + repeat split; auto. right. eexists. split; [done|].
      destruct (rstrip_prefix t) as (w & Hw & _). intros Hin. apply Ht.
      rewrite Hw. apply elem_of_app. by left.
Qed.

(** What a successful derivation returns. *)
Lemma derive_delpher_urn_Return ia_id urn :
  derive_delpher_urn U ia_id = Return urn →
  ∃ P N suffix rest, well_formed P N suffix ∧ urn = P ++ py ":" ++ N
    ∧ strip ia_id = (P ++ ch "_" :: N ++ suffix) ++ rest.
Proof.
  unfold derive_delpher_urn. case_bool_decide; [done|]. cbn zeta.
  destruct (re_match _ _ _ _) as [m|] eqn:Hm; [|done].
  apply match_at_sound in Hm as (u & rest & Hs & Hd & _ & _).
  apply urn_invert in Hd as (P & N & suffix & -> & Hwf & _ & Hp & Hn).
  intros [= <-]. exists P, N, suffix, rest. split; [done|]. split; [|done].
  unfold group. rewrite Hp, Hn. cbn [fmap option_fmap option_map fmt_group default fst snd].
  rewrite Hs. f_equal; [|f_equal].
  - rewrite <-!(assoc_L (++)). apply (slice_app [] P).
  - replace ((P ++ ch "_" :: N ++ suffix) ++ rest)
      with ((P ++ [ch "_"]) ++ N ++ suffix ++ rest)
      by (rewrite <-!(assoc_L (++)); cbn [app]; by rewrite <-!(assoc_L (++))).
    replace (S (length P)) with (length (P ++ [ch "_"])) by (rewrite length_app; simpl; lia).
    apply slice_app.
Qed.

Lemma derive_delpher_urn_no_bar ia_id urn :
  derive_delpher_urn U ia_id = Return urn → (ch "|") ∉ urn.
Proof.
  intros (P & N & suffix & rest & (_ & HP & _ & HN & _) & -> & _)%derive_delpher_urn_Return.
  rewrite Forall_forall in HP, HN.
  rewrite !elem_of_app. intros [Hin|[Hin|Hin]].
  - by apply HP in Hin.
  - by apply list_elem_of_singleton in Hin.
  - by apply HN in Hin.
Qed.

(** C4: for every well-formed archive identifier, of the form
    PREFIX "_" NUMBER followed by nothing or by an underscore and any text
    without a line break, with PREFIX a non-empty run of ASCII letters and
    digits and NUMBER a non-empty run of ASCII digits, [derive_delpher_urn]
    returns PREFIX ":" NUMBER, every digit of NUMBER kept (leading zeros
    included); the result is a function of the identifier alone, and the
    identifier ddd_010124175_mpeg21 gives ddd:010124175. *)
Theorem derive_delpher_urn_well_formed P N suffix :
  well_formed P N suffix →
  derive_delpher_urn U (P ++ ch "_" :: N ++ suffix) = Return (P ++ py ":" ++ N)
  ∧ derive_delpher_urn U (py "ddd_010124175_mpeg21") = Return (py "ddd:010124175").
Proof.
  intros Hwf. split; [|done].
  destruct (strip_well_formed _ _ _ Hwf) as (suffix' & Hstrip & Hwf').
  unfold derive_delpher_urn. rewrite Hstrip.
  rewrite bool_decide_eq_false_2 by (destruct Hwf as (? & _); by destruct P).
  destruct (urn_shape_match (P ++ ch "_" :: N ++ suffix')) as [m Hm].
  { by exists P, N, suffix'. }
  cbn zeta. rewrite Hm. unfold re_match in Hm.
  apply match_at_sound in Hm as (u & rest & Hs & Hd & _ & _).
  apply urn_invert in Hd as (P' & N' & suf' & -> & Hwf'' & Hrest & Hp & Hn).
  destruct Hwf' as (_ & HP & _ & HN & Hsuf).
  destruct Hwf'' as (_ & HP' & _ & HN' & Hsuf').
  rewrite <-(assoc_L (++)) in Hs. cbn [app] in Hs.
  apply (span_unique ascii_alnum) in Hs as [<- Hs]; [|done..].
  injection Hs as Hs. rewrite <-(assoc_L (++)) in Hs.
  apply (span_unique ascii_digit) in Hs as [<- Hs]; [|done|done|..].
  - unfold group. rewrite Hp, Hn. cbn [fmap option_fmap option_map fmt_group default fst snd].
    unfold slice. f_equal. f_equal; [|f_equal].
    + rewrite Nat.sub_0_r, drop_0. by rewrite take_app_length.
    + replace (S (length P) + length N - S (length P)) with (length N) by lia.
      replace (P ++ ch "_" :: N ++ suffix') with ((P ++ [ch "_"]) ++ N ++ suffix')
        by by rewrite <-(assoc_L (++)).
      rewrite drop_app_length'; [|rewrite length_app; simpl; lia].
      by rewrite take_app_length.
  - destruct Hsuf as [->|(? & -> & _)]; done.
  - destruct Hsuf' as [->|(? & -> & _)]; [|done].
    destruct Hrest as [->| ->]; done.
Qed.

(** C5, as the code has it: whenever the identifier, once surrounding
    white space is stripped, does not have the shape PREFIX "_" NUMBER
    with an optional underscore-led suffix, [derive_delpher_urn] stops with
    one of its two fatal messages; so it does on nodigits and on
    123_abc. *)
Theorem derive_delpher_urn_malformed ia_id :
  ¬ urn_shape (strip ia_id) →
  (∃ e, derive_delpher_urn U ia_id = Raise e ∧ MalformedIdentifier e)
  ∧ derive_delpher_urn U (py "nodigits") = Raise (SystemExit UrnInvalidIaId)
  ∧ derive_delpher_urn U (py "123_abc") = Raise (SystemExit UrnInvalidIaId).
Proof.
  intros Hshape. split; [|done].
  unfold derive_delpher_urn. case_bool_decide as Hnil.
  { eexists. split; [done|]. by left. }
  cbn zeta. destruct (re_match _ _ _ _) as [m|] eqn:Hm.
  2: { eexists. split; [done|]. by right. }
  exfalso. apply match_at_sound in Hm as (u & rest & Hs & Hd & _ & _).
  apply urn_invert in Hd as (P & N & suffix & -> & Hwf & [->| ->] & _).
  - rewrite app_nil_r in Hs. apply Hshape. rewrite Hs. by exists P, N, suffix.
  - unfold strip in Hs. by apply rstrip_last in Hs.
Qed.

End Urn.

(** ** The old block *)

Section OldBlock.
Variable U : runtime.

Lemma old_class_space x : cmatch U OLD_FLAGS (OneOf [CatSpace]) x = unicode_space x.
Proof. unfold cmatch. simpl. by rewrite orb_false_r. Qed.

Lemma old_class_lit c x : cmatch U OLD_FLAGS (OneOf [Lit c]) x = ci_eq c x.
Proof. unfold cmatch. simpl. by rewrite orb_false_r. Qed.

Lemma old_ws_star pos u rest c c' :
  derives U OLD_FLAGS ws_star pos u rest c c' ↔ spaces u ∧ c' = c.
Proof.
  unfold ws_star. cbn [derives]. unfold spaces. split.
  - intros (Hu & _ & ->). split; [|done].
    eapply Forall_impl; [exact Hu|]. intros x Hx. by rewrite <-old_class_space.
  - intros (Hu & ->). split; [|split; [lia|done]].
    eapply Forall_impl; [exact Hu|]. intros x Hx. by rewrite old_class_space.
Qed.

Lemma derives_lang fl r pos u rest c c' : derives U fl r pos u rest c c' → lang U fl r u.
Proof. intros H. by exists pos, rest, c, c'. Qed.

(** The pieces of a match of [OLD_BLOCK_RE], and the spans of its groups. *)
Lemma old_block_invert pos u rest c c' :
  derives U OLD_FLAGS OLD_BLOCK_RE pos u rest c c' →
  ∃ P O w I Cl w7 w8 PDF T,
    u = P ++ O ++ [ch "|"] ++ w ++ I ++ Cl ++ w7 ++ [ch ":"] ++ w8 ++ PDF ++ T
    ∧ lang U OLD_FLAGS OLD_PREFIX P
    ∧ lang U OLD_FLAGS OLD_LINK_OPEN O
    ∧ spaces w
    ∧ lang U OLD_FLAGS OLD_IAID I
    ∧ lang U OLD_FLAGS OLD_LINK_CLOSE Cl
    ∧ spaces w7 ∧ spaces w8
    ∧ lang U OLD_FLAGS PDF_URL PDF
    ∧ lang U OLD_FLAGS (ws_star ⋅ Opt (Chr (OneOf [Lit NL]))) T
    ∧ c' !! "prefix" = Some (pos, pos + length P)
    ∧ c' !! "iaid" = Some (pos + length (P ++ O ++ [ch "|"] ++ w),
                           pos + length (P ++ O ++ [ch "|"] ++ w) + length I)
    ∧ c' !! "pdf" =
        Some (pos + length (P ++ O ++ [ch "|"] ++ w ++ I ++ Cl ++ w7 ++ [ch ":"] ++ w8),
              pos + length (P ++ O ++ [ch "|"] ++ w ++ I ++ Cl ++ w7 ++ [ch ":"] ++ w8)
              + length PDF).
Proof.
  unfold OLD_BLOCK_RE. cbn [derives chr].
  intros (P & u1 & c1 & -> & (c0 & HP & Hc1) & H).
  destruct H as (O & u2 & c2 & -> & HO & H).
  destruct H as (b & u3 & c3 & -> & (x & -> & Hx & Hc3) & H).
  destruct H as (w & u4 & c4 & -> & Hw & H).
  destruct H as (I & u5 & c5 & -> & (c6 & HI & Hc5) & H).
  destruct H as (Cl & T0 & c7 & -> & HCl & H).
  unfold OLD_PDF_LINE in H.
  remember (ws_star ⋅ Opt (Chr (OneOf [Lit NL])))%re as tail eqn:Htail in H.
  cbn [derives chr] in H.
  destruct H as (w7 & u6 & c8 & -> & Hw7 & H).
  destruct H as (b2 & u7 & c9 & -> & (y & -> & Hy & Hc9) & H).
  destruct H as (w8 & u8 & c10 & -> & Hw8 & H).
  destruct H as (PDF & T & c11 & -> & (c12 & HPDF & Hc11) & HT).
  apply old_ws_star in Hw as [Hw Hc4], Hw7 as [Hw7 Hc8], Hw8 as [Hw8 Hc10].
  rewrite old_class_lit in Hx, Hy.
  assert (x = ch "|") as ->.
  { unfold ci_eq in Hx. vm_compute swapcase in Hx.
    repeat (apply orb_true_iff in Hx as [Hx|Hx]); try (by apply N.eqb_eq in Hx); done. }
  assert (y = ch ":") as ->.
  { unfold ci_eq in Hy. vm_compute swapcase in Hy.
    repeat (apply orb_true_iff in Hy as [Hy|Hy]); try (by apply N.eqb_eq in Hy); done. }
  exists P, O, w, I, Cl, w7, w8, PDF, T.
  split; [done|]. split; [by eapply derives_lang|]. split; [by eapply derives_lang|].
  split; [done|]. split; [by eapply derives_lang|]. split; [by eapply derives_lang|].
  split; [done|]. split; [done|]. split; [by eapply derives_lang|].
  subst tail. split; [by eapply derives_lang|].
  assert (∀ name, c' !! name = c11 !! name) as Hc'.
  { intros name. eapply derives_other_names; [exact HT|]. apply not_elem_of_nil. }
  assert (∀ name, c12 !! name = c7 !! name) as Hc12.
  { intros name. rewrite (derives_other_names _ _ _ _ _ _ _ _ _ HPDF) by apply not_elem_of_nil.
    subst c10 c9 c8. done. }
  assert (∀ name, c7 !! name = c5 !! name) as Hc7.
  { intros name. eapply derives_other_names; [exact HCl|]. apply not_elem_of_nil. }
  assert (∀ name, c6 !! name = c1 !! name) as Hc6.
  { intros name. rewrite (derives_other_names _ _ _ _ _ _ _ _ _ HI) by apply not_elem_of_nil.
    subst c4 c3. eapply derives_other_names; [exact HO|]. apply not_elem_of_nil. }
  rewrite !Hc'. subst c11 c5 c1.
  rewrite !length_app in *. cbn [length] in *.
  split; [|split].
  - rewrite lookup_insert_ne, Hc12, Hc7, lookup_insert_ne, Hc6, lookup_insert_eq by done.
    done.
  - rewrite lookup_insert_ne, Hc12, Hc7, lookup_insert_eq by done.
    f_equal. f_equal; lia.
  - rewrite lookup_insert_eq. f_equal. f_equal; lia.
Qed.

(** A single match cuts the text into what precedes it, the pieces of
    the block and what follows it. *)
Lemma finditer_single_cut text m :
  finditer U OLD_FLAGS OLD_BLOCK_RE text = [m] →
  ∃ before P O w I Cl w7 w8 PDF T after,
    text = before ++ (P ++ O ++ [ch "|"] ++ w ++ I ++ Cl ++ w7 ++ [ch ":"] ++ w8 ++ PDF ++ T)
           ++ after
    ∧ m_start m = length before
    ∧ m_end m = length before
                + length (P ++ O ++ [ch "|"] ++ w ++ I ++ Cl ++ w7 ++ [ch ":"] ++ w8 ++ PDF ++ T)
    ∧ lang U OLD_FLAGS OLD_PREFIX P
    ∧ lang U OLD_FLAGS OLD_LINK_OPEN O
    ∧ spaces w
    ∧ lang U OLD_FLAGS OLD_IAID I
    ∧ lang U OLD_FLAGS OLD_LINK_CLOSE Cl
    ∧ spaces w7 ∧ spaces w8
    ∧ lang U OLD_FLAGS PDF_URL PDF
    ∧ lang U OLD_FLAGS (ws_star ⋅ Opt (Chr (OneOf [Lit NL]))) T
    ∧ group text m "prefix" = Some P
    ∧ group text m "iaid" = Some I
    ∧ group text m "pdf" = Some PDF.
Proof.
  unfold finditer. intros H.
  apply finditer_from_single in H as (k & Hk & Hm & _ & _). simpl in Hm.
  apply match_at_sound in Hm as (u & after & Hu & Hd & Hstart & Hend).
  apply old_block_invert in Hd
    as (P & O & w & I & Cl & w7 & w8 & PDF & T & -> & HP & HO & Hw & HI & HCl & Hw7 & Hw8
        & HPDF & HT & Hcp & Hci & Hcpdf).
  assert (text = take k text ++ drop k text) as Htext by by rewrite take_drop.
  assert (length (take k text) = k) as Hlen by (rewrite length_take; lia).
  rewrite Hu in Htext. clear Hu Hk.
  set (before := take k text) in *. clearbody before.
  rewrite <-Hlen in Hstart, Hend, Hcp, Hci, Hcpdf. clear Hlen k.
  exists before, P, O, w, I, Cl, w7, w8, PDF, T, after.
  split; [done|]. split; [done|]. split; [done|].
  do 9 (split; [done|]).
  unfold group. rewrite Hcp, Hci, Hcpdf.
  cbn [fmap option_fmap option_map fst snd].
  split; [|split]; f_equal.
  - rewrite Htext at 1. rewrite <-!(assoc_L (++)). apply slice_app.
  - rewrite Htext at 1. rewrite <-length_app.
    replace (before ++ (P ++ O ++ [ch "|"] ++ w ++ I ++ Cl ++ w7 ++ [ch ":"] ++ w8 ++ PDF ++ T)
             ++ after)
      with ((before ++ P ++ O ++ [ch "|"] ++ w) ++ I
            ++ (Cl ++ w7 ++ [ch ":"] ++ w8 ++ PDF ++ T) ++ after)
      by by rewrite <-!(assoc_L (++)).
    apply slice_app.
  - rewrite Htext at 1. rewrite <-length_app.
    replace (before ++ (P ++ O ++ [ch "|"] ++ w ++ I ++ Cl ++ w7 ++ [ch ":"] ++ w8 ++ PDF ++ T)
             ++ after)
      with ((before ++ P ++ O ++ [ch "|"] ++ w ++ I ++ Cl ++ w7 ++ [ch ":"] ++ w8) ++ PDF
            ++ T ++ after)
      by by rewrite <-!(assoc_L (++)).
    apply slice_app.
Qed.

(** The replacement block, when it is built: six lines around the
    identifier, the stripped URL and the URN. *)
Lemma build_new_source_block_lines ia_id pdf_url block :
  build_new_source_block U ia_id pdf_url = Return block →
  ∃ urn, derive_delpher_urn U ia_id = Return urn
    ∧ is_Some (re_match U NO_FLAGS (Bol ⋅ PDF_URL ⋅ Eol) (strip pdf_url))
    ∧ block = py "Internet Archive" ++ [NL]
              ++ py "* Website: {{Internet Archive link|" ++ ia_id ++ py "}}" ++ [NL]
              ++ py "* Direct download: " ++ strip pdf_url ++ [NL]
              ++ py "Delpher" ++ [NL]
              ++ py "* Website: https://resolver.kb.nl/resolve?urn=" ++ urn ++ [NL]
              ++ py "* Direct download: https://resolver.kb.nl/resolve?urn=" ++ urn
              ++ py ":mpeg21:pdf".
Proof.
  unfold build_new_source_block. repeat case_bool_decide; try done.
  cbn zeta. destruct (re_match _ _ _ _) as [m|]; [|done].
  destruct (derive_delpher_urn U ia_id) as [urn|e]; [|done].
  cbn [mbind result_bind join]. intros [= <-]. exists urn.
  split; [done|]. split; [done|].
  by rewrite <-!(assoc_L (++)).
Qed.

(** C8: on a body with two or more matches of the old pattern
    [transform_wikitext] stops with the multiple-blocks message, whatever
    the matches are; no text is produced. *)
Theorem transform_wikitext_ambiguous text :
  2 ≤ length (finditer U OLD_FLAGS OLD_BLOCK_RE text) →
  transform_wikitext U text
  = Raise (SystemExit (TransformMultiple (length (finditer U OLD_FLAGS OLD_BLOCK_RE text)))).
Proof.
  unfold transform_wikitext.
  destruct (finditer U OLD_FLAGS OLD_BLOCK_RE text) as [|m1 [|m2 l]]; simpl; [lia|lia|done].
Qed.

(** *** The shape of a match, character by character *)

Lemma spaces_not_elem w x : spaces w → unicode_space x = false → x ∉ w.
Proof.
  intros Hw Hx Hin. unfold spaces in Hw. rewrite Forall_forall in Hw.
  apply Hw in Hin. congruence.
Qed.

(** Under [re.IGNORECASE] a literal that is not a letter matches itself
    only. *)
Lemma old_lit_punct c x :
  swapcase c = c → ((c =? 105) || (c =? 73))%N = false →
  ((c =? 115) || (c =? 83))%N = false → ((c =? 107) || (c =? 75))%N = false →
  cmatch U OLD_FLAGS (OneOf [Lit c]) x = true → x = c.
Proof.
  intros Hs Hi Hss Hk. rewrite old_class_lit. unfold ci_eq.
  rewrite Hs, Hi, Hss, Hk. cbn [andb]. rewrite !orb_false_r, orb_diag.
  by intros ?%N.eqb_eq.
Qed.

(** The source header: a bar, a head without bar, equals sign or closing
    brace, the equals sign, white space, a line break. *)
Lemma old_prefix_shape P :
  lang U OLD_FLAGS OLD_PREFIX P →
  ∃ Hd W3,
    P = ch "|" :: Hd ++ ch "=" :: W3 ++ [NL]
    ∧ ((ch "|") ∉ Hd) ∧ ((ch "=") ∉ Hd) ∧ ((ch "}") ∉ Hd) ∧ spaces W3.
Proof.
  unfold lang, OLD_PREFIX. cbn [derives chr].
  intros (pos & rest & c & c' & H).
  destruct H as (b & u1 & c1 & -> & (x & -> & Hx & ->) & H).
  destruct H as (w1 & u2 & c2 & -> & Hw1 & H).
  destruct H as (src & u3 & c3 & -> & Hsrc & H).
  destruct H as (w2 & u4 & c4 & -> & Hw2 & H).
  destruct H as (e & u5 & c5 & -> & (y & -> & Hy & ->) & H).
  destruct H as (w3 & n & c6 & -> & Hw3 & (z & -> & Hz & ->)).
  apply old_ws_star in Hw1 as [Hw1 ->], Hw2 as [Hw2 ->], Hw3 as [Hw3 ->].
  apply old_lit_punct in Hx as ->; [|done..].
  apply old_lit_punct in Hy as ->; [|done..].
  apply old_lit_punct in Hz as ->; [|done..].
  exists (w1 ++ src ++ w2), w3.
  split; [by rewrite <-!(assoc_L (++))|].
  assert (∀ x, unicode_space x = false → rejects U OLD_FLAGS x (lit "source") = true →
               x ∉ w1 ++ src ++ w2) as Hout.
  { intros x Hx Hr. rewrite !elem_of_app. intros [Hin|[Hin|Hin]].
    - by apply (spaces_not_elem w1 x).
    - by apply (derives_rejects U _ _ _ _ _ _ _ _ Hr Hsrc).
    - by apply (spaces_not_elem w2 x). }
  split; [by apply Hout|]. split; [by apply Hout|]. split; [by apply Hout|]. done.
Qed.

(** A whole match: the header, then white space, a colon, the opening of
    the template without bar, the bar, the identifier between white space,
    a closing brace, and a rest without bar. *)
Lemma old_block_shape u :
  lang U OLD_FLAGS OLD_BLOCK_RE u →
  ∃ Hd W3 W4 O' w I w6 R,
    u = ch "|" :: Hd ++ ch "=" :: W3 ++ NL :: W4 ++ ch ":" :: O'
        ++ ch "|" :: w ++ I ++ w6 ++ ch "}" :: R
    ∧ ((ch "|") ∉ Hd) ∧ ((ch "=") ∉ Hd) ∧ ((ch "}") ∉ Hd)
    ∧ spaces W3 ∧ spaces W4 ∧ ((ch "|") ∉ O')
    ∧ spaces w ∧ (NL ∉ I) ∧ ((ch "}") ∉ I) ∧ spaces w6
    ∧ ((ch "|") ∉ R).
Proof.
  intros (pos & rest & c & c' & H).
  apply old_block_invert in H
    as (P & O & w & I & Cl & w7 & w8 & PDF & T & -> & HP & HO & Hw & HI & HCl & Hw7 & Hw8
        & HPDF & HT & _).
  apply old_prefix_shape in HP as (Hd & W3 & -> & Hd1 & Hd2 & Hd3 & HW3).
  assert (ch "|" ∉ O) as HObar by (by eapply lang_rejects; [|exact HO]).
  assert (ch "|" ∉ Cl) as HClbar by (by eapply lang_rejects; [|exact HCl]).
  assert (ch "|" ∉ PDF) as HPDFbar by (by eapply lang_rejects; [|exact HPDF]).
  assert (ch "|" ∉ T) as HTbar by (by eapply lang_rejects; [|exact HT]).
  assert (NL ∉ I) as HInl by (by eapply lang_rejects; [|exact HI]).
  assert (ch "}" ∉ I) as HIrb by (by eapply lang_rejects; [|exact HI]).
  destruct HO as (pos1 & rest1 & c1 & c1' & HO).
  unfold OLD_LINK_OPEN in HO.
  remember (ws_star ⋅ lit "{{" ⋅ ws_star ⋅ lit "Internet" ⋅ ws_plus ⋅ lit "Archive" ⋅ ws_plus
            ⋅ lit "link" ⋅ ws_star)%re as open_rest eqn:Hopen in HO.
  cbn [derives chr] in HO.
  destruct HO as (W4 & u1 & c2 & -> & HW4 & (b & O' & c3 & -> & (x & -> & Hx & ->) & HO')).
  apply old_ws_star in HW4 as [HW4 ->].
  apply old_lit_punct in Hx as ->; [|done..].
  destruct HCl as (pos2 & rest2 & c4 & c4' & HCl).
  unfold OLD_LINK_CLOSE in HCl.
  remember (ws_star ⋅ Chr (OneOf [Lit NL]))%re as close_rest eqn:Hclose in HCl.
  cbn [derives chr lit] in HCl.
  destruct HCl as (w6 & u2 & c5 & -> & Hw6 & (l2 & u3 & c6 & -> & Hl2 & HCl')).
  destruct Hl2 as (b1 & b2 & c7 & -> & (y & -> & Hy & ->) & Hb2).
  apply old_ws_star in Hw6 as [Hw6 ->].
  apply old_lit_punct in Hy as ->; [|done..].
  exists Hd, W3, W4, O', w, I, w6, ((b2 ++ u3) ++ w7 ++ [ch ":"] ++ w8 ++ PDF ++ T).
  split.
  { cbn [app]. rewrite <-!(assoc_L (++)). cbn [app]. rewrite <-!(assoc_L (++)). done. }
  do 5 (split; [done|]).
  split. { intros Hin. apply HObar. rewrite elem_of_app. right. by right. }
  do 4 (split; [done|]).
  rewrite !elem_of_app. intros [Hin|[Hin|[Hin|[Hin|[Hin|Hin]]]]]; try done.
  - apply HClbar. rewrite !elem_of_app. tauto.
  - by apply (spaces_not_elem w7 (ch "|")).
  - by apply list_elem_of_singleton in Hin.
  - by apply (spaces_not_elem w8 (ch "|")).
Qed.

(** *** No old block in the new text *)

Lemma old_match_heads pos s :
  is_Some (match_at U OLD_FLAGS OLD_BLOCK_RE pos s) ↔ heads U s.
Proof. by apply match_at_lang. Qed.

Lemma heads_bar s : heads U s → ∃ t, s = ch "|" :: t.
Proof.
  intros (u & rest & -> & Hu).
  apply old_block_shape in Hu as (Hd & W3 & W4 & O' & w & I & w6 & R & -> & _).
  eexists. by cbn [app].
Qed.

(** What follows a bar of a match other than its first character: white
    space, a run without line break, white space, and a closing brace. *)
Lemma after_inner_bar u B2 l' :
  lang U OLD_FLAGS OLD_BLOCK_RE u → u = B2 ++ ch "|" :: l' → B2 ≠ [] →
  ∃ w' I' w6 R, l' = w' ++ I' ++ w6 ++ ch "}" :: R
    ∧ spaces w' ∧ (NL ∉ I') ∧ spaces w6.
Proof.
  intros Hu Heq HB2.
  apply old_block_shape in Hu
    as (Hd & W3 & W4 & O' & w & I & w6 & R & -> & Hd1 & Hd2 & Hd3 & HW3 & HW4 & HO' & Hw
        & HInl & HIrb & Hw6 & HR).
  destruct B2 as [|b B2']; [done|]. cbn [app] in Heq. injection Heq as <- Heq.
  symmetry in Heq.
  replace (Hd ++ ch "=" :: W3 ++ NL :: W4 ++ ch ":" :: O' ++ ch "|" :: w ++ I ++ w6 ++ ch "}" :: R)
    with ((Hd ++ ch "=" :: W3 ++ NL :: W4 ++ ch ":" :: O')
          ++ ch "|" :: w ++ I ++ w6 ++ ch "}" :: R) in Heq
    by (rewrite <-!(assoc_L (++)); cbn [app]; rewrite <-!(assoc_L (++)); cbn [app];
        by rewrite <-!(assoc_L (++))).
  apply locate_skip in Heq as (m1 & -> & Heq).
  2: { intros Hin. mem_cases Hin; try done.
       - by apply (spaces_not_elem W3 (ch "|")).
       - by apply (spaces_not_elem W4 (ch "|")). }
  destruct m1 as [|b1 m1]; cbn [app] in Heq.
  { injection Heq as Heq. exists w, I, w6, R. by rewrite <-Heq. }
  injection Heq as <- Heq. symmetry in Heq.
  apply locate_skip in Heq as (m2 & -> & Heq); [|by apply spaces_not_elem].
  apply app_eq_cases in Heq as [(m3 & -> & Heq)|(m3 & -> & Heq)].
  - (* the bar is inside the identifier *)
    destruct m3 as [|b3 m3]; cbn [app] in Heq.
    + destruct w6 as [|x6 w6]; cbn [app] in Heq; [done|].
      injection Heq as <- Heq. exfalso. by inversion Hw6.
    + injection Heq as <- ->. exists [], m3, w6, R. split; [done|]. split; [constructor|].
      split; [|done]. intros Hin. apply HInl. apply elem_of_app. right. by right.
  - (* the bar is after the identifier *)
    symmetry in Heq.
    apply locate_skip in Heq as (m4 & -> & Heq); [|by apply spaces_not_elem].
    destruct m4 as [|b4 m4]; cbn [app] in Heq; [done|].
    injection Heq as <- Heq. exfalso. apply HR. rewrite Heq. apply elem_of_app. right. by left.
Qed.

(** A match cannot start at a bar that is followed, before any line
    break, by a closing brace. *)
Lemma heads_template I2 Z : NL ∉ I2 → ¬ heads U (ch "|" :: I2 ++ ch "}" :: Z).
Proof.
  intros HI2 (u & rest & Heq & Hu).
  apply old_block_shape in Hu
    as (Hd & W3 & W4 & O' & w & I & w6 & R & -> & Hd1 & Hd2 & Hd3 & HW3 & _).
  cbn [app] in Heq. injection Heq as Heq.
  assert ((Hd ++ ch "=" :: W3)
          ++ NL :: W4 ++ ch ":" :: O' ++ ch "|" :: w ++ I ++ w6 ++ ch "}" :: R ++ rest
          = I2 ++ ch "}" :: Z) as Heq' by (rewrite Heq; by_assoc).
  eapply (first_clash NL (ch "}")); [done|exact HI2| |exact Heq'].
  intros Hin. mem_cases Hin; try done.
  by apply (spaces_not_elem W3 (ch "}")).
Qed.

(** A match cannot start at a source header that is followed by a
    character other than white space and the colon. *)
Lemma heads_header P y R :
  lang U OLD_FLAGS OLD_PREFIX P → unicode_space y = false → y ≠ ch ":" →
  ¬ heads U (P ++ y :: R).
Proof.
  intros HP Hy Hyc (u & rest & Heq & Hu).
  apply old_prefix_shape in HP as (Hd0 & W30 & -> & Hd01 & Hd02 & Hd03 & HW30).
  apply old_block_shape in Hu
    as (Hd & W3 & W4 & O' & w & I & w6 & R' & -> & Hd1 & Hd2 & Hd3 & HW3 & HW4 & _).
  cbn [app] in Heq. injection Heq as Heq.
  assert (Hd0 ++ ch "=" :: (W30 ++ [NL]) ++ y :: R
          = Hd ++ ch "=" :: (W3 ++ NL :: W4)
            ++ ch ":" :: O' ++ ch "|" :: w ++ I ++ w6 ++ ch "}" :: R' ++ rest) as Heq'.
  { transitivity ((Hd0 ++ ch "=" :: W30 ++ [NL]) ++ y :: R); [by_assoc|].
    rewrite Heq. by_assoc. }
  apply first_same in Heq' as [-> Heq']; [|done..].
  apply (span_unique unicode_space) in Heq' as [_ Heq']; [congruence|..]; try done.
  - apply Forall_app. split; [done|]. by repeat constructor.
  - apply Forall_app. split; [done|]. by constructor.
Qed.

(** A match that starts before a source header followed by a character
    that is neither white nor a closing brace ends before the header. *)
Lemma heads_across B2 P y R0 :
  lang U OLD_FLAGS OLD_PREFIX P → unicode_space y = false → y ≠ ch "}" →
  heads U (B2 ++ P ++ y :: R0) → B2 ≠ [] →
  ∃ u rest, B2 = u ++ rest ∧ lang U OLD_FLAGS OLD_BLOCK_RE u.
Proof.
  intros HP Hy Hyrb (u & rest & Heq & Hu) HB2. symmetry in Heq.
  apply app_eq_cases in Heq as [(m & -> & Heq)|(m & -> & Heq)]; [|by eauto].
  destruct m as [|b l'].
  { exists B2, []. by rewrite !app_nil_r in *. }
  exfalso.
  apply old_prefix_shape in HP as (Hd0 & W30 & -> & Hd01 & Hd02 & Hd03 & HW30).
  cbn [app] in Heq. injection Heq as <- Heq.
  destruct (after_inner_bar _ _ _ Hu eq_refl HB2) as (w' & I' & w6 & R & -> & Hw' & HI' & Hw6).
  assert ((w' ++ I' ++ w6) ++ ch "}" :: R ++ rest
          = ((Hd0 ++ ch "=" :: W30) ++ [NL; y]) ++ R0) as Heq'.
  { transitivity ((Hd0 ++ ch "=" :: W30 ++ [NL]) ++ y :: R0); [|by_assoc].
    rewrite Heq. by_assoc. }
  apply locate_skip in Heq' as (m' & Heq' & _).
  2: { intros Hin. mem_cases Hin; try done; try congruence.
       by apply (spaces_not_elem W30 (ch "}")). }
  eapply (no_break_inside w' I' w6 (Hd0 ++ ch "=" :: W30) m' (ch "=") y); try done.
  - apply elem_of_app. right. by left.
  - rewrite Heq'. by_assoc.
Qed.

Lemma clean_from_app L R :
  (∀ L1 L2, L = L1 ++ L2 → L2 ≠ [] → ¬ heads U (L2 ++ R)) →
  clean_from U R → clean_from U (L ++ R).
Proof.
  intros HL HR j. rewrite drop_app.
  destruct (decide (j < length L)) as [Hj|Hj].
  - replace (j - length L) with 0 by lia. rewrite drop_0.
    apply (HL (take j L) (drop j L)); [by rewrite take_drop|].
    intros Hnil. apply (f_equal length) in Hnil. rewrite length_drop in Hnil.
    simpl in Hnil. lia.
  - rewrite drop_ge by lia. apply HR.
Qed.

Lemma clean_from_finditer text :
  clean_from U text → finditer U OLD_FLAGS OLD_BLOCK_RE text = [].
Proof.
  intros Hclean. apply finditer_from_nil. intros k _.
  apply eq_None_not_Some. rewrite old_match_heads. apply Hclean.
Qed.

Lemma finditer_single_alone text m :
  finditer U OLD_FLAGS OLD_BLOCK_RE text = [m] → m_start m < m_end m →
  (∀ j, j < m_start m → ¬ heads U (drop j text))
  ∧ (∀ j, m_end m ≤ j → ¬ heads U (drop j text)).
Proof.
  unfold finditer. intros H Hlt.
  apply finditer_from_single in H as (k & Hk & Hm & Hbefore & Hafter). simpl in *.
  pose proof Hm as Hm'. apply match_at_sound in Hm' as (_ & _ & _ & _ & Hstart & _).
  split.
  - intros j Hj. rewrite <-old_match_heads. rewrite Hbefore; [by intros [??]|lia].
  - intros j Hj. destruct (decide (j ≤ length text)) as [Hle|Hgt].
    + rewrite <-old_match_heads. rewrite Hafter; [by intros [??]|lia..].
    + rewrite drop_ge by lia. by intros [t Ht]%heads_bar.
Qed.

(** The replacement block with its final line break: the only bars are
    the bar of the template and those of the identifier. *)
Lemma new_block_bars ia_id pdf_url block :
  build_new_source_block U ia_id pdf_url = Return block →
  (ch "|") ∉ strip pdf_url →
  ∃ A1 Z2,
    block ++ [NL] = (ch "I" :: A1) ++ ch "|" :: ia_id ++ ch "}" :: Z2
    ∧ ((ch "|") ∉ A1) ∧ ((ch "|") ∉ Z2).
Proof.
  intros (urn & Hurn & _ & ->)%build_new_source_block_lines Hpdf.
  apply derive_delpher_urn_no_bar in Hurn.
  exists (py "nternet Archive" ++ [NL] ++ py "* Website: {{Internet Archive link"),
    (py "}" ++ [NL] ++ py "* Direct download: " ++ strip pdf_url ++ [NL]
     ++ py "Delpher" ++ [NL]
     ++ py "* Website: https://resolver.kb.nl/resolve?urn=" ++ urn ++ [NL]
     ++ py "* Direct download: https://resolver.kb.nl/resolve?urn=" ++ urn
     ++ py ":mpeg21:pdf" ++ [NL]).
  split; [|split].
  - change (py "Internet Archive") with (ch "I" :: py "nternet Archive").
    change (py "* Website: {{Internet Archive link|")
      with (py "* Website: {{Internet Archive link" ++ [ch "|"]).
    change (py "}}") with (ch "}" :: py "}").
    by_assoc.
  - rewrite !not_elem_of_app. repeat split; not_in_literal.
  - rewrite !not_elem_of_app. repeat split; first [assumption | not_in_literal].
Qed.

(** No old block starts inside the replacement block. *)
Lemma heads_new_block ia_id pdf_url block after N1 N2 :
  build_new_source_block U ia_id pdf_url = Return block →
  (ch "|") ∉ strip pdf_url → NL ∉ ia_id →
  block ++ [NL] = N1 ++ N2 → N2 ≠ [] → ¬ heads U (N2 ++ after).
Proof.
  intros Hb Hpdf Hid Hcut HN2 Hheads.
  destruct (new_block_bars _ _ _ Hb Hpdf) as (A1 & Z2 & Hblock & HA1 & HZ2).
  destruct (heads_bar _ Hheads) as [t Ht].
  destruct N2 as [|b N2']; [done|]. cbn [app] in Ht. injection Ht as -> _.
  rewrite Hblock in Hcut. symmetry in Hcut.
  apply locate_skip in Hcut as (m & -> & Hcut).
  2: { apply not_elem_of_cons. by split. }
  destruct m as [|b m']; cbn [app] in Hcut.
  { injection Hcut as Hcut. rewrite <-Hcut in Hheads.
    apply (heads_template ia_id (Z2 ++ after)); [done|].
    by replace (ch "|" :: ia_id ++ ch "}" :: Z2 ++ after)
      with ((ch "|" :: ia_id ++ ch "}" :: Z2) ++ after) by by_assoc. }
  injection Hcut as <- Hcut.
  apply app_eq_cases in Hcut as [(m3 & -> & Hcut)|(m3 & -> & Hcut)].
  - (* the bar is inside the identifier *)
    destruct m3 as [|b3 m3]; cbn [app] in Hcut; [done|].
    injection Hcut as <- ->.
    apply (heads_template m3 (Z2 ++ after)).
    + intros Hin. apply Hid. apply elem_of_app. right. by right.
    + by replace (ch "|" :: m3 ++ ch "}" :: Z2 ++ after)
        with ((ch "|" :: m3 ++ ch "}" :: Z2) ++ after) by by_assoc.
  - (* the bar is after the identifier *)
    destruct m3 as [|b3 m3]; cbn [app] in Hcut; [done|].
    injection Hcut as <- Hcut. apply HZ2. rewrite Hcut. apply elem_of_app. right. by left.
Qed.

Lemma strip_not_elem x s : x ∉ s → x ∉ strip s.
Proof.
  intros Hx Hin. apply Hx. destruct (strip_infix s) as (w1 & w2 & Hs & _).
  rewrite Hs. apply elem_of_app. right. apply elem_of_app. by left.
Qed.

(** After the one old block has been replaced, no old block starts
    anywhere in the text. *)
Lemma transform_wikitext_clean text m text' :
  finditer U OLD_FLAGS OLD_BLOCK_RE text = [m] →
  transform_wikitext U text = Return text' → clean_from U text'.
Proof.
  intros Hm Ht.
  destruct (finditer_single_cut text m Hm)
    as (before & P & O & w & I & Cl & w7 & w8 & PDF & T & after & Htext & Hstart & Hend
        & HP & HO & Hw & HI & HCl & Hw7 & Hw8 & HPDF & HT & Hgp & Hgi & Hgpdf).
  assert (m_start m < m_end m) as Hlt.
  { rewrite Hstart, Hend. apply old_prefix_shape in HP as (? & ? & -> & _).
    rewrite !length_app. simpl. lia. }
  destruct (finditer_single_alone text m Hm Hlt) as [Hbefore Hafter].
  unfold transform_wikitext in Ht. rewrite Hm, Hgp, Hgi, Hgpdf in Ht.
  cbn [not_none fmap result_fmap mbind result_bind] in Ht.
  destruct (derive_delpher_urn U (strip I)) as [urn|e] eqn:Hurn; [|done].
  destruct (build_new_source_block U (strip I) (strip PDF)) as [blk|e] eqn:Hblk; [|done].
  cbn [mbind result_bind] in Ht. injection Ht as <-.
  rewrite Hstart, Hend. rewrite Htext at 1 2.
  rewrite take_app_length, <-drop_drop, drop_app_length, drop_app_length.
  assert (NL ∉ strip I) as HInl.
  { apply strip_not_elem. by eapply lang_rejects; [|exact HI]. }
  assert ((ch "|") ∉ strip (strip PDF)) as HPDFbar.
  { do 2 apply strip_not_elem. by eapply lang_rejects; [|exact HPDF]. }
  destruct (new_block_bars _ _ _ Hblk HPDFbar) as (A1 & Z2 & Hshape & _).
  replace (before ++ P ++ blk ++ NL :: after)
    with (before ++ P ++ (blk ++ [NL]) ++ after) by by_assoc.
  apply clean_from_app; [|apply clean_from_app; [|apply clean_from_app]].
  - (* inside the text before the block *)
    intros B1 B2 -> HB2 Hheads.
    rewrite Hshape in Hheads.
    replace (B2 ++ P ++ ((ch "I" :: A1) ++ ch "|" :: strip I ++ ch "}" :: Z2) ++ after)
      with (B2 ++ P ++ ch "I" :: (A1 ++ ch "|" :: strip I ++ ch "}" :: Z2) ++ after)
      in Hheads by by_assoc.
    apply heads_across in Hheads as (u & rest & -> & Hu); [|done..].
    apply (Hbefore (length B1)).
    + rewrite Hstart, !length_app. destruct u; [|simpl; lia].
      apply old_block_shape in Hu as (? & ? & ? & ? & ? & ? & ? & ? & ? & _). done.
    + rewrite Htext. rewrite <-!(assoc_L (++)), drop_app_length.
      by eexists u, _.
  - (* inside the source header *)
    intros P1 P2 HPcut HP2 Hheads.
    destruct P1 as [|p1 P1].
    + cbn [app] in HPcut. subst P2. rewrite Hshape in Hheads.
      replace (P ++ ((ch "I" :: A1) ++ ch "|" :: strip I ++ ch "}" :: Z2) ++ after)
        with (P ++ ch "I" :: (A1 ++ ch "|" :: strip I ++ ch "}" :: Z2) ++ after)
        in Hheads by by_assoc.
      by apply heads_header in Hheads.
    + destruct (heads_bar _ Hheads) as [t Ht].
      destruct P2 as [|p2 P2]; [done|]. cbn [app] in Ht. injection Ht as -> _.
      apply old_prefix_shape in HP as (Hd & W3 & HPeq & Hd1 & _ & _ & HW3).
      rewrite HPeq in HPcut. cbn [app] in HPcut. injection HPcut as _ HPcut.
      assert ((ch "|") ∈ Hd ++ ch "=" :: W3 ++ [NL]) as Hin.
      { rewrite HPcut. apply elem_of_app. right. by left. }
      mem_cases Hin; try done. by apply (spaces_not_elem W3 (ch "|")).
  - (* inside the replacement block *)
    intros N1 N2 Hcut HN2. by eapply heads_new_block.
  - (* after the block *)
    intros j. specialize (Hafter (m_end m + j) ltac:(lia)).
    rewrite Hend, Htext in Hafter.
    by rewrite <-drop_drop, <-drop_drop, drop_app_length, drop_app_length in Hafter.
Qed.

(** C1: for every page body with at most one match of the old pattern,
    transforming twice is transforming once (a failure of the first run
    being the failure of both), and the body a first run returns contains
    no match of the old pattern, so that a second run finds none. *)
Theorem transform_wikitext_idempotent text :
  length (finditer U OLD_FLAGS OLD_BLOCK_RE text) ≤ 1 →
  (transform_wikitext U text ≫= transform_wikitext U) = transform_wikitext U text
  ∧ (∀ text', transform_wikitext U text = Return text' →
              finditer U OLD_FLAGS OLD_BLOCK_RE text' = []).
Proof.
  intros Hlen.
  destruct (finditer U OLD_FLAGS OLD_BLOCK_RE text) as [|m [|m2 l]] eqn:Hfind;
    [| |simpl in Hlen; lia].
  - assert (transform_wikitext U text = Return text) as Ht.
    { unfold transform_wikitext. by rewrite Hfind. }
    rewrite Ht. cbn [mbind result_bind]. split; [done|]. by intros text' [= <-].
  - destruct (transform_wikitext U text) as [text'|e] eqn:Ht; [|done].
    pose proof (clean_from_finditer _ (transform_wikitext_clean _ _ _ Hfind Ht)) as Hclean.
    cbn [mbind result_bind]. split; [|by intros ? [= <-]].
    unfold transform_wikitext. by rewrite Hclean.
Qed.

End OldBlock.

(** ** One old block *)





(** ** The workload slicer *)

Section Slicer.
Variable U : runtime.
Variable cfg : config.

(** C3, as the code has it: on a non-empty worklist, a head greater than
    the number of records (with no range) stops the run with the
    HEAD-bounds message, and a positive head together with a non-blank
    range stops it with the both-set message; a head of 0 (or less) is the
    unset value, so with no range the worklist is returned whole; and a
    head between 1 and the number of records returns exactly that many
    records, the first ones. *)
Theorem apply_slice_records_head (records : list record) :
  records ≠ [] →
  ((HEAD cfg > 0)%Z → strip (RANGE cfg) ≠ [] →
     apply_slice_records U cfg records = Raise (SystemExit SliceBothSet))
  ∧ ((HEAD cfg > Z.of_nat (length records))%Z → strip (RANGE cfg) = [] →
     apply_slice_records U cfg records
     = Raise (SystemExit (SliceHeadBounds (length records) (HEAD cfg))))
  ∧ ((HEAD cfg ≤ 0)%Z → strip (RANGE cfg) = [] →
     apply_slice_records U cfg records = Return records)
  ∧ (∀ n, HEAD cfg = Z.of_nat n → 1 ≤ n ≤ length records → strip (RANGE cfg) = [] →
     apply_slice_records U cfg records = Return (take n records)
     ∧ length (take n records) = n).
Proof.
  intros Hne. unfold apply_slice_records.
  destruct (decide (length records = 0)) as [Hlen|Hlen].
  { by destruct records. }
  repeat split.
  - intros Hhead Hrange.
    by rewrite (bool_decide_eq_true_2 _ Hrange), (bool_decide_eq_true_2 _ Hhead).
  - intros Hhead Hrange.
    rewrite bool_decide_eq_false_2 by (by intros ?).
    rewrite bool_decide_eq_true_2 by lia. cbn [andb].
    rewrite bool_decide_eq_true_2 by lia. done.
  - intros Hhead Hrange.
    rewrite bool_decide_eq_false_2 by (by intros ?).
    rewrite bool_decide_eq_false_2 by lia. done.
  - rewrite bool_decide_eq_false_2 by (by intros ?).
    rewrite bool_decide_eq_true_2 by lia. cbn [andb].
    rewrite bool_decide_eq_false_2 by lia. by rewrite H, Nat2Z.id.
  - rewrite length_take. lia.
Qed.

End Slicer.

(** ** Programs and their runs *)

Lemma run_bind {A B W} (respond : ∀ e : event, W → reply e * W)
    (m : prog A) (f : A → prog B) (w : W) :
  run respond (pbind m f) w
  = let '(a, w1, t1) := run respond m w in
    let '(b, w2, t2) := run respond (f a) w1 in
    (b, w2, t1 ++ t2).
Proof.
  revert w. induction m as [a|e k IH]; intros w; cbn [run pbind].
  - by destruct (run respond (f a) w) as [[b w2] t2].
  - destruct (respond e w) as [r w1]. rewrite IH.
    destruct (run respond (k r) w1) as [[a w2] t1].
    by destruct (run respond (f a) w2) as [[b w3] t2].
Qed.









(** ** The collaborators other than the status writer are quiet *)


Section Effects.
Variable U : runtime.
Variable cfg : config.





(** C10: with an empty status map [write_status_to_excel] is the program
    that returns at once: it issues no event, so that whatever the
    environment, the workbook is neither looked for, read nor written,
    and the environment is left as it was. *)
Theorem write_status_to_excel_empty {W} (respond : ∀ e : event, W → reply e * W) (w : W) :
  write_status_to_excel U cfg ∅ = Ret (Return ())
  ∧ run respond (write_status_to_excel U cfg ∅) w = (Return (), w, []).
Proof.
  assert (write_status_to_excel U cfg ∅ = Ret (Return ())) as H.
  { unfold write_status_to_excel. by destruct (decide _). }
  by rewrite H.
Qed.

(** With a status map that is not empty the first thing the writer does
    is to look for the workbook. *)
Lemma write_status_to_excel_nonempty statuses :
  statuses ≠ ∅ →
  ∃ k, write_status_to_excel U cfg statuses = Call (PathExists (EXCEL_FILE cfg)) k.
Proof.
  intros Hne. unfold write_status_to_excel. destruct (decide _); [done|].
  by eexists.
Qed.

(** *** One turn of the loop *)




(** *** The loop *)



End Effects.

(** * Further properties *)

(** ** Programs in every environment *)

Lemma post_mono {A} (p : prog A) (Q Q' : A → list event → Prop) :
  (∀ a t, Q a t → Q' a t) → post p Q → post p Q'.
Proof.
  revert Q Q'. induction p as [a|e k IH]; intros Q Q' HQ; cbn [post]; [by apply HQ|].
  intros H r. eapply IH; [|apply H]. intros a t. apply HQ.
Qed.

Lemma post_run {A W} (respond : ∀ e : event, W → reply e * W) (p : prog A) Q (w : W) :
  post p Q → Q (run respond p w).1.1 (run respond p w).2.
Proof.
  revert Q w. induction p as [a|e k IH]; intros Q w; cbn [post run]; [done|].
  intros H. destruct (respond e w) as [r w1]. specialize (IH r _ w1 (H r)).
  by destruct (run respond (k r) w1) as [[a w2] t].
Qed.

Lemma post_bind {A B} (m : prog A) (f : A → prog B) Q :
  post m (λ a t1, post (f a) (λ b t2, Q b (t1 ++ t2))) → post (pbind m f) Q.
Proof.
  revert Q. induction m as [a|e k IH]; intros Q; cbn [post pbind]; [done|].
  intros H r. apply IH. eapply post_mono; [|apply H].
  intros a t. cbn beta. by apply post_mono.
Qed.

Lemma post_io_bind {A B} (m : io A) (f : A → io B) Q :
  post m (λ r t1, match r with
                  | Return a => post (f a) (λ b t2, Q b (t1 ++ t2))
                  | Raise e => Q (Raise e) t1
                  end) →
  post (m ≫= f) Q.
Proof.
  intros H. apply post_bind. eapply post_mono; [|apply H].
  intros [a|e] t; cbn beta; [done|]. cbn [post]. by rewrite app_nil_r.
Qed.

Ltac post_step :=
  first [ progress cbn [post pbind mbind io_bind call lift exit raise mret io_ret try]
        | intros ?
        | case_bool_decide
        | case_match ].

(** ** The page editor *)

Lemma fetch_post pid :
  post (fetch_wikitext_by_pageid pid) (λ r t,
    (if bool_decide (pid ≤ 0)%Z
     then r = Raise (SystemExit FetchBadPageid) ∧ t = []
     else t = [SiteApiQuery (str_of_Z pid)])
    ∧ ∀ text ts, r = Return (text, ts) → text ≠ [] ∧ ts ≠ []).
Proof.
  unfold fetch_wikitext_by_pageid.
  case_bool_decide; [done|].
  cbn [post pbind mbind io_bind call lift exit raise mret io_ret try].
  intros r. repeat post_step; (split; [done|]); intros ?? ?; by simplify_eq.
Qed.

Lemma save_post cfg pid new_text base :
  post (save_wikitext_by_pageid cfg pid new_text base) (λ r t,
    (∀ b, r = Return b → b = true ∧ edits t ≠ [])
    ∧ length (edits t) ≤ 2
    ∧ Forall (same_edit cfg pid new_text base) (edits t)
    ∧ (length (edits t) = 2 → length (filter is_login t) = 1)
    ∧ ((pid ≤ 0)%Z ∨ new_text = [] ∨ base = None ∨ base = Some [] →
       t = [] ∧ ∃ why, r = Raise (SystemExit why))).
Proof.
  unfold save_wikitext_by_pageid, get_token, edit_with_token, same_edit.
  repeat post_step.
  all: subst; split_and!;
    [ intros ? ?; by simplify_eq
    | simpl; lia
    | try done; simpl; by repeat constructor
    | simpl; by intros
    | intros [?|[?|[?|?]]]; simplify_eq; by eauto ].
Qed.

(** ** The record loader *)

Lemma dedup_spec seen records uniq dup_count :
  dedup seen records = (uniq, dup_count) →
  uniq `sublist_of` records
  ∧ NoDup (pageid <$> uniq)
  ∧ (∀ r, r ∈ uniq → pageid r ∉ seen)
  ∧ length uniq + dup_count = length records
  ∧ (∀ r, r ∈ uniq ↔
       ∃ i, records !! i = Some r ∧ (pageid r ∉ seen)
            ∧ (pageid r ∉ pageid <$> take i records)).
Proof.
  revert seen uniq dup_count.
  induction records as [|rec rest IH]; intros seen uniq dup_count; cbn [dedup].
  - intros [= <- <-]. split_and!; [done|constructor|by intros ? ?%elem_of_nil|done|].
    intros r. split; [by intros ?%elem_of_nil|by intros (i & ? & _)].
  - destruct (decide (pageid rec ∈ seen)) as [Hin|Hnin].
    + destruct (dedup seen rest) as [u k] eqn:Hd. intros [= <- <-].
      destruct (IH _ _ _ Hd) as (Hsub & Hnd & Hseen & Hlen & Hiff).
      split_and!; [by apply sublist_cons|done|done|simpl; lia|].
      intros r. rewrite Hiff. split.
      * intros (i & Hi & Hs & Hfirst). exists (S i). split_and!; [done|done|].
        cbn [take fmap list_fmap]. rewrite elem_of_cons. intros [Heq|?]; [|done].
        by rewrite Heq in Hs.
      * intros ([|i] & Hi & Hs & Hfirst); simplify_eq/=; [done|].
        exists i. split_and!; [done|done|]. intros ?. apply Hfirst. by right.
    + destruct (dedup ({[pageid rec]} ∪ seen) rest) as [u k] eqn:Hd. intros [= <- <-].
      destruct (IH _ _ _ Hd) as (Hsub & Hnd & Hseen & Hlen & Hiff).
      split_and!.
      * by apply sublist_skip.
      * cbn [fmap list_fmap]. apply NoDup_cons. split; [|done].
        intros (r & Heq & Hr)%list_elem_of_fmap. apply Hseen in Hr.
        apply Hr, elem_of_union. left. by apply elem_of_singleton.
      * intros r [->|Hr]%elem_of_cons; [done|]. apply Hseen in Hr.
        intros ?. apply Hr, elem_of_union. by right.
      * simpl; lia.
      * intros r. rewrite elem_of_cons, Hiff. split.
        -- intros [->|(i & Hi & Hs & Hfirst)].
           ++ exists 0. split_and!; [done|done|]. cbn. by intros ?%elem_of_nil.
           ++ apply not_elem_of_union in Hs as [Hne%not_elem_of_singleton Hs].
              exists (S i). split_and!; [done|done|].
              cbn [take fmap list_fmap]. rewrite elem_of_cons. by intros [?|?].
        -- intros ([|i] & Hi & Hs & Hfirst); simplify_eq/=; [by left|].
           right. exists i. split_and!; [done| |].
           ++ rewrite not_elem_of_union, not_elem_of_singleton. split; [|done].
              intros Heq. apply Hfirst. rewrite Heq. by left.
           ++ intros ?. apply Hfirst. by right.
Qed.

Lemma cast_all_Forall2 {A B} (f : A → result B) l ys :
  cast_all f l = Return ys → Forall2 (λ x y, f x = Return y) l ys.
Proof.
  revert ys. induction l as [|x l IH]; intros ys; cbn [cast_all].
  - intros [= <-]. constructor.
  - destruct (f x) as [y|e] eqn:Hx; [|done]. cbn [mbind result_bind].
    destruct (cast_all f l) as [ys'|e]; [|done]. cbn [mbind result_bind].
    intros [= <-]. constructor; [done|by apply IH].
Qed.

Lemma valid_mask (nums : list num) :
  existsb id ((λ n, isna n || le_zero n) <$> nums) = false →
  Forall (λ n, isna n = false ∧ le_zero n = false) nums.
Proof.
  induction nums as [|n nums IH]; cbn [fmap list_fmap existsb id]; [constructor|].
  intros [[Hna Hle]%orb_false_elim Hrest]%orb_false_elim. constructor; [done|by apply IH].
Qed.

Lemma Qtrunc_pos q : Qle_bool q 0 = false → (0 ≤ Qtrunc q)%Z.
Proof.
  intros Hq. assert (0 <= q)%Q as Hle.
  { apply Qlt_le_weak, Qnot_le_lt. intros Hle%Qle_bool_iff. congruence. }
  unfold Qtrunc. apply Qle_bool_iff in Hle as Hb. rewrite Hb.
  change 0%Z with (Qfloor 0). by apply Qfloor_resp_le.
Qed.

Lemma astype_int_valid U n z :
  isna n = false → le_zero n = false → astype_int U n = Return z →
  (0 ≤ z)%Z ∨ ∃ q, (INT64_MAX < Qtrunc q)%Z ∧ z = cast_out_of_range U q.
Proof.
  destruct n as [i|q|]; cbn [isna le_zero astype_int]; intros _ Hle; [| |done].
  - intros [= <-]. apply Z.leb_gt in Hle. left. lia.
  - pose proof (Qtrunc_pos q Hle) as Hpos.
    destruct (in_int64 (Qtrunc q)) eqn:Hin; intros [= <-]; [by left|]. right.
    exists q. split; [|done]. unfold in_int64, INT64_MIN, INT64_MAX in *.
    apply andb_false_iff in Hin as [Hin|Hin]; [apply Z.leb_gt in Hin|apply Z.leb_gt in Hin]; lia.
Qed.

Lemma get_records_post U cfg :
  post (get_records U cfg) (λ r t,
    (t = [PathExists (EXCEL_FILE cfg)] ∧ r = Raise (SystemExit RecNoFile)
     ∨ t = [PathExists (EXCEL_FILE cfg); ReadExcel (EXCEL_FILE cfg) (EXCEL_SHEET cfg)])
    ∧ ∀ recs, r = Return recs →
        recs ≠ [] ∧ NoDup (pageid <$> recs)
        ∧ (Z.of_nat (length recs) ≤ MAX_FILES cfg)%Z
        ∧ Forall (λ rec, ((0 ≤ pageid rec)%Z
                          ∨ ∃ q, (INT64_MAX < Qtrunc q)%Z
                                 ∧ pageid rec = cast_out_of_range U q)
                         ∧ mid rec = py "M" ++ str_of_Z (pageid rec)
                         ∧ title rec ≠ Some []) recs).
Proof.
  unfold get_records.
  cbn [post pbind mbind io_bind call lift exit raise mret io_ret try].
  intros ex. destruct ex; cbn [negb post exit raise]; [|split; [by left|done]].
  intros r. destruct r as [|df|]; cbn [post exit raise]; try (split; [by right|done]).
  destruct (assoc _ _) as [raw_pid|]; cbn [post exit raise]; [|split; [by right|done]].
  destruct (existsb _ _) eqn:Hmask; cbn [post exit raise]; [split; [by right|done]|].
  apply valid_mask in Hmask.
  destruct (cast_all _ _) as [pageids|e] eqn:Hcast;
    cbn [post pbind mbind io_bind call lift exit raise mret io_ret];
    [|split; [by right|done]].
  apply cast_all_Forall2 in Hcast.
  match goal with |- context [dedup ∅ ?l] => set (records := l) end.
  destruct (dedup ∅ records) as [uniq dup_count] eqn:Hd.
  apply dedup_spec in Hd as (Hsub & Hnd & _ & _ & _).
  destruct (decide (uniq = [])); cbn [post exit raise]; [split; [by right|done]|].
  case_bool_decide; cbn [post exit raise mret io_ret]; [split; [by right|done]|].
  split; [by right|]. intros recs [= <-]. split_and!; [done|done|lia|].
  apply Forall_forall. intros rec Hrec. eapply elem_of_sublist in Hrec; [|done].
  apply list_elem_of_lookup in Hrec as [i Hi]. unfold records in Hi.
  apply lookup_zip_with_Some in Hi as (pid & ttl & -> & Hpid & Httl).
  cbn [pageid mid title]. split_and!; [|done|by destruct ttl as [[|]|]].
  eapply Forall2_lookup_r in Hcast as (nm & Hn & Hz); [|done].
  apply list_lookup_fmap_Some in Hn as (c & -> & Hc).
  rewrite Forall_forall in Hmask.
  destruct (Hmask (to_numeric U c)) as [Hna Hle].
  { apply list_elem_of_fmap. exists c. split; [done|]. by eapply list_elem_of_lookup_2. }
  by eapply astype_int_valid.
Qed.

Lemma run_answer {A W} (respond : ∀ e : event, W → reply e * W) e (k : reply e → prog A)
    (w : W) r :
  (respond e w).1 = r →
  run respond (Call e k) w
  = let '(a, w2, t) := run respond (k r) (respond e w).2 in (a, w2, e :: t).
Proof. intros <-. cbn [run]. by destruct (respond e w). Qed.

Lemma existsb_mask {A} (f : A → bool) (l : list A) x :
  x ∈ l → f x = true → existsb id (f <$> l) = true.
Proof.
  induction l as [|y l IH]; [by intros ?%elem_of_nil|].
  intros [->|Hx]%elem_of_cons Hf; cbn [fmap list_fmap existsb id].
  - by rewrite Hf.
  - rewrite (IH Hx Hf). apply orb_true_r.
Qed.

Lemma refused_mask U c : refused U c → isna (to_numeric U c) || le_zero (to_numeric U c) = true.
Proof.
  intros [->|[(z & -> & Hz)|[(q & -> & Hq)|(s & -> & Hs)]]]; cbn [to_numeric isna le_zero orb].
  - done.
  - by apply Z.leb_le.
  - by apply Qle_bool_iff.
  - by rewrite Hs.
Qed.

(** X10: when the identifier column of the sheet holds a blank cell, a
    number that is not positive or text that is no number, [get_records]
    stops with the invalid-values message, after having looked for the
    workbook and read it, and nothing else. *)
Theorem get_records_refuses U cfg {W} (respond : ∀ e : event, W → reply e * W) (w : W)
    df raw c :
  workbook_is cfg df respond →
  assoc (EXCEL_PAGEID_COL cfg) (columns df) = Some raw →
  c ∈ raw → refused U c →
  ∃ w', run respond (get_records U cfg) w
        = (Raise (SystemExit RecInvalidValues), w',
           [PathExists (EXCEL_FILE cfg); ReadExcel (EXCEL_FILE cfg) (EXCEL_SHEET cfg)]).
Proof.
  intros [Hex Hread] Hraw Hc Href. unfold get_records.
  cbn [pbind mbind io_bind call].
  rewrite (run_answer _ _ _ _ _ (Hex w)). cbn [negb pbind mbind io_bind call].
  rewrite (run_answer _ _ _ _ _ (Hread _)).
  rewrite Hraw.
  assert (existsb id ((λ n, isna n || le_zero n) <$> (to_numeric U <$> raw)) = true) as ->.
  { apply (existsb_mask _ _ (to_numeric U c)); [|by apply refused_mask].
    apply list_elem_of_fmap. by exists c. }
  cbn [run exit raise]. by eexists.
Qed.





(** ** The status writer *)

Lemma write_status_post U cfg statuses :
  post (write_status_to_excel U cfg statuses) (λ r t,
    let f := EXCEL_FILE cfg in
    (t = [] ∧ statuses = ∅
     ∨ statuses ≠ ∅
       ∧ (t = [PathExists f] ∨ t = [PathExists f; ReadExcel f (EXCEL_SHEET cfg)]
          ∨ t = [PathExists f; ReadExcel f (EXCEL_SHEET cfg); LoadWorkbook f]
          ∨ ∃ sheet replace df,
              t = [PathExists f; ReadExcel f (EXCEL_SHEET cfg); LoadWorkbook f;
                   WriteExcel f sheet replace df]))
    ∧ (r = Return () → statuses ≠ ∅ → ∃ sheet replace df, last t = Some (WriteExcel f sheet replace df))).
Proof.
  unfold write_status_to_excel.
  destruct (decide (statuses = ∅)) as [->|Hne]; [by split; [left|]|].
  unfold not_none.
  repeat post_step.
  all: cbn zeta; (split; [right; split; [done|]|]).
  all: try (intros ? ?; simplify_eq).
  all: try (by left).
  all: try (right; by left).
  all: try (do 2 right; by left).
  all: try (do 3 right; by eauto).
  all: try (cbn [last]; by eauto).
Qed.





Section Stamp.
Variable sc : str.
Variable ser : list (option Z).





End Stamp.




(** ** The batch runner *)

Lemma count_app c t1 t2 : count c (t1 ++ t2) = count c t1 + count c t2.
Proof. unfold count. by rewrite filter_app, length_app. Qed.

Lemma edits_app t1 t2 : edits (t1 ++ t2) = edits t1 ++ edits t2.
Proof. apply omap_app. Qed.

Lemma post_conj {A} (p : prog A) (Q1 Q2 : A → list event → Prop) :
  post p Q1 → post p Q2 → post p (λ a t, Q1 a t ∧ Q2 a t).
Proof.
  revert Q1 Q2. induction p as [a|e k IH]; intros Q1 Q2; cbn [post]; [done|].
  intros H1 H2 r. by apply (IH r (λ a t, Q1 a (e :: t)) (λ a t, Q2 a (e :: t))).
Qed.

Lemma only_fetch pid : only is_site (fetch_wikitext_by_pageid pid).
Proof.
  eapply post_mono; [|apply fetch_post]. intros r t [Ht _]. cbn beta in *.
  case_bool_decide; [by destruct Ht as [_ ->]|]. subst. by repeat constructor.
Qed.

Lemma only_save cfg pid new_text base :
  only is_site (save_wikitext_by_pageid cfg pid new_text base).
Proof.
  unfold only, save_wikitext_by_pageid, get_token, edit_with_token.
  repeat post_step; by repeat constructor.
Qed.

Lemma only_write_status U cfg statuses : only is_book (write_status_to_excel U cfg statuses).
Proof.
  eapply post_mono; [|apply write_status_post]. intros r t [Ht _]. cbn beta zeta in *.
  destruct Ht as [[-> _]|[_ [->|[->|[->|(? & ? & ? & ->)]]]]]; by repeat constructor.
Qed.

Lemma only_count (c c' : event → bool) (t : list event) :
  (∀ e, c e = true → c' e = false) → Forall (λ e, c e = true) t → count c' t = 0.
Proof.
  intros Hc. unfold count. induction 1 as [|e t He _ IH]; [done|].
  rewrite filter_cons_False; [done|]. rewrite (Hc e He). exact id.
Qed.

Lemma only_edits (t : list event) :
  Forall (λ e, is_book e = true) t → edits t = [].
Proof. induction 1 as [|e t He _ IH]; [done|]. by destruct e. Qed.

Lemma fetch_trace pid :
  post (fetch_wikitext_by_pageid pid) (λ _ t,
    count is_sleep t = 0 ∧ count is_tab t = 0 ∧ count is_write t = 0 ∧ edits t = []).
Proof.
  eapply post_mono; [|apply fetch_post]. intros r t [Ht _]. cbn beta in *.
  case_bool_decide; [by destruct Ht as [_ ->]|by subst].
Qed.

Lemma save_trace cfg pid new_text base :
  post (save_wikitext_by_pageid cfg pid new_text base) (λ r t,
    count is_sleep t = 0 ∧ count is_tab t = 0
    ∧ Forall (λ p, ep_pageid p = str_of_Z pid) (edits t) ∧ length (edits t) ≤ 2
    ∧ (∀ b, r = Return b → edits t ≠ [])).
Proof.
  eapply post_mono;
    [|apply (post_conj _ _ _ (save_post cfg pid new_text base) (only_save cfg pid new_text base))].
  intros r t [(Hret & Hlen & Hall & _) Hsite]. cbn beta in *.
  split_and!; [by eapply only_count; [|done]; intros []..| |done|by intros b [_ ?]%Hret].
  eapply Forall_impl; [done|]. by intros p (? & _).
Qed.

Lemma write_status_trace U cfg statuses :
  post (write_status_to_excel U cfg statuses) (λ r t,
    count is_sleep t = 0 ∧ count is_tab t = 0 ∧ edits t = []).
Proof.
  eapply post_mono; [|apply only_write_status]. intros r t Hbook. cbn beta in *.
  split_and!; [by eapply only_count; [|done]; intros []..|by apply only_edits].
Qed.

Lemma open_after_success_post cfg pid st :
  post (open_after_success cfg pid st) (λ x t,
    x.2 = Return () ∧ status_by_pageid x.1 = status_by_pageid st
    ∧ count is_sleep t = 0 ∧ edits t = [] ∧ tab_step cfg st x.1 t).
Proof.
  unfold open_after_success, try, open_page_in_browser.
  destruct (bool_decide _ && bool_decide _) eqn:Hcond.
  - apply andb_true_iff in Hcond as [Ha%bool_decide_eq_true Hb%bool_decide_eq_true].
    cbn [post pbind mbind io_bind call mret io_ret]. intros r.
    split_and!; [done..|]. right. by split_and!.
  - cbn [post]. split_and!; [done..|]. by left.
Qed.

Lemma tab_step_shift cfg st st1 st' t1 t :
  opened st1 = opened st → count is_tab t1 = 0 →
  tab_step cfg st1 st' t → tab_step cfg st st' (t1 ++ t).
Proof.
  intros Ho Ht [[? ?]|(? & ? & ? & ?)]; [left|right]; rewrite count_app, Ht; rewrite <-Ho;
    by split_and!.
Qed.

Lemma attempt_post U cfg pid st :
  post (attempt U cfg (write_status_to_excel U cfg) pid st) (attempted cfg pid st).
Proof.
  unfold attempt, try.
  apply post_bind. eapply post_mono; [|apply fetch_trace].
  intros fetched t1 (Hs1 & Ht1 & Hw1 & He1). cbn beta.
  assert (∀ e, attempted cfg pid st (st, Raise e) (t1 ++ [])) as Hfail.
  { intros e. rewrite app_nil_r. unfold attempted. cbn [fst snd]. rewrite He1.
    split_and!; [done|by left|done|simpl; lia|done]. }
  destruct fetched as [[text base]|e]; [|apply Hfail].
  destruct (transform_wikitext U text) as [new_text|e]; [|apply Hfail].
  destruct (decide (new_text = text)) as [_|_].
  { cbn [post]. rewrite app_nil_r. unfold attempted. cbn [fst snd]. rewrite He1.
    split_and!; [done|by left|done|simpl; lia|].
    exists STATUS_SKIPPED_NO_OLD. by split_and!. }
  apply post_bind. eapply post_mono; [|apply save_trace].
  intros saved t2 (Hs2 & Ht2 & Hall2 & Hlen2 & He2). cbn beta.
  destruct saved as [b|e].
  2:{ cbn [post]. rewrite app_nil_r. unfold attempted. cbn [fst snd].
      rewrite !count_app, edits_app, He1, Hs1, Hs2.
      split_and!; [done|left; by rewrite count_app, Ht1, Ht2|done|done|done]. }
  specialize (He2 b eq_refl). cbn zeta.
  set (st1 := {| status_by_pageid := <[pid:=STATUS_PROCESSED]> (status_by_pageid st);
                 opened := opened st;
                 successes_since_flush := (successes_since_flush st + 1)%Z;
                 total_successes := (total_successes st + 1)%Z |}).
  assert (∀ st2 t3,
    status_by_pageid st2 = <[pid:=STATUS_PROCESSED]> (status_by_pageid st) →
    opened st2 = opened st →
    count is_sleep t3 = 0 → count is_tab t3 = 0 → edits t3 = [] →
    post (open_after_success cfg pid st2)
      (λ x t4, attempted cfg pid st x (t1 ++ t2 ++ t3 ++ t4))) as Hopen.
  { intros st2 t3 Hst2 Ho2 Hs3 Ht3 He3.
    eapply post_mono; [|apply open_after_success_post].
    intros [st' out] t4 (Hout & Hst' & Hs4 & He4 & Htab). cbn [fst snd] in *.
    unfold attempted. cbn [fst snd]. subst out.
    rewrite !count_app, !edits_app, He1, He3, He4, Hs1, Hs2, Hs3, Hs4, app_nil_r.
    split_and!; [done| |done|done|].
    - rewrite !(assoc_L (++)). apply (tab_step_shift _ _ st2); [done| |done].
      by rewrite !count_app, Ht1, Ht2, Ht3.
    - exists STATUS_PROCESSED. rewrite Hst', Hst2. by split_and!. }
  destruct (bool_decide _ && bool_decide _).
  - apply post_bind. eapply post_mono; [|apply write_status_trace].
    intros written t3 (Hs3 & Ht3 & He3). cbn beta.
    destruct written as [[]|[why|what]].
    + eapply post_mono; [|by apply (Hopen _ t3)]. done.
    + cbn [post]. unfold attempted. cbn [fst snd status_by_pageid opened].
      rewrite !app_nil_r, !count_app, !edits_app, He1, He3, Hs1, Hs2, Hs3, app_nil_r.
      split_and!; [done| |done|done|unfold st1; cbn [status_by_pageid]; by rewrite insert_insert_eq].
      left. by rewrite !count_app, Ht1, Ht2, Ht3.
    + eapply post_mono; [|by apply (Hopen _ t3)]. done.
  - eapply post_mono; [|by apply (Hopen st1 [])]. done.
Qed.

Lemma process_one_post U cfg total idx rec st :
  (0 < pageid rec)%Z →
  post (process_one U cfg (write_status_to_excel U cfg) total idx rec st)
       (turned cfg total idx (pageid rec) st).
Proof.
  intros Hpid. unfold process_one. rewrite bool_decide_false by lia.
  apply post_bind. eapply post_mono; [|apply attempt_post].
  intros [st1 outcome] t1 (Hs1 & Htab & Hall & Hlen & Hout). cbn [fst snd] in *.
  set (st2 := match outcome with
              | Return _ => st1
              | Raise _ => set_status (pageid rec) STATUS_ERROR st1
              end).
  assert (opened st2 = opened st1) as Ho by (unfold st2; by destruct outcome).
  assert (∃ s, status_by_pageid st2 = <[pageid rec := s]> (status_by_pageid st)
               ∧ (s = STATUS_SKIPPED_NO_OLD → count is_write t1 = 0)
               ∧ (s = STATUS_PROCESSED → edits t1 ≠ [])) as Hst.
  { unfold st2. destruct outcome as [[]|e].
    - destruct Hout as (s & ? & _ & ? & ?). by exists s.
    - exists STATUS_ERROR. by rewrite <-Hout. }
  assert (tab_step cfg st st2 t1) as Htab2.
  { destruct Htab as [[? ?]|(? & ? & ? & ?)]; [left|right]; rewrite Ho; by split_and!. }
  fold (sleeps_after cfg total idx). unfold turned.
  destruct (sleeps_after cfg total idx).
  - unfold try. cbn [post pbind call]. intros _. exists st2.
    rewrite count_app, edits_app, Hs1, app_nil_r. split_and!; try done.
    + destruct Htab2 as [[? ?]|(? & ? & ? & ?)]; [left|right]; rewrite count_app;
        split_and!; try done; by rewrite Nat.add_0_r.
    + destruct Hst as (s & ? & Hskip & ?). exists s. split_and!; [done| |done].
      intros ?. rewrite count_app, Hskip by done. done.
  - cbn [post]. exists st2. rewrite app_nil_r. by split_and!.
Qed.



Lemma process_loop_bad U cfg total idx good bad rest st :
  Forall (λ rec, 0 < pageid rec)%Z good → (pageid bad ≤ 0)%Z →
  post (process_loop U cfg (write_status_to_excel U cfg) total idx (good ++ bad :: rest) st)
       (λ r t, r = Raise (SystemExit (ProcBadPageid (idx + length good)))
               ∧ Forall (λ p, ∃ rec, rec ∈ good ∧ ep_pageid p = str_of_Z (pageid rec)) (edits t)).
Proof.
  revert idx st. induction good as [|rec good IH]; intros idx st Hpos Hbad.
  - cbn [app process_loop]. unfold process_one. rewrite bool_decide_true by done.
    cbn [post exit raise mbind io_bind pbind length]. by rewrite Nat.add_0_r.
  - apply Forall_cons in Hpos as [Hpid Hpos]. cbn [app process_loop].
    apply post_io_bind. eapply post_mono; [|by apply process_one_post].
    intros r t1 (st1 & -> & _ & _ & Hall1 & _).
    eapply post_mono; [|by apply (IH (S idx) st1)].
    intros r t2 [-> Hall2]. split; [f_equal; f_equal; f_equal; simpl; lia|].
    rewrite edits_app. apply Forall_app. split.
    + eapply Forall_impl; [done|]. intros p ?. exists rec. split; [by left|done].
    + eapply Forall_impl; [done|]. intros p (rec' & ? & ?). exists rec'. split; [by right|done].
Qed.

(** X19: when the page that was fetched has no old block, or cannot be
    transformed, the turn of the loop issues nothing after the fetch but
    the sleep between records: nothing is edited, and the record is marked
    as skipped in the first case and as an error in the second. *)
Theorem process_one_untouched U cfg {W} (respond : ∀ e : event, W → reply e * W) (w w1 : W)
    total idx rec st text base t1 :
  (0 < pageid rec)%Z →
  run respond (fetch_wikitext_by_pageid (pageid rec)) w = (Return (text, base), w1, t1) →
  match transform_wikitext U text with
  | Return new_text => new_text = text
  | Raise _ => True
  end →
  ∃ w',
    run respond (process_one U cfg (write_status_to_excel U cfg) total idx rec st) w
    = (Return (set_status (pageid rec)
                 match transform_wikitext U text with
                 | Return _ => STATUS_SKIPPED_NO_OLD
                 | Raise _ => STATUS_ERROR
                 end st),
       w',
       t1 ++ if sleeps_after cfg total idx then [Sleep (EDIT_SLEEP_SEC cfg)] else []).
Proof.
  intros Hpid Hfetch Hsame. unfold process_one. rewrite bool_decide_false by lia.
  rewrite run_bind. unfold attempt, try. rewrite run_bind, Hfetch.
  fold (sleeps_after cfg total idx).
  destruct (transform_wikitext U text) as [new_text|e].
  - rewrite decide_True by done. cbn [run].
    destruct (sleeps_after cfg total idx).
    + cbn [run pbind call]. destruct (respond (Sleep _) w1) as [? w2].
      rewrite app_nil_r. by eexists.
    + cbn [run]. rewrite !app_nil_r. by eexists.
  - cbn [run].
    destruct (sleeps_after cfg total idx).
    + cbn [run pbind call]. destruct (respond (Sleep _) w1) as [? w2].
      rewrite app_nil_r. by eexists.
    + cbn [run]. rewrite !app_nil_r. by eexists.
Qed.

Lemma attempt_guarded_run U cfg {W} (respond : ∀ e : event, W → reply e * W) (w w1 : W)
    pid st text base t1 new_text :
  run respond (fetch_wikitext_by_pageid pid) w = (Return (text, base), w1, t1) →
  transform_wikitext U text = Return new_text → new_text ≠ text →
  ∃ x w' t2,
    run respond (attempt U cfg (write_status_to_excel U cfg) pid st) w = (x, w', t1 ++ t2)
    ∧ Forall (same_edit cfg pid new_text (Some base)) (edits t2).
Proof.
  intros Hfetch Hnew Hdiff.
  unfold attempt, try. rewrite run_bind, Hfetch, Hnew.
  rewrite decide_False by done. rewrite run_bind.
  pose proof (post_run respond _ _ w1 (save_post cfg pid new_text (Some base))) as Hsave.
  destruct (run respond (save_wikitext_by_pageid cfg pid new_text (Some base)) w1)
    as [[saved w2] t2] eqn:Hs. cbn [fst snd] in Hsave.
  destruct Hsave as (_ & _ & Hall & _).
  match goal with
  | |- context [run respond ?p w2] => assert (post p (λ _ t, edits t = [])) as Hp
  end.
  { destruct saved as [b|e]; [|done]. cbn zeta.
    assert (∀ st2 t3, edits t3 = [] →
              post (open_after_success cfg pid st2) (λ _ t4, edits (t3 ++ t4) = [])) as Hopen.
    { intros st2 t3 He3. eapply post_mono; [|apply open_after_success_post].
      intros x t4 (_ & _ & _ & He4 & _). by rewrite edits_app, He3, He4. }
    destruct (bool_decide _ && bool_decide _).
    - apply post_bind. eapply post_mono; [|apply write_status_trace].
      intros written t3 (_ & _ & He3). cbn beta.
      destruct written as [[]|[why|what]]; [by apply Hopen| |by apply Hopen].
      cbn [post]. by rewrite app_nil_r.
    - by apply (Hopen _ []). }
  pose proof (post_run respond _ _ w2 Hp) as He3.
  destruct (run respond _ w2) as [[x w3] t3]. cbn [fst snd] in He3.
  exists x, w3, (t2 ++ t3). split; [done|]. by rewrite edits_app, He3, app_nil_r.
Qed.

(** X20: when the page that was fetched is transformed into a different
    text, every edit call of the turn is for this page, sends exactly the
    transformed text, and carries the timestamp of the revision that was
    read; no edit is sent before the fetch has returned. *)
Theorem process_one_guarded U cfg {W} (respond : ∀ e : event, W → reply e * W) (w w1 : W)
    total idx rec st text base t1 new_text :
  (0 < pageid rec)%Z →
  run respond (fetch_wikitext_by_pageid (pageid rec)) w = (Return (text, base), w1, t1) →
  transform_wikitext U text = Return new_text → new_text ≠ text →
  ∃ r w' t2,
    run respond (process_one U cfg (write_status_to_excel U cfg) total idx rec st) w
    = (r, w', t1 ++ t2)
    ∧ edits t1 = []
    ∧ Forall (same_edit cfg (pageid rec) new_text (Some base)) (edits t2).
Proof.
  intros Hpid Hfetch Hnew Hdiff.
  assert (edits t1 = []) as He1.
  { pose proof (post_run respond _ _ w (fetch_trace (pageid rec))) as H.
    rewrite Hfetch in H. by destruct H as (_ & _ & _ & ?). }
  destruct (attempt_guarded_run U cfg respond w w1 (pageid rec) st text base t1 new_text)
    as ([st1 outcome] & w2 & t2 & Hrun & Hall); [done..|].
  unfold process_one. rewrite bool_decide_false by lia.
  rewrite run_bind, Hrun. fold (sleeps_after cfg total idx).
  destruct (sleeps_after cfg total idx).
  - cbn [run pbind call try]. destruct (respond (Sleep _) w2) as [? w3].
    eexists _, _, (t2 ++ [Sleep (EDIT_SLEEP_SEC cfg)]).
    split; [by rewrite <-(assoc_L (++))|]. split; [done|].
    by rewrite edits_app, app_nil_r.
  - cbn [run]. eexists _, _, t2. split; [by rewrite app_nil_r|]. done.
Qed.

(** ** The whole run *)

Lemma post_any {A} (p : prog A) : post p (λ _ _, True).
Proof. induction p as [a|e k IH]; cbn [post]; [done|]. intros r. apply IH. Qed.

Lemma main_post U cfg :
  post (main U cfg) (λ r t,
    (r = Return () ∨ ∃ why, r = Raise (SystemExit why)) ∧ main_order cfg t).
Proof.
  unfold main, try. apply post_bind.
  match goal with
  | |- post ?body _ => assert (post body (λ _ t, main_order cfg t)) as Hbody
  end.
  { unfold main_order. cbn zeta.
    apply post_io_bind. eapply post_mono; [|apply get_records_post].
    intros r t1 [Ht1 _]. cbn beta. destruct r as [recs|e].
    2:{ destruct Ht1 as [[-> _]| ->]; [by left|right; by left]. }
    destruct Ht1 as [[_ ?]| ->]; [done|].
    cbn [lift mbind io_bind pbind].
    destruct (apply_slice_records U cfg recs) as [recs'|e]; [|right; by left].
    destruct (decide (recs' = [])); [right; by left|].
    cbn [post pbind mbind io_bind call exit raise]. intros connected.
    destruct connected; cbn [negb post pbind mbind io_bind call exit raise];
      [|do 2 right; by left].
    intros l. destruct l; cbn [post exit raise]; [|do 3 right; by eexists..].
    eapply post_mono; [|apply post_any]. intros r t2 _. do 3 right. by eexists. }
  eapply post_mono; [|exact Hbody]. intros r t Ht. cbn beta.
  destruct r as [[]|[why|what]]; cbn [post exit raise]; rewrite app_nil_r;
    (split; [|done]); eauto.
Qed.

(** ** More on the deriver and the transformer *)

(** X1: whenever [derive_delpher_urn] returns a URN, the identifier
    without its surrounding white space is PREFIX "_" NUMBER followed by
    nothing or by an underscore-led suffix, with PREFIX a non-empty run of
    ASCII letters and digits and NUMBER a non-empty run of ASCII digits,
    and the URN is PREFIX ":" NUMBER: no other string is ever returned. *)
Theorem derive_delpher_urn_returns U ia_id urn :
  derive_delpher_urn U ia_id = Return urn →
  ∃ P N suffix, strip ia_id = P ++ ch "_" :: N ++ suffix
    ∧ well_formed P N suffix ∧ urn = P ++ py ":" ++ N.
Proof.
  unfold derive_delpher_urn. case_bool_decide; [done|]. cbn zeta.
  destruct (re_match _ _ _ _) as [m|] eqn:Hm; [|done].
  apply match_at_sound in Hm as (u & rest & Hs & Hd & _ & _).
  apply urn_invert in Hd as (P & N & suffix & -> & Hwf & Hrest & Hp & Hn).
  assert (rest = []) as ->.
  { destruct Hrest as [->| ->]; [done|]. exfalso.
    unfold strip in Hs. by apply rstrip_last in Hs. }
  rewrite app_nil_r in Hs.
  intros [= <-]. exists P, N, suffix. split; [done|]. split; [done|].
  unfold group. rewrite Hp, Hn. cbn [fmap option_fmap option_map fmt_group default fst snd].
  rewrite Hs. f_equal; [|f_equal].
  - apply (slice_app [] P).
  - replace (P ++ ch "_" :: N ++ suffix) with ((P ++ [ch "_"]) ++ N ++ suffix)
      by (rewrite <-!(assoc_L (++)); by cbn [app]).
    replace (S (length P)) with (length (P ++ [ch "_"])) by (rewrite length_app; simpl; lia).
    apply slice_app.
Qed.

(** X2: [transform_wikitext] returns its input exactly when the input has
    no old block; so the test [new_text == text] of the batch runner
    recognises the pages without an old block, and only those. *)
Theorem transform_wikitext_unchanged U text :
  transform_wikitext U text = Return text ↔ finditer U OLD_FLAGS OLD_BLOCK_RE text = [].
Proof.
  split.
  - intros Ht. destruct (finditer U OLD_FLAGS OLD_BLOCK_RE text) as [|m [|m2 l]] eqn:Hm.
    + done.
    + pose proof (transform_wikitext_clean U text m text Hm Ht) as Hclean.
      apply clean_from_finditer in Hclean. congruence.
    + unfold transform_wikitext in Ht. by rewrite Hm in Ht.
  - intros Hm. unfold transform_wikitext. by rewrite Hm.
Qed.

Lemma strip_nil s : strip s = [] → spaces s.
Proof.
  intros Hs. destruct (strip_infix s) as (w1 & w2 & Heq & Hw1 & Hw2).
  rewrite Heq, Hs. apply Forall_app. split; [done|]. by apply Forall_app.
Qed.

Lemma strip_strip_nil s : strip (strip s) = [] → strip s = [].
Proof.
  intros Hs%strip_nil. destruct (strip s) as [|x t] eqn:Ht; [done|].
  exfalso. apply Forall_cons in Hs as [Hx _]. unfold strip in Ht.
  (* the first character of a stripped string is not white space *)
  assert (lstrip s = rstrip (lstrip s) ++ drop (length (rstrip (lstrip s))) (lstrip s)) as Hl.
  { destruct (rstrip_prefix (lstrip s)) as (w & Hw & _). rewrite Hw at 1.
    f_equal. rewrite Hw at 2. by rewrite drop_app_length. }
  rewrite Ht in Hl. cbn [app] in Hl. apply lstrip_head in Hl. congruence.
Qed.

Lemma pdf_url_head U PDF :
  lang U OLD_FLAGS PDF_URL PDF → ∃ x t, PDF = x :: t ∧ unicode_space x = false.
Proof.
  unfold lang, PDF_URL. intros (pos & rest & c & c' & H).
  cbn [derives lit chr] in H.
  destruct H as (http & u1 & c1 & -> & H & _).
  destruct H as (h & u2 & c2 & -> & (x & -> & Hx & ->) & _).
  exists x, (u2 ++ u1). split; [done|].
  rewrite old_class_lit in Hx. unfold ci_eq in Hx.
  destruct (unicode_space x) eqn:Hsp; [|done]. exfalso.
  unfold unicode_space, in_range in Hsp.
  cbn [andb] in Hx. rewrite !orb_false_r in Hx.
  change (swapcase (ch "h")) with 72%N in Hx. change (ch "h") with 104%N in Hx.
  apply orb_true_iff in Hx as [Hx|Hx]; apply N.eqb_eq in Hx; subst x; done.
Qed.

Lemma derive_delpher_urn_Raise U ia_id e :
  derive_delpher_urn U ia_id = Raise e → MalformedIdentifier e.
Proof.
  unfold derive_delpher_urn. case_bool_decide; [intros [= <-]; by left|]. cbn zeta.
  destruct (re_match _ _ _ _); [done|]. intros [= <-]. by right.
Qed.

(** X3: when [transform_wikitext] fails it is with [SystemExit], for one
    of four reasons: two or more old blocks; or, with exactly one old
    block, an identifier that is blank, an identifier that is not of the
    shape PREFIX_NUMBER, or a URL that the case-sensitive check of
    [build_new_source_block] refuses.  The other failures of the builder
    and the errors of a missing group cannot happen. *)
Theorem transform_wikitext_failures U text e :
  transform_wikitext U text = Raise e →
  let n := length (finditer U OLD_FLAGS OLD_BLOCK_RE text) in
  (2 ≤ n ∧ e = SystemExit (TransformMultiple n))
  ∨ (n = 1 ∧ (e = SystemExit UrnEmptyIaId ∨ e = SystemExit UrnInvalidIaId
              ∨ e = SystemExit BlockInvalidPdfUrl)).
Proof.
  intros Ht. cbn zeta.
  destruct (finditer U OLD_FLAGS OLD_BLOCK_RE text) as [|m [|m2 l]] eqn:Hm.
  - unfold transform_wikitext in Ht. by rewrite Hm in Ht.
  - right. split; [done|].
    destruct (finditer_single_cut U text m Hm)
      as (before & P & O & w & I & Cl & w7 & w8 & PDF & T & after & _ & _ & _
          & _ & _ & _ & _ & _ & _ & _ & HPDF & _ & Hgp & Hgi & Hgpdf).
    unfold transform_wikitext in Ht. rewrite Hm, Hgp, Hgi, Hgpdf in Ht.
    cbn [not_none fmap result_fmap mbind result_bind] in Ht.
    destruct (derive_delpher_urn U (strip I)) as [urn|e'] eqn:Hurn.
    2:{ cbn [mbind result_bind] in Ht. injection Ht as <-.
        apply derive_delpher_urn_Raise in Hurn as [->| ->]; auto. }
    cbn [mbind result_bind] in Ht.
    unfold build_new_source_block in Ht.
    rewrite bool_decide_false in Ht.
    2:{ intros Hnil. unfold derive_delpher_urn in Hurn.
        by rewrite bool_decide_true in Hurn. }
    rewrite bool_decide_false in Ht.
    2:{ intros Hnil%strip_strip_nil%strip_nil.
        apply pdf_url_head in HPDF as (x & t & -> & Hx).
        apply Forall_cons in Hnil as [? _]. congruence. }
    cbn zeta in Ht. destruct (re_match _ _ _ _); [|injection Ht as <-; auto].
    rewrite Hurn in Ht. done.
  - left. unfold transform_wikitext in Ht. rewrite Hm in Ht. injection Ht as <-.
    split; [simpl; lia|done].
Qed.

(** ** More on the slicer *)

(** X4: what [apply_slice_records] returns is a run of consecutive
    records of the worklist, within its bounds, and it is not empty unless
    the worklist is. *)
Theorem apply_slice_records_contiguous U cfg records l :
  apply_slice_records U cfg records = Return l →
  ∃ i n, l = take n (drop i records) ∧ i + n ≤ length records
         ∧ (records ≠ [] → 0 < n).
Proof.
  unfold apply_slice_records. cbn zeta.
  destruct (decide (length records = 0)) as [Hz|Hnz].
  { intros [= <-]. exists 0, 0. destruct records; [|simpl in Hz; lia]. by split_and!. }
  assert (records = take (length records) (drop 0 records)) as Hall
    by (by rewrite drop_0, firstn_all).
  destruct (bool_decide (strip (RANGE cfg) ≠ []) && bool_decide (HEAD cfg > 0)%Z); [done|].
  destruct (bool_decide (strip (RANGE cfg) ≠ [])).
  - destruct (re_match _ _ _ _) as [m|]; [|done].
    destruct (not_none "TypeError" (group (RANGE cfg) m "1") ≫= int_of_digits U)
      as [start|]; cbn [mbind result_bind]; [|done].
    destruct (not_none "TypeError" (group (RANGE cfg) m "2") ≫= int_of_digits U)
      as [stop|]; cbn [mbind result_bind]; [|done].
    case_bool_decide; [done|]. case_bool_decide; [done|]. intros [= <-].
    exists (Z.to_nat (start - 1)), (Z.to_nat stop - Z.to_nat (start - 1)).
    split; [done|]. lia.
  - destruct (bool_decide (HEAD cfg > 0)%Z).
    + case_bool_decide; [done|]. intros [= <-]. exists 0, (Z.to_nat (HEAD cfg)).
      split; [by rewrite drop_0|]. lia.
    + intros [= <-]. exists 0, (length records). split; [done|]. lia.
Qed.

Lemma no_class_space U x : cmatch U NO_FLAGS (OneOf [CatSpace]) x = unicode_space x.
Proof. unfold cmatch. simpl. by rewrite orb_false_r. Qed.

Lemma no_class_digit U x :
  (x < 128)%N → cmatch U NO_FLAGS (OneOf [CatDigit]) x = ascii_digit x.
Proof.
  intros Hx%N.ltb_lt. unfold cmatch. simpl. rewrite orb_false_r. unfold is_digit.
  by rewrite Hx.
Qed.

Lemma no_class_sep U x :
  cmatch U NO_FLAGS (OneOf [Lit (ch "-"); Lit (ch ":")]) x = true ↔ x = ch "-" ∨ x = ch ":".
Proof.
  unfold cmatch. simpl. rewrite orb_false_r, orb_true_iff, !N.eqb_eq. done.
Qed.

Lemma ascii_space_unicode x : ascii_space x = true → unicode_space x = true.
Proof.
  unfold ascii_space, unicode_space, in_range.
  intros [H|H%N.eqb_eq]%orb_true_iff.
  - by rewrite H.
  - subst x. done.
Qed.

Lemma ascii_space_low x : ascii_space x = true → (x < 128)%N.
Proof.
  unfold ascii_space, in_range.
  intros [[_ H%N.leb_le]%andb_true_iff|H%N.eqb_eq]%orb_true_iff; lia.
Qed.

Lemma ascii_digit_low x : ascii_digit x = true → (x < 128)%N.
Proof. unfold ascii_digit, in_range. intros [_ H%N.leb_le]%andb_true_iff. lia. Qed.

Lemma space_not_digit x : unicode_space x = true → ascii_digit x = false.
Proof.
  unfold ascii_digit, in_range. intros Hs.
  destruct ((48 <=? x)%N && (x <=? 57)%N) eqn:Hd; [|done].
  apply andb_true_iff in Hd as [H1%N.leb_le H2%N.leb_le].
  exfalso. unfold unicode_space, in_range in Hs.
  repeat (apply orb_true_iff in Hs as [Hs|Hs]);
    repeat match goal with
           | H : (_ && _) = true |- _ => apply andb_true_iff in H as [?%N.leb_le ?%N.leb_le]
           | H : (_ =? _)%N = true |- _ => apply N.eqb_eq in H
           end; lia.
Qed.

Lemma no_ws_star U pos u rest c c' :
  derives U NO_FLAGS ws_star pos u rest c c' ↔ spaces u ∧ c' = c.
Proof.
  unfold ws_star. cbn [derives]. unfold spaces. split.
  - intros (Hu & _ & ->). split; [|done].
    eapply Forall_impl; [exact Hu|]. intros x Hx. by rewrite <-(no_class_space U).
  - intros (Hu & ->). split; [|split; [lia|done]].
    eapply Forall_impl; [exact Hu|]. intros x Hx. by rewrite no_class_space.
Qed.

Lemma range_invert U pos u rest c c' :
  derives U NO_FLAGS RANGE_RE pos u rest c c' →
  ∃ w0 D1 w1 sep w2 D2 w3,
    u = w0 ++ D1 ++ w1 ++ sep :: w2 ++ D2 ++ w3
    ∧ spaces w0 ∧ spaces w1 ∧ spaces w2 ∧ spaces w3
    ∧ D1 ≠ [] ∧ Forall (λ x, cmatch U NO_FLAGS (OneOf [CatDigit]) x = true) D1
    ∧ D2 ≠ [] ∧ Forall (λ x, cmatch U NO_FLAGS (OneOf [CatDigit]) x = true) D2
    ∧ (sep = ch "-" ∨ sep = ch ":")
    ∧ (rest = [] ∨ rest = [NL])
    ∧ c' !! "1" = Some (length w0, length w0 + length D1)
    ∧ c' !! "2" = Some (length (w0 ++ D1 ++ w1 ++ [sep] ++ w2),
                        length (w0 ++ D1 ++ w1 ++ [sep] ++ w2) + length D2).
Proof.
  unfold RANGE_RE. cbn [derives].
  intros (u0 & u1 & c0 & -> & (-> & -> & ->) & H).
  destruct H as (w0 & u2 & c1 & -> & Hw0 & H).
  destruct H as (D1 & u3 & c2 & -> & (c3 & (HD1 & HD1len & ->) & ->) & H).
  destruct H as (w1 & u4 & c4 & -> & Hw1 & H).
  destruct H as (s & u5 & c5 & -> & (sep & -> & Hsep & ->) & H).
  destruct H as (w2 & u6 & c6 & -> & Hw2 & H).
  destruct H as (D2 & u7 & c7 & -> & (c8 & (HD2 & HD2len & ->) & ->) & H).
  destruct H as (w3 & u8 & c9 & -> & Hw3 & (-> & Hrest & ->)).
  apply no_ws_star in Hw0 as [Hw0 ->], Hw1 as [Hw1 ->], Hw2 as [Hw2 ->], Hw3 as [Hw3 ->].
  apply no_class_sep in Hsep.
  exists w0, D1, w1, sep, w2, D2, w3. rewrite app_nil_r. cbn [app length] in *.
  split_and!; try done.
  - intros ->. simpl in *. lia.
  - intros ->. simpl in *. lia.
  - rewrite lookup_insert_ne by done. rewrite lookup_insert_eq. f_equal.
  - rewrite lookup_insert_eq. f_equal. rewrite !length_app. cbn [length].
    f_equal; lia.
Qed.

Lemma blanks_spaces w : blanks w → spaces w.
Proof. intros Hw. eapply Forall_impl; [exact Hw|]. intros x. apply ascii_space_unicode. Qed.

Lemma range_derives U w0 D1 w1 sep w2 D2 w3 :
  blanks w0 → blanks w1 → blanks w2 → blanks w3 → digits D1 → digits D2 →
  sep = ch "-" ∨ sep = ch ":" →
  ∃ c', derives U NO_FLAGS RANGE_RE 0 (w0 ++ D1 ++ w1 ++ sep :: w2 ++ D2 ++ w3) [] ∅ c'.
Proof.
  intros Hw0%blanks_spaces Hw1%blanks_spaces Hw2%blanks_spaces Hw3%blanks_spaces
    [HD1 HD1d] [HD2 HD2d] Hsep.
  assert (∀ D, Forall (λ x, ascii_digit x = true) D →
               Forall (λ x, cmatch U NO_FLAGS (OneOf [CatDigit]) x = true) D) as Hdig.
  { intros D HD. eapply Forall_impl; [exact HD|]. intros x Hx.
    rewrite no_class_digit; [done|by apply ascii_digit_low]. }
  eexists. unfold RANGE_RE. cbn [derives].
  eexists [], _, _. split; [done|]. split; [done|].
  eexists w0, _, _. split; [done|]. split; [by apply no_ws_star|].
  eexists D1, _, _. split; [done|]. split.
  { eexists. split; [|done]. split; [by apply Hdig|]. split; [|done].
    destruct D1; [done|simpl; lia]. }
  eexists w1, _, _. split; [done|]. split; [by apply no_ws_star|].
  eexists [sep], _, _. split; [done|]. split.
  { exists sep. split; [done|]. split; [by apply no_class_sep|done]. }
  eexists w2, _, _. split; [done|]. split; [by apply no_ws_star|].
  eexists D2, _, _. split; [done|]. split.
  { eexists. split; [|done]. split; [by apply Hdig|]. split; [|done].
    destruct D2; [done|simpl; lia]. }
  eexists w3, [], _. split; [by rewrite app_nil_r|]. split; [by apply no_ws_star|].
  split; [done|]. split; [by left|done].
Qed.

Lemma stops_digit_space w t : spaces w → stops ascii_digit t → stops ascii_digit (w ++ t).
Proof.
  intros Hw Ht. destruct w as [|x w]; [done|]. cbn [app stops].
  apply Forall_cons in Hw as [Hx _]. by apply space_not_digit.
Qed.

Lemma stops_space_digit D t :
  D ≠ [] → Forall (λ x, ascii_digit x = true) D → stops unicode_space (D ++ t).
Proof.
  intros HD Hd. destruct D as [|x D]; [done|]. cbn [app stops].
  apply Forall_cons in Hd as [Hx _].
  destruct (unicode_space x) eqn:Hs; [|done]. apply space_not_digit in Hs. congruence.
Qed.

Lemma range_groups U w0 D1 w1 sep w2 D2 w3 :
  blanks w0 → blanks w1 → blanks w2 → blanks w3 → digits D1 → digits D2 →
  sep = ch "-" ∨ sep = ch ":" →
  let text := w0 ++ D1 ++ w1 ++ sep :: w2 ++ D2 ++ w3 in
  ∃ m, re_match U NO_FLAGS RANGE_RE text = Some m
    ∧ group text m "1" = Some D1 ∧ group text m "2" = Some D2.
Proof.
  intros Hw0 Hw1 Hw2 Hw3 HD1 HD2 Hsep text.
  destruct (range_derives U w0 D1 w1 sep w2 D2 w3) as [c' Hd]; [done..|].
  apply match_at_complete in Hd as [m Hm]. rewrite app_nil_r in Hm.
  exists m. split; [done|].
  apply match_at_sound in Hm as (u & rest & Hu & Hder & _ & _).
  apply range_invert in Hder
    as (w0' & D1' & w1' & sep' & w2' & D2' & w3' & -> & Hw0' & Hw1' & Hw2' & Hw3'
        & HD1' & HD1d' & HD2' & HD2d' & Hsep' & Hrest & Hg1 & Hg2).
  (* every character of the text is below 128 *)
  assert (Forall (λ x, (x < 128)%N) text) as Hlow.
  { unfold text. destruct HD1 as [_ HD1], HD2 as [_ HD2].
    repeat first [ apply Forall_app; split | apply Forall_cons; split ].
    - eapply Forall_impl; [exact Hw0|]. apply ascii_space_low.
    - eapply Forall_impl; [exact HD1|]. apply ascii_digit_low.
    - eapply Forall_impl; [exact Hw1|]. apply ascii_space_low.
    - by destruct Hsep as [-> | ->].
    - eapply Forall_impl; [exact Hw2|]. apply ascii_space_low.
    - eapply Forall_impl; [exact HD2|]. apply ascii_digit_low.
    - eapply Forall_impl; [exact Hw3|]. apply ascii_space_low. }
  rewrite <-!(assoc_L (++)) in Hu. cbn [app] in Hu. rewrite <-!(assoc_L (++)) in Hu.
  assert (Forall (λ x, ascii_digit x = true) D1' ∧ Forall (λ x, ascii_digit x = true) D2')
    as [HA1 HA2].
  { fold text in Hu. rewrite Hu in Hlow.
    apply Forall_app in Hlow as [_ Hlow]. apply Forall_app in Hlow as [L1 Hlow].
    apply Forall_app in Hlow as [_ Hlow]. apply Forall_cons in Hlow as [_ Hlow].
    apply Forall_app in Hlow as [_ Hlow]. apply Forall_app in Hlow as [L2 _].
    split.
    - apply Forall_forall. intros x Hx. rewrite Forall_forall in L1, HD1d'.
      rewrite <-(no_class_digit U); [by apply HD1d'|by apply L1].
    - apply Forall_forall. intros x Hx. rewrite Forall_forall in L2, HD2d'.
      rewrite <-(no_class_digit U); [by apply HD2d'|by apply L2]. }
  destruct HD1 as [HD1 HD1d], HD2 as [HD2 HD2d].
  assert (stops ascii_digit (sep :: w2 ++ D2 ++ w3)) as Hs1 by (by destruct Hsep as [-> | ->]).
  assert (stops ascii_digit (sep' :: w2' ++ D2' ++ w3' ++ rest)) as Hs1'
    by (by destruct Hsep' as [-> | ->]).
  assert (stops unicode_space (sep :: w2 ++ D2 ++ w3)) as Hs2 by (by destruct Hsep as [-> | ->]).
  assert (stops unicode_space (sep' :: w2' ++ D2' ++ w3' ++ rest)) as Hs2'
    by (by destruct Hsep' as [-> | ->]).
  assert (stops ascii_digit (w3' ++ rest)) as Hs3.
  { apply stops_digit_space; [done|]. by destruct Hrest as [-> | ->]. }
  unfold text in Hu.
  apply (span_unique unicode_space) in Hu as [<- Hu];
    [|by apply blanks_spaces|done|by apply stops_space_digit..].
  apply (span_unique ascii_digit) in Hu as [<- Hu];
    [|done|done|by apply stops_digit_space; [apply blanks_spaces|]
              |by apply stops_digit_space].
  apply (span_unique unicode_space) in Hu as [<- Hu];
    [|by apply blanks_spaces|done|done|done].
  injection Hu as <- Hu.
  apply (span_unique unicode_space) in Hu as [<- Hu];
    [|by apply blanks_spaces|done|by apply stops_space_digit..].
  assert (stops ascii_digit w3) as Hs4.
  { rewrite <-(app_nil_r w3). apply stops_digit_space; [by apply blanks_spaces|done]. }
  apply (span_unique ascii_digit) in Hu as [<- Hu]; [|done..].
  unfold group. rewrite Hg1, Hg2.
  cbn [fmap option_fmap option_map fst snd]. split; f_equal.
  - unfold text. apply slice_app.
  - unfold text.
    replace (w0 ++ D1 ++ w1 ++ sep :: w2 ++ D2 ++ w3)
      with ((w0 ++ D1 ++ w1 ++ [sep] ++ w2) ++ D2 ++ w3)
      by by_assoc.
    apply slice_app.
Qed.

Lemma int_of_digits_total U D :
  digits D → over_int_limit U D = false → ∃ a, int_of_digits U D = Return a ∧ (0 ≤ a)%Z.
Proof.
  intros [HD Hd] Hlim. unfold int_of_digits. rewrite Hlim. clear Hlim.
  destruct D as [|x0 D0] eqn:HeqD; [done|].
  rewrite <-HeqD in *. clear HeqD HD.
  assert (∀ acc, (0 ≤ acc)%Z →
            ∃ a, foldl (λ acc x, a ← acc; d ← not_none "ValueError" (digit_value U x);
                                 Return (10 * a + d)%Z) (Return acc) D = Return a
                 ∧ (0 ≤ a)%Z) as H; [|by apply H].
  induction Hd as [|x D Hx _ IH]; intros acc Hacc; [by exists acc|].
  cbn [foldl mbind result_bind]. unfold digit_value.
  pose proof (ascii_digit_low x Hx) as Hlow%N.ltb_lt. rewrite Hlow, Hx.
  cbn [not_none mbind result_bind]. apply IH. lia.
Qed.

Lemma int_of_digits_over U D :
  over_int_limit U D = true → int_of_digits U D = Raise (Exception "ValueError").
Proof. intros Hlim. unfold int_of_digits. rewrite Hlim. by destruct D. Qed.

Lemma digits_strip w0 D t : spaces w0 → digits D → strip (w0 ++ D ++ t) ≠ [].
Proof.
  intros Hw0 [HD Hd] Hnil%strip_nil.
  apply Forall_app in Hnil as [_ Hnil]. destruct D as [|x D]; [done|].
  apply Forall_cons in Hnil as [Hs _]. apply Forall_cons in Hd as [Hx _].
  apply space_not_digit in Hs. congruence.
Qed.

(** X5: with no HEAD and a RANGE made of two runs of ASCII digits around
    a hyphen or a colon, with optional blanks everywhere, on a non-empty
    worklist: when one of the runs has more digits than [int] converts,
    the run ends with the [ValueError] of [int], not with a message of the
    slicer; otherwise, for the numbers a and b that the digits denote, the
    worklist is sliced to the records a to b, both included; a < 1 or
    b < a stops the run with the range-values message, and a or b beyond
    the number of records stops it with the out-of-bounds message: nothing
    is clamped. *)
Theorem apply_slice_records_range U cfg records w0 D1 w1 sep w2 D2 w3 :
  records ≠ [] → (HEAD cfg ≤ 0)%Z →
  RANGE cfg = w0 ++ D1 ++ w1 ++ sep :: w2 ++ D2 ++ w3 →
  blanks w0 → blanks w1 → blanks w2 → blanks w3 → digits D1 → digits D2 →
  sep = ch "-" ∨ sep = ch ":" →
  if over_int_limit U D1 || over_int_limit U D2
  then apply_slice_records U cfg records = Raise (Exception "ValueError")
  else
    ∃ a b, int_of_digits U D1 = Return a ∧ int_of_digits U D2 = Return b
      ∧ apply_slice_records U cfg records
        = let total := length records in
          if bool_decide (a < 1 ∨ b < a)%Z
          then Raise (SystemExit (SliceRangeValues a b))
          else if bool_decide (a > Z.of_nat total ∨ b > Z.of_nat total)%Z
          then Raise (SystemExit (SliceRangeBounds total a b))
          else Return (sublist records (a - 1) b).
Proof.
  intros Hne Hhead Hrange Hw0 Hw1 Hw2 Hw3 HD1 HD2 Hsep.
  destruct (range_groups U w0 D1 w1 sep w2 D2 w3) as (m & Hm & Hg1 & Hg2); [done..|].
  cbn zeta in Hm, Hg1, Hg2. rewrite <-Hrange in Hm, Hg1, Hg2.
  assert (apply_slice_records U cfg records
          = (start ← int_of_digits U D1;
             stop ← int_of_digits U D2;
             if bool_decide (start < 1 ∨ stop < start)%Z
             then Raise (SystemExit (SliceRangeValues start stop))
             else if bool_decide (start > Z.of_nat (length records)
                                  ∨ stop > Z.of_nat (length records))%Z
             then Raise (SystemExit (SliceRangeBounds (length records) start stop))
             else Return (sublist records (start - 1) stop))) as ->.
  { unfold apply_slice_records. cbn zeta.
    rewrite decide_False by (by destruct records).
    rewrite (bool_decide_true (strip (RANGE cfg) ≠ [])).
    2:{ rewrite Hrange. apply digits_strip; [by apply blanks_spaces|done]. }
    rewrite (bool_decide_false (HEAD cfg > 0)%Z) by lia. cbn [andb].
    rewrite Hm, Hg1, Hg2. by cbn [not_none mbind result_bind]. }
  destruct (over_int_limit U D1) eqn:H1; cbn [orb].
  { by rewrite (int_of_digits_over U D1 H1). }
  destruct (int_of_digits_total U D1 HD1 H1) as (a & Ha & _). rewrite Ha.
  cbn [mbind result_bind].
  destruct (over_int_limit U D2) eqn:H2.
  { by rewrite (int_of_digits_over U D2 H2). }
  destruct (int_of_digits_total U D2 HD2 H2) as (b & Hb & _). rewrite Hb.
  cbn [mbind result_bind]. by exists a, b.
Qed.

(** ** In every environment *)

(** From a property of all runs to the run in one environment. *)
Ltac from_post H :=
  match goal with
  | |- context [run ?respond ?p ?w] =>
      let Hr := fresh "Hr" in
      pose proof (post_run respond p _ w H) as Hr;
      destruct (run respond p w) as [[? ?] ?]; cbn [fst snd] in Hr
  end.

(** X6: in every environment [fetch_wikitext_by_pageid] asks the API
    exactly once, for this page id, and nothing at all for a page id that
    is not positive; the text and the timestamp it returns are never
    empty. *)
Theorem fetch_wikitext_by_pageid_one_query {W} (respond : ∀ e : event, W → reply e * W)
    (w : W) pid :
  let '(r, _, t) := run respond (fetch_wikitext_by_pageid pid) w in
  (if bool_decide (pid ≤ 0)%Z
   then r = Raise (SystemExit FetchBadPageid) ∧ t = []
   else t = [SiteApiQuery (str_of_Z pid)])
  ∧ ∀ text ts, r = Return (text, ts) → text ≠ [] ∧ ts ≠ [].
Proof. from_post (fetch_post pid). exact Hr. Qed.

(** X7: in every environment [save_wikitext_by_pageid] sends at most two
    edit calls, all for the given page, text, base timestamp and summary,
    and two only with one login in the same run; it returns nothing but
    [True], and only after an edit call; with a page id that is not
    positive, an empty text or no base timestamp it stops before any
    call. *)
Theorem save_wikitext_by_pageid_two_edits cfg {W} (respond : ∀ e : event, W → reply e * W)
    (w : W) pid new_text base :
  let '(r, _, t) := run respond (save_wikitext_by_pageid cfg pid new_text base) w in
  (∀ b, r = Return b → b = true ∧ edits t ≠ [])
  ∧ length (edits t) ≤ 2
  ∧ Forall (same_edit cfg pid new_text base) (edits t)
  ∧ (length (edits t) = 2 → length (filter is_login t) = 1)
  ∧ ((pid ≤ 0)%Z ∨ new_text = [] ∨ base = None ∨ base = Some [] →
     t = [] ∧ ∃ why, r = Raise (SystemExit why)).
Proof. from_post (save_post cfg pid new_text base). exact Hr. Qed.

(** X8: the de-duplication loop of [get_records] keeps the records in
    their order, keeps no page id twice, counts what it drops, and keeps
    a record exactly when no earlier record has its page id: the first
    occurrence wins. *)
Theorem dedup_first_occurrence (records : list record) :
  let '(uniq, dup_count) := dedup ∅ records in
  uniq `sublist_of` records
  ∧ NoDup (pageid <$> uniq)
  ∧ length uniq + dup_count = length records
  ∧ ∀ r, r ∈ uniq ↔
         ∃ i, records !! i = Some r ∧ (pageid r ∉ pageid <$> take i records).
Proof.
  destruct (dedup ∅ records) as [uniq dup_count] eqn:Hd.
  apply dedup_spec in Hd as (Hsub & Hnd & _ & Hlen & Hiff).
  split_and!; [done..|]. intros r. rewrite Hiff. split.
  - intros (i & ? & _ & ?). by exists i.
  - intros (i & ? & ?). exists i. split_and!; [done| |done]. apply not_elem_of_empty.
Qed.




Lemma process_records_bad_post U cfg good bad rest :
  Forall (λ rec, 0 < pageid rec)%Z good → (pageid bad ≤ 0)%Z →
  post (process_records U cfg (write_status_to_excel U cfg) (good ++ bad :: rest))
       (λ r t, r = Raise (SystemExit (ProcBadPageid (S (length good))))
               ∧ Forall (λ p, ∃ rec, rec ∈ good ∧ ep_pageid p = str_of_Z (pageid rec))
                        (edits t)).
Proof.
  intros Hpos Hbad. unfold process_records.
  rewrite decide_False by (by destruct good).
  apply post_io_bind. eapply post_mono; [|by apply process_loop_bad].
  by intros r t [-> ?].
Qed.

(** X15: in every environment, a record whose page id is not positive
    stops [process_records] when its turn comes, with the message that
    names its 1-based index; the records after it are not looked at, and
    the only pages edited are those of the records before it. *)
Theorem process_records_bad_pageid U cfg {W} (respond : ∀ e : event, W → reply e * W)
    (w : W) good bad rest :
  Forall (λ rec, 0 < pageid rec)%Z good → (pageid bad ≤ 0)%Z →
  let '(r, _, t) :=
    run respond (process_records U cfg (write_status_to_excel U cfg) (good ++ bad :: rest))
        w in
  r = Raise (SystemExit (ProcBadPageid (S (length good))))
  ∧ Forall (λ p, ∃ rec, rec ∈ good ∧ ep_pageid p = str_of_Z (pageid rec)) (edits t).
Proof.
  intros Hpos Hbad. from_post (process_records_bad_post U cfg good bad rest Hpos Hbad).
  exact Hr.
Qed.

Lemma process_loop_walked U cfg total idx records st :
  post (process_loop U cfg (write_status_to_excel U cfg) total idx records st)
       (λ r t, ∃ turns, t = concat turns ∧ walked cfg total idx records st r turns).
Proof.
  revert idx st. induction records as [|rec rest IH]; intros idx st.
  - cbn [process_loop post mret io_ret walked]. by exists [].
  - cbn [process_loop walked]. case_bool_decide as Hpid.
    + unfold process_one. rewrite bool_decide_true by done.
      cbn [post exit raise mbind io_bind pbind]. by exists [].
    + apply post_io_bind. eapply post_mono; [|apply process_one_post; lia].
      intros r t1 Hturn. pose proof Hturn as (st1 & -> & _).
      eapply post_mono; [|apply (IH (S idx) st1)].
      intros r t2 (turns & -> & Hw). exists (t1 :: turns). split; [done|].
      by exists st1, t1, turns.
Qed.

Lemma process_records_walked U cfg records :
  post (process_records U cfg (write_status_to_excel U cfg) records) (λ r t,
    ∃ rl turns t2, t = concat turns ++ t2
      ∧ walked cfg (length records) 1 records runner0 rl turns
      ∧ count is_sleep t2 = 0 ∧ count is_tab t2 = 0 ∧ edits t2 = []).
Proof.
  unfold process_records. destruct (decide (records = [])) as [->|Hne].
  { cbn [post exit raise walked]. by exists (Return runner0), [], []. }
  apply post_io_bind. eapply post_mono; [|apply process_loop_walked].
  intros r t1 (turns & -> & Hw). destruct r as [st'|e].
  - destruct (bool_decide _ && bool_decide _).
    + unfold try. apply post_bind. eapply post_mono; [|apply write_status_trace].
      intros written t2 (Hs2 & Ht2 & He2). cbn beta.
      destruct written as [[]|[why|what]]; cbn [post exit raise]; rewrite app_nil_r;
        by exists (Return st'), turns, t2.
    + cbn [post mret io_ret]. by exists (Return st'), turns, [].
  - exists (Raise e), turns, []. by rewrite app_nil_r.
Qed.

Lemma walked_tabs cfg total idx records st r turns :
  walked cfg total idx records st r turns →
  (Z.of_nat (count is_tab (concat turns)) ≤ Z.max 0 (OPEN_AFTER_SUCCESS_MAX cfg - opened st))%Z
  ∧ count is_tab (concat turns) ≤ length (reached records)
  ∧ (OPEN_AFTER_SUCCESS cfg = 0%Z → count is_tab (concat turns) = 0).
Proof.
  revert idx st turns. induction records as [|rec rest IH]; intros idx st turns;
    cbn [walked reached].
  - intros [_ ->]. cbn. split_and!; [lia|done|done].
  - case_bool_decide.
    + intros [_ ->]. cbn. split_and!; [lia|done|done].
    + intros (st1 & t1 & turns' & -> & (st1' & [= <-] & _ & Htab & _) & Hw).
      destruct (IH _ _ _ Hw) as (Hmax & Hlen & Hoff).
      cbn [concat length]. rewrite count_app.
      destruct Htab as [[Ho Hc]|(Hon & Hlt & Ho & Hc)]; rewrite Hc.
      * rewrite Ho in Hmax. split_and!; [lia|lia|]. intros ?. by rewrite Hoff.
      * rewrite Ho in Hmax. split_and!; [lia|lia|done].
Qed.

Lemma walked_sleeps cfg total idx records st r turns :
  idx + length records = S total →
  walked cfg total idx records st r turns →
  count is_sleep (concat turns)
  = if Qle_bool (EDIT_SLEEP_SEC cfg) 0 then 0
    else length (reached records) `min` (length records - 1).
Proof.
  revert idx st turns. induction records as [|rec rest IH]; intros idx st turns Hidx;
    cbn [walked reached].
  - intros [_ ->]. cbn. by destruct (Qle_bool _ _).
  - case_bool_decide.
    + intros [_ ->]. cbn. by destruct (Qle_bool _ _).
    + intros (st1 & t1 & turns' & -> & (st1' & [= <-] & Hs & _) & Hw).
      cbn [concat]. rewrite count_app, Hs, (IH (S idx) _ _ ltac:(simpl in Hidx; lia) Hw).
      unfold sleeps_after. destruct (Qle_bool _ _); cbn [negb andb]; [done|].
      cbn [length]. case_bool_decide; destruct rest; simpl in *; lia.
Qed.

Lemma walked_edits cfg total idx records st r turns :
  walked cfg total idx records st r turns → Forall2 edits_of (reached records) turns.
Proof.
  revert idx st turns. induction records as [|rec rest IH]; intros idx st turns;
    cbn [walked reached].
  - intros [_ ->]. constructor.
  - case_bool_decide.
    + intros [_ ->]. constructor.
    + intros (st1 & t1 & turns' & -> & (st1' & [= <-] & _ & _ & Hall & Hlen & _) & Hw).
      constructor; [by split|by eapply IH].
Qed.

Lemma reached_elem rec records : rec ∈ reached records → rec ∈ records.
Proof.
  induction records as [|x rest IH]; cbn [reached]; [done|].
  case_bool_decide; [by intros ?%elem_of_nil|].
  intros [->|?]%elem_of_cons; [by left|right; by apply IH].
Qed.

Lemma edits_of_concat recs turns :
  Forall2 edits_of recs turns →
  Forall (λ p, ∃ rec, rec ∈ recs ∧ ep_pageid p = str_of_Z (pageid rec)) (edits (concat turns)).
Proof.
  induction 1 as [|rec t recs turns [_ Hall] _ IH]; [constructor|].
  cbn [concat]. rewrite edits_app. apply Forall_app. split.
  - eapply Forall_impl; [done|]. intros p ?. exists rec. split; [by left|done].
  - eapply Forall_impl; [done|]. intros p (rec' & ? & ?). exists rec'. split; [by right|done].
Qed.

(** X16: in every environment and for every worklist, [process_records]
    opens at most OPEN_AFTER_SUCCESS_MAX browser tabs, at most one for
    each record it goes through (the records before the first whose page
    id is not positive), and none when OPEN_AFTER_SUCCESS is 0. *)
Theorem process_records_tabs U cfg {W} (respond : ∀ e : event, W → reply e * W)
    (w : W) records :
  let '(_, _, t) :=
    run respond (process_records U cfg (write_status_to_excel U cfg) records) w in
  count is_tab t ≤ Z.to_nat (OPEN_AFTER_SUCCESS_MAX cfg)
  ∧ count is_tab t ≤ length (reached records)
  ∧ (OPEN_AFTER_SUCCESS cfg = 0%Z → count is_tab t = 0).
Proof.
  from_post (process_records_walked U cfg records).
  destruct Hr as (rl & turns & t2 & -> & Hw & _ & Ht2 & _).
  apply walked_tabs in Hw as (Hmax & Hlen & Hoff).
  rewrite count_app, Ht2, Nat.add_0_r. cbn [runner0 opened] in Hmax.
  split_and!; [lia|done|done].
Qed.

(** X17: in every environment and for every worklist, [process_records]
    sleeps once after each record it goes through, except after the last
    record of the worklist, when EDIT_SLEEP_SEC is positive, and never
    otherwise; the records it goes through are those before the first
    whose page id is not positive, at which the run stops. *)
Theorem process_records_sleeps U cfg {W} (respond : ∀ e : event, W → reply e * W)
    (w : W) records :
  let '(_, _, t) :=
    run respond (process_records U cfg (write_status_to_excel U cfg) records) w in
  count is_sleep t
  = if Qle_bool (EDIT_SLEEP_SEC cfg) 0 then 0
    else length (reached records) `min` (length records - 1).
Proof.
  from_post (process_records_walked U cfg records).
  destruct Hr as (rl & turns & t2 & -> & Hw & Hs2 & _).
  apply walked_sleeps in Hw; [|done].
  by rewrite count_app, Hs2, Nat.add_0_r.
Qed.

(** X18: in every environment and for every worklist, what
    [process_records] does is one run of events for each record it goes
    through (the records before the first whose page id is not positive),
    in the order of the worklist, followed by events that edit nothing; in
    the run of a record there are at most two edit calls, all for the page
    of this record; so every edit call is for a page of the worklist. *)
Theorem process_records_edits U cfg {W} (respond : ∀ e : event, W → reply e * W)
    (w : W) records :
  let '(_, _, t) :=
    run respond (process_records U cfg (write_status_to_excel U cfg) records) w in
  (∃ turns rest, t = concat turns ++ rest ∧ edits rest = []
     ∧ Forall2 edits_of (reached records) turns)
  ∧ Forall (λ p, ∃ rec, rec ∈ records ∧ ep_pageid p = str_of_Z (pageid rec)) (edits t).
Proof.
  from_post (process_records_walked U cfg records).
  destruct Hr as (rl & turns & t2 & -> & Hw & _ & _ & He2).
  apply walked_edits in Hw. split; [by exists turns, t2|].
  rewrite edits_app, He2, app_nil_r.
  eapply Forall_impl; [by apply edits_of_concat|].
  intros p (rec & ?%reached_elem & ?). by exists rec.
Qed.

(** X21: in every environment [main] ends by returning or with
    [SystemExit], never with another exception; it looks for the workbook
    first and reads it, connects to the site only after that, and logs in
    before anything else is done: no page is fetched or edited and nothing
    is written before the login. *)
Theorem main_order_of_events U cfg {W} (respond : ∀ e : event, W → reply e * W) (w : W) :
  let '(r, _, t) := run respond (main U cfg) w in
  (r = Return () ∨ ∃ why, r = Raise (SystemExit why)) ∧ main_order cfg t.
Proof. from_post (main_post U cfg). exact Hr. Qed.

(** ** The resolver of a title *)

Lemma search_from_Some U fl r pos s m :
  search_from U fl r pos s = Some m →
  ∃ k, k ≤ length s ∧ match_at U fl r (pos + k) (drop k s) = Some m.
Proof.
  revert pos. induction s as [|x s IH]; intros pos; cbn [search_from].
  - destruct (match_at U fl r pos []) eqn:Hm; [|done]. intros [= <-].
    exists 0. by rewrite Nat.add_0_r.
  - destruct (match_at U fl r pos (x :: s)) eqn:Hm.
    + intros [= <-]. exists 0. rewrite Nat.add_0_r. split; [simpl; lia|done].
    + intros (k & Hk & Hmk)%IH. exists (S k). split; [simpl; lia|].
      by rewrite Nat.add_succ_r.
Qed.

Lemma search_from_first U fl r pos s k m :
  k ≤ length s →
  (∀ j, j < k → match_at U fl r (pos + j) (drop j s) = None) →
  match_at U fl r (pos + k) (drop k s) = Some m →
  search_from U fl r pos s = Some m.
Proof.
  revert pos k. induction s as [|x s IH]; intros pos k Hk Hnone Hm.
  - assert (k = 0) as -> by (simpl in Hk; lia). rewrite Nat.add_0_r in Hm.
    cbn [search_from drop] in *. by rewrite Hm.
  - cbn [search_from]. destruct k as [|k].
    + rewrite Nat.add_0_r in Hm. cbn [drop] in Hm. by rewrite Hm.
    + pose proof (Hnone 0 ltac:(lia)) as H0. rewrite Nat.add_0_r in H0. cbn [drop] in H0.
      rewrite H0. apply (IH (S pos) k); [simpl in Hk; lia| |].
      * intros j Hj. specialize (Hnone (S j) ltac:(lia)).
        by rewrite Nat.add_succ_r in Hnone.
      * by rewrite Nat.add_succ_r in Hm.
Qed.

Lemma no_class_lit U c x : cmatch U NO_FLAGS (OneOf [Lit c]) x = (x =? c)%N.
Proof. unfold cmatch. simpl. by rewrite orb_false_r. Qed.

Lemma no_class_alnum U x :
  cmatch U NO_FLAGS (OneOf [Range (ch "A") (ch "Z"); Range (ch "a") (ch "z");
                            Range (ch "0") (ch "9")]) x = ascii_alnum x.
Proof. unfold cmatch. simpl. by rewrite orb_false_r, orb_assoc. Qed.

Lemma no_class_not_paren U x :
  cmatch U NO_FLAGS (NoneOf [Lit (ch ")")]) x = true ↔ x ≠ ch ")".
Proof.
  unfold cmatch. simpl. rewrite orb_false_r, negb_true_iff. split.
  - intros H ->. by rewrite N.eqb_refl in H.
  - intros H. by apply N.eqb_neq.
Qed.

Lemma title_invert U pos u rest c c' :
  derives U NO_FLAGS IA_ID_FROM_TITLE_RE pos u rest c c' →
  ∃ P N sfx,
    u = py "(IA_" ++ P ++ ch "_" :: N ++ sfx ++ [ch ")"]
    ∧ P ≠ [] ∧ Forall (λ x, ascii_alnum x = true) P
    ∧ N ≠ [] ∧ Forall (λ x, is_digit U NO_FLAGS x = true) N
    ∧ title_suffix sfx
    ∧ c' !! "prefix" = Some (pos + 4, pos + 4 + length P)
    ∧ c' !! "number" = Some (pos + 5 + length P, pos + 5 + length P + length N).
Proof.
  unfold IA_ID_FROM_TITLE_RE. cbn [derives chr lit].
  intros (u0 & u1 & c0 & -> & (x0 & -> & Hx0 & ->) & H).
  destruct H as (ia & u2 & c1 & -> & Hia & H).
  destruct Hia as (i1 & i2 & ci & -> & (x1 & -> & Hx1 & ->) & Hia).
  destruct Hia as (i3 & i4 & cj & -> & (x2 & -> & Hx2 & ->) & (x3 & -> & Hx3 & ->)).
  destruct H as (P & u3 & c2 & -> & (c3 & (HP & HPlen & ->) & ->) & H).
  destruct H as (us & u4 & c4 & -> & (x4 & -> & Hx4 & ->) & H).
  destruct H as (N & u5 & c5 & -> & (c6 & (HN & HNlen & ->) & ->) & H).
  destruct H as (sfx & u6 & c7 & -> & Hopt & (x5 & -> & Hx5 & ->)).
  rewrite no_class_lit in Hx0, Hx1, Hx2, Hx3, Hx4, Hx5.
  apply N.eqb_eq in Hx0 as ->, Hx1 as ->, Hx2 as ->, Hx3 as ->, Hx4 as ->, Hx5 as ->.
  exists P, N, sfx. cbn [length app] in *.
  assert (c7 = <["number":=(pos + 5 + length P, pos + 5 + length P + length N)]>
                 (<["prefix":=(pos + 4, pos + 4 + length P)]> c)
          ∧ title_suffix sfx) as [-> Hsfx].
  { replace (pos + 1 + 3) with (pos + 4) in * by lia.
    replace (pos + 4 + length P + 1) with (pos + 5 + length P) in * by lia.
    destruct Hopt as [[-> ->]|Hopt]; [split; [done|by left]|].
    destruct Hopt as (us & t & c8 & -> & (x & -> & Hx & ->) & (Ht & Htlen & ->)).
    split; [done|]. right.
    rewrite no_class_lit in Hx. apply N.eqb_eq in Hx as ->.
    exists t. split; [done|]. split; [intros ->; simpl in Htlen; lia|].
    intros Hin. rewrite Forall_forall in Ht. apply Ht in Hin.
    by apply no_class_not_paren in Hin. }
  split_and!; try done.
  - intros ->. simpl in *. lia.
  - eapply Forall_impl; [exact HP|]. intros x Hx. by rewrite <-(no_class_alnum U).
  - intros ->. simpl in *. lia.
  - eapply Forall_impl; [exact HN|]. intros x Hx. unfold cmatch in Hx. simpl in Hx.
    by rewrite orb_false_r in Hx.
  - rewrite lookup_insert_ne by done. by rewrite lookup_insert_eq.
  - by rewrite lookup_insert_eq.
Qed.

Lemma title_groups text k (m : pymatch) u rest P N sfx :
  k ≤ length text → drop k text = u ++ rest →
  u = py "(IA_" ++ P ++ ch "_" :: N ++ sfx ++ [ch ")"] →
  m_groups m !! "prefix" = Some (k + 4, k + 4 + length P) →
  m_groups m !! "number" = Some (k + 5 + length P, k + 5 + length P + length N) →
  group text m "prefix" = Some P ∧ group text m "number" = Some N.
Proof.
  intros Hk Hdrop -> Hp Hn. unfold group. rewrite Hp, Hn.
  cbn [fmap option_fmap option_map fst snd].
  assert (text = take k text ++ drop k text) as Htext by (by rewrite take_drop).
  assert (length (take k text) = k) as Hlen by (rewrite length_take; lia).
  rewrite Hdrop in Htext. split; f_equal.
  - rewrite Htext at 1.
    replace (take k text ++ (py "(IA_" ++ P ++ ch "_" :: N ++ sfx ++ [ch ")"]) ++ rest)
      with ((take k text ++ py "(IA_") ++ P ++ (ch "_" :: N ++ sfx ++ [ch ")"] ++ rest))
      by by_assoc.
    replace (k + 4) with (length (take k text ++ py "(IA_"))
      by (rewrite length_app, Hlen; done).
    apply slice_app.
  - rewrite Htext at 1.
    replace (take k text ++ (py "(IA_" ++ P ++ ch "_" :: N ++ sfx ++ [ch ")"]) ++ rest)
      with ((take k text ++ py "(IA_" ++ P ++ [ch "_"]) ++ N ++ (sfx ++ [ch ")"] ++ rest))
      by by_assoc.
    replace (k + 5 + length P) with (length (take k text ++ py "(IA_" ++ P ++ [ch "_"]))
      by (rewrite !length_app, Hlen; simpl; lia).
    apply slice_app.
Qed.

(** X22: whenever [resolver_from_title] returns a URL, the title is a
    string that contains an opening parenthesis, IA_, PREFIX, an underscore,
    NUMBER, nothing or an underscore-led suffix without a closing
    parenthesis, and a closing parenthesis, with PREFIX a non-empty run of
    ASCII letters and digits and NUMBER a non-empty run of digits as the
    runtime knows them (the pattern is compiled without [re.ASCII]); the
    URL is the resolver address followed by PREFIX ":" NUMBER, the digits
    of NUMBER untouched. *)
Theorem resolver_from_title_Some U title url :
  resolver_from_title U title = Some url →
  ∃ text pre P N sfx post,
    title = Some text
    ∧ text = pre ++ py "(IA_" ++ P ++ ch "_" :: N ++ sfx ++ ch ")" :: post
    ∧ P ≠ [] ∧ Forall (λ x, ascii_alnum x = true) P
    ∧ N ≠ [] ∧ Forall (λ x, is_digit U NO_FLAGS x = true) N
    ∧ title_suffix sfx
    ∧ url = py "https://resolver.kb.nl/resolve?urn=" ++ P ++ py ":" ++ N.
Proof.
  unfold resolver_from_title. destruct title as [text|]; [|done].
  case_bool_decide; [done|].
  destruct (search U NO_FLAGS IA_ID_FROM_TITLE_RE text) as [m|] eqn:Hs; [|done].
  cbn zeta. intros [= <-].
  apply search_from_Some in Hs as (k & Hk & Hm). cbn [Nat.add] in Hm.
  apply match_at_sound in Hm as (u & rest & Hdrop & Hd & _ & _).
  apply title_invert in Hd as (P & N & sfx & Hu & HP & HPa & HN & HNd & Hsfx & Hgp & Hgn).
  destruct (title_groups text k m u rest P N sfx Hk Hdrop Hu Hgp Hgn) as [-> ->].
  exists text, (take k text), P, N, sfx, rest. split_and!; try done.
  rewrite <-(take_drop k text) at 1. rewrite Hdrop, Hu. f_equal. by_assoc.
Qed.

Lemma title_derives U pos P N sfx rest :
  P ≠ [] → Forall (λ x, ascii_alnum x = true) P → digits N → title_suffix sfx →
  ∃ c', derives U NO_FLAGS IA_ID_FROM_TITLE_RE pos
          (py "(IA_" ++ P ++ ch "_" :: N ++ sfx ++ [ch ")"]) rest ∅ c'.
Proof.
  intros HP HPa [HN HNd] Hsfx.
  set (caps := <["number":=(pos + 5 + length P, pos + 5 + length P + length N)]>
                 (<["prefix":=(pos + 4, pos + 4 + length P)]> (∅ : captures))).
  assert (derives U NO_FLAGS (Opt (chr "_" ⋅ Rep true 1 (NoneOf [Lit (ch ")")])))
            (pos + 5 + length P + length N) sfx ([ch ")"] ++ rest) caps caps) as Hopt.
  { cbn [derives chr].
    destruct Hsfx as [->|(t & -> & Ht & Hnp)]; [by left|]. right.
    exists [ch "_"], t, caps. split; [done|]. split.
    { exists (ch "_"). split; [done|]. split; [by rewrite no_class_lit|done]. }
    split; [|split; [destruct t; [done|simpl; lia]|done]].
    apply Forall_forall. intros x Hx. apply no_class_not_paren. by intros ->. }
  exists caps. unfold caps.
  unfold IA_ID_FROM_TITLE_RE. cbn [derives chr lit].
  exists [ch "("], (py "IA_" ++ P ++ ch "_" :: N ++ sfx ++ [ch ")"]), (∅ : captures).
  split; [done|]. split.
  { exists (ch "("). split; [done|]. split; [by rewrite no_class_lit|done]. }
  exists (py "IA_"), (P ++ ch "_" :: N ++ sfx ++ [ch ")"]), (∅ : captures). split; [done|]. split.
  { exists [ch "I"], (py "A_"), (∅ : captures). split; [done|]. split.
    { exists (ch "I"). split; [done|]. split; [by rewrite no_class_lit|done]. }
    exists [ch "A"], [ch "_"], (∅ : captures). split; [done|]. split.
    { exists (ch "A"). split; [done|]. split; [by rewrite no_class_lit|done]. }
    exists (ch "_"). split; [done|]. split; [by rewrite no_class_lit|done]. }
  exists P, (ch "_" :: N ++ sfx ++ [ch ")"]), (<["prefix":=(pos + 4, pos + 4 + length P)]> (∅ : captures)).
  split; [done|]. split.
  { exists (∅ : captures). split.
    2:{ cbn [length]. change (length (py "IA_")) with 3. f_equal. f_equal; lia. }
    split; [|split; [|done]].
    - eapply Forall_impl; [exact HPa|]. intros x Hx. by rewrite no_class_alnum.
    - destruct P; [done|simpl; lia]. }
  exists [ch "_"], (N ++ sfx ++ [ch ")"]), (<["prefix":=(pos + 4, pos + 4 + length P)]> (∅ : captures)).
  split; [done|]. split.
  { exists (ch "_"). split; [done|]. split; [by rewrite no_class_lit|done]. }
  exists N, (sfx ++ [ch ")"]),
    (<["number":=(pos + 5 + length P, pos + 5 + length P + length N)]>
       (<["prefix":=(pos + 4, pos + 4 + length P)]> (∅ : captures))).
  split; [done|]. split.
  { exists (<["prefix":=(pos + 4, pos + 4 + length P)]> (∅ : captures)).
    split.
    2:{ cbn [length]. change (length (py "IA_")) with 3. f_equal. f_equal; lia. }
    split; [|split; [|done]].
    - eapply Forall_impl; [exact HNd|]. intros x Hx.
      rewrite no_class_digit; [done|by apply ascii_digit_low].
    - destruct N; [done|simpl; lia]. }
  exists sfx, [ch ")"], caps. split; [done|]. split.
  { cbn [length]. change (length (py "IA_")) with 3.
    replace (pos + 1 + 3 + length P + 1 + length N)
      with (pos + 5 + length P + length N) by lia. exact Hopt. }
  exists (ch ")"). split; [done|]. split; [by rewrite no_class_lit|done].
Qed.

Lemma title_suffix_stops U sfx t :
  title_suffix sfx → stops (λ x, is_digit U NO_FLAGS x) (sfx ++ ch ")" :: t).
Proof. by intros [->|(t' & -> & _)]. Qed.

(** X23: a title whose first opening parenthesis starts
    "(IA_" PREFIX "_" NUMBER suffix ")", with PREFIX a non-empty run of
    ASCII letters and digits, NUMBER a non-empty run of ASCII digits and
    the suffix empty or an underscore followed by at least one character
    other than a closing parenthesis, resolves to the resolver address
    followed by PREFIX ":" NUMBER, whatever comes before and after and
    with leading zeros kept. *)
Theorem resolver_from_title_found U pre P N sfx post :
  (ch "(") ∉ pre →
  P ≠ [] → Forall (λ x, ascii_alnum x = true) P → digits N → title_suffix sfx →
  resolver_from_title U (Some (pre ++ py "(IA_" ++ P ++ ch "_" :: N ++ sfx ++ ch ")" :: post))
  = Some (py "https://resolver.kb.nl/resolve?urn=" ++ P ++ py ":" ++ N).
Proof.
  intros Hpre HP HPa HN Hsfx.
  set (text := pre ++ py "(IA_" ++ P ++ ch "_" :: N ++ sfx ++ ch ")" :: post).
  unfold resolver_from_title. rewrite bool_decide_false.
  2:{ intros Hnil%strip_nil. unfold text in Hnil.
      apply Forall_app in Hnil as [_ Hnil]. by apply Forall_cons in Hnil as [? _]. }
  assert (drop (length pre) text
          = (py "(IA_" ++ P ++ ch "_" :: N ++ sfx ++ [ch ")"]) ++ post) as Hdrop.
  { unfold text. rewrite drop_app_length. by_assoc. }
  destruct (title_derives U (0 + length pre) P N sfx post HP HPa HN Hsfx) as [c' Hd].
  apply match_at_complete in Hd as [m Hm]. rewrite <-Hdrop in Hm.
  assert (search U NO_FLAGS IA_ID_FROM_TITLE_RE text = Some m) as ->.
  { apply (search_from_first U _ _ 0 text (length pre) m); [|  |done].
    - unfold text. rewrite length_app. lia.
    - intros j Hj. apply eq_None_not_Some. intros [m' Hm'].
      apply match_at_sound in Hm' as (u & rest & Hu & Hder & _ & _).
      apply title_invert in Hder as (P' & N' & sfx' & -> & _).
      unfold text in Hu. rewrite drop_app_le in Hu by lia.
      destruct (drop j pre) as [|x l] eqn:Hl.
      { apply (f_equal length) in Hl. rewrite length_drop in Hl. simpl in Hl. lia. }
      cbn in Hu. injection Hu as -> _. apply Hpre.
      apply (subseteq_drop j pre). rewrite Hl. by left. }
  cbn zeta.
  apply match_at_sound in Hm as (u & rest & Hu & Hder & _ & _).
  apply title_invert in Hder
    as (P' & N' & sfx' & -> & HP' & HPa' & HN' & HNd' & Hsfx' & Hgp & Hgn).
  assert (P' = P ∧ N' = N) as [-> ->].
  { rewrite Hdrop in Hu. rewrite <-!(assoc_L (++)) in Hu. cbn [app] in Hu.
    injection Hu as Hu.
    apply (span_unique ascii_alnum) in Hu as [<- Hu]; [|done|done|done|done].
    injection Hu as Hu. destruct HN as [HN HNd].
    rewrite <-!(assoc_L (++)) in Hu. cbn [app] in Hu.
    apply (span_unique (λ x, is_digit U NO_FLAGS x)) in Hu as [HNN Hu]; [done| |done|..].
    - eapply Forall_impl; [exact HNd|]. intros x Hx. unfold is_digit.
      by rewrite (proj2 (N.ltb_lt _ _) (ascii_digit_low x Hx)).
    - by apply title_suffix_stops.
    - by apply title_suffix_stops. }
  destruct (title_groups text (length pre) m
              (py "(IA_" ++ P ++ ch "_" :: N ++ sfx' ++ [ch ")"]) rest P N sfx') as [-> ->];
    [unfold text; rewrite length_app; lia|exact Hu|done|exact Hgp|exact Hgn|done].
Qed.

(** ** The properties at concrete inputs *)

Lemma derive_delpher_urn_well_formed_witness :
  derive_delpher_urn ascii_runtime (py "MMKB08" ++ ch "_" :: py "000088804" ++ py "_mpeg21")
  = Return (py "MMKB08" ++ py ":" ++ py "000088804")
  ∧ derive_delpher_urn ascii_runtime (py "ddd_010124175_mpeg21") = Return (py "ddd:010124175").
Proof.
  apply (derive_delpher_urn_well_formed ascii_runtime).
  split; [done|]. split; [by repeat constructor|].
  split; [done|]. split; [by repeat constructor|].
  right. exists (py "mpeg21"). split; [reflexivity|].
  apply (bool_decide_unpack _). vm_compute. exact I.
Defined.

(** C5, as stated, fails: an identifier with a trailing blank does not
    have the anchored shape, and [derive_delpher_urn] accepts it. *)
Lemma derive_delpher_urn_strips :
  ¬ urn_shape (py "a_1 ")
  ∧ derive_delpher_urn ascii_runtime (py "a_1 ") = Return (py "a:1").
Proof.
  split; [|done]. intros H. apply (urn_shape_match ascii_runtime) in H.
  vm_compute in H. by destruct H.
Qed.

Lemma derive_delpher_urn_malformed_witness :
  (∃ e, derive_delpher_urn ascii_runtime (py "nodigits") = Raise e ∧ MalformedIdentifier e)
  ∧ derive_delpher_urn ascii_runtime (py "nodigits") = Raise (SystemExit UrnInvalidIaId)
  ∧ derive_delpher_urn ascii_runtime (py "123_abc") = Raise (SystemExit UrnInvalidIaId).
Proof.
  apply (derive_delpher_urn_malformed ascii_runtime).
  intros H. apply (urn_shape_match ascii_runtime) in H.
  vm_compute in H. by destruct H.
Defined.

(** C3, as stated, fails: with HEAD = 0 and no RANGE the slicer returns
    the worklist instead of stopping. *)
Lemma apply_slice_records_head_zero :
  HEAD demo_config = 0%Z
  ∧ apply_slice_records ascii_runtime demo_config [demo_record 5; demo_record 7]
    = Return [demo_record 5; demo_record 7].
Proof. done. Qed.

Lemma apply_slice_records_head_witness :
  let records := [demo_record 5; demo_record 7] in
  apply_slice_records ascii_runtime (slicing 1 (py "1-2")) records
  = Raise (SystemExit SliceBothSet)
  ∧ apply_slice_records ascii_runtime (slicing 3 []) records
    = Raise (SystemExit (SliceHeadBounds 2 3))
  ∧ apply_slice_records ascii_runtime (slicing 0 []) records = Return records
  ∧ apply_slice_records ascii_runtime (slicing 1 []) records = Return [demo_record 5].
Proof.
  cbn zeta. split_and!.
  - apply (apply_slice_records_head ascii_runtime (slicing 1 (py "1-2"))
             [demo_record 5; demo_record 7]); [done|simpl; lia|vm_compute; done].
  - apply (apply_slice_records_head ascii_runtime (slicing 3 [])
             [demo_record 5; demo_record 7]); [done|simpl; lia|reflexivity].
  - apply (apply_slice_records_head ascii_runtime (slicing 0 [])
             [demo_record 5; demo_record 7]); [done|simpl; lia|reflexivity].
  - destruct (apply_slice_records_head ascii_runtime (slicing 1 [])
                [demo_record 5; demo_record 7]) as (_ & _ & _ & H); [done|].
    destruct (H 1) as [Hr _]; [reflexivity|simpl; lia|reflexivity|exact Hr].
Defined.

Lemma transform_wikitext_idempotent_witness :
  (transform_wikitext ascii_runtime demo_page ≫= transform_wikitext ascii_runtime)
  = transform_wikitext ascii_runtime demo_page
  ∧ (∀ text', transform_wikitext ascii_runtime demo_page = Return text' →
              finditer ascii_runtime OLD_FLAGS OLD_BLOCK_RE text' = []).
Proof.
  apply (transform_wikitext_idempotent ascii_runtime demo_page).
  vm_compute. lia.
Defined.



Lemma transform_wikitext_ambiguous_witness :
  transform_wikitext ascii_runtime (demo_page ++ demo_page)
  = Raise (SystemExit (TransformMultiple
      (length (finditer ascii_runtime OLD_FLAGS OLD_BLOCK_RE (demo_page ++ demo_page))))).
Proof.
  apply (transform_wikitext_ambiguous ascii_runtime (demo_page ++ demo_page)).
  vm_compute. lia.
Defined.

(** C2: the first edit fails with a stale token; the retry is preceded by
    [site.login], which the documentation of the function rules out. *)
Lemma save_wikitext_by_pageid_logs_in_again :
  let params token :=
    {| ep_pageid := py "5"; ep_text := py "new text";
       ep_summary := EDIT_SUMMARY demo_config; ep_token := token;
       ep_basetimestamp := py "2025-09-18T10:00:00Z" |} in
  run (small_world true demo_page no_sheet)
      (save_wikitext_by_pageid demo_config 5 (py "new text") (Some (py "2025-09-18T10:00:00Z")))
      0
  = (Return true, 2,
     [SiteGetToken; SiteApiEdit (params (py "0123456789abcdef+"));
      SiteLogin (USERNAME demo_config) (PASSWORD demo_config);
      SiteGetToken; SiteApiEdit (params (py "0123456789abcdef+"))]).
Proof. vm_compute. reflexivity. Qed.

(** C6: a sheet whose only page id is 5.5 passes the validation of the
    identifier column and is loaded as page 5. *)
Lemma get_records_truncates_fraction :
  run (small_world false demo_page fraction_sheet) (get_records ascii_runtime demo_config) 0
  = (Return [{| pageid := 5; mid := py "M5";
                title := Some (py "File:Arnhemsche courant.pdf") |}],
     0, [PathExists (EXCEL_FILE demo_config);
         ReadExcel (EXCEL_FILE demo_config) (EXCEL_SHEET demo_config)]).
Proof. vm_compute. reflexivity. Qed.


Lemma derive_delpher_urn_returns_witness :
  ∃ P N suffix,
    strip (py " MMKB08_000088804_mpeg21 ") = P ++ ch "_" :: N ++ suffix
    ∧ well_formed P N suffix ∧ py "MMKB08:000088804" = P ++ py ":" ++ N.
Proof. apply (derive_delpher_urn_returns ascii_runtime). vm_compute. reflexivity. Defined.

Lemma transform_wikitext_failures_witness :
  let n := length (finditer ascii_runtime OLD_FLAGS OLD_BLOCK_RE (demo_page ++ demo_page)) in
  (2 ≤ n ∧ SystemExit (TransformMultiple 2) = SystemExit (TransformMultiple n))
  ∨ (n = 1 ∧ (SystemExit (TransformMultiple 2) = SystemExit UrnEmptyIaId
              ∨ SystemExit (TransformMultiple 2) = SystemExit UrnInvalidIaId
              ∨ SystemExit (TransformMultiple 2) = SystemExit BlockInvalidPdfUrl)).
Proof. apply (transform_wikitext_failures ascii_runtime). vm_compute. reflexivity. Defined.

Lemma apply_slice_records_contiguous_witness :
  ∃ i n, [demo_record 7; demo_record 9]
         = take n (drop i [demo_record 5; demo_record 7; demo_record 9; demo_record 11])
    ∧ i + n ≤ length [demo_record 5; demo_record 7; demo_record 9; demo_record 11]
    ∧ ([demo_record 5; demo_record 7; demo_record 9; demo_record 11] ≠ [] → 0 < n).
Proof.
  apply (apply_slice_records_contiguous ascii_runtime range_config).
  vm_compute. reflexivity.
Defined.

Lemma apply_slice_records_range_witness :
  (∃ a b, int_of_digits ascii_runtime (py "2") = Return a
     ∧ int_of_digits ascii_runtime (py "3") = Return b
     ∧ apply_slice_records ascii_runtime range_config
         [demo_record 5; demo_record 7; demo_record 9; demo_record 11]
       = let total := length [demo_record 5; demo_record 7; demo_record 9; demo_record 11] in
         if bool_decide (a < 1 ∨ b < a)%Z
         then Raise (SystemExit (SliceRangeValues a b))
         else if bool_decide (a > Z.of_nat total ∨ b > Z.of_nat total)%Z
         then Raise (SystemExit (SliceRangeBounds total a b))
         else Return (sublist [demo_record 5; demo_record 7; demo_record 9; demo_record 11]
                        (a - 1) b))
  ∧ apply_slice_records ascii_runtime (slicing 0 long_range) [demo_record 5]
    = Raise (Exception "ValueError").
Proof.
  split.
  - apply (apply_slice_records_range ascii_runtime range_config _
             [ch " "] (py "2") [ch " "] (ch "-") [ch " "] (py "3") []).
    + done.
    + simpl. lia.
    + reflexivity.
    + by repeat constructor.
    + by repeat constructor.
    + by repeat constructor.
    + constructor.
    + split; [done|by repeat constructor].
    + split; [done|by repeat constructor].
    + by left.
  - apply (apply_slice_records_range ascii_runtime (slicing 0 long_range) [demo_record 5]
             [] (replicate 4301 (ch "1")) [] (ch "-") [] (py "5") []).
    + done.
    + simpl. lia.
    + reflexivity.
    + constructor.
    + constructor.
    + constructor.
    + constructor.
    + split; [done|]. by apply Forall_replicate.
    + split; [done|by repeat constructor].
    + by left.
Defined.

Lemma get_records_refuses_witness :
  ∃ w', run (small_world false demo_page blank_sheet) (get_records ascii_runtime demo_config) 0
        = (Raise (SystemExit RecInvalidValues), w',
           [PathExists (EXCEL_FILE demo_config);
            ReadExcel (EXCEL_FILE demo_config) (EXCEL_SHEET demo_config)]).
Proof.
  apply (get_records_refuses ascii_runtime demo_config _ 0 blank_sheet [CInt 5; CNaN] CNaN).
  - split; intros w; reflexivity.
  - reflexivity.
  - apply elem_of_cons. right. apply elem_of_cons. by left.
  - by left.
Defined.




Lemma process_records_bad_pageid_witness :
  let '(r, _, t) :=
    run (small_world false tiny_page clean_sheet)
        (process_records ascii_runtime demo_config
           (write_status_to_excel ascii_runtime demo_config)
           ([demo_record 5] ++ demo_record 0 :: [demo_record 7]))
        0 in
  r = Raise (SystemExit (ProcBadPageid (S (length [demo_record 5]))))
  ∧ Forall (λ p, ∃ rec, rec ∈ [demo_record 5] ∧ ep_pageid p = str_of_Z (pageid rec))
           (edits t).
Proof.
  apply (process_records_bad_pageid ascii_runtime demo_config
           (small_world false tiny_page clean_sheet) 0 [demo_record 5] (demo_record 0)
           [demo_record 7]).
  - repeat constructor; simpl; lia.
  - simpl. lia.
Defined.

Lemma process_records_tabs_witness :
  count is_tab eager_trace = 2
  ∧ let '(_, _, t) :=
      run (small_world true tiny_page clean_sheet)
          (process_records ascii_runtime eager_config
             (write_status_to_excel ascii_runtime eager_config) mixed_worklist) 0 in
    count is_tab t ≤ Z.to_nat (OPEN_AFTER_SUCCESS_MAX eager_config)
    ∧ count is_tab t ≤ length (reached mixed_worklist)
    ∧ (OPEN_AFTER_SUCCESS eager_config = 0%Z → count is_tab t = 0).
Proof.
  split; [vm_compute; reflexivity|].
  apply (process_records_tabs ascii_runtime eager_config
           (small_world true tiny_page clean_sheet) 0 mixed_worklist).
Defined.

Lemma process_records_sleeps_witness :
  count is_sleep eager_trace = 3
  ∧ let '(_, _, t) :=
      run (small_world true tiny_page clean_sheet)
          (process_records ascii_runtime eager_config
             (write_status_to_excel ascii_runtime eager_config) mixed_worklist) 0 in
    count is_sleep t
    = if Qle_bool (EDIT_SLEEP_SEC eager_config) 0 then 0
      else length (reached mixed_worklist) `min` (length mixed_worklist - 1).
Proof.
  split; [vm_compute; reflexivity|].
  apply (process_records_sleeps ascii_runtime eager_config
           (small_world true tiny_page clean_sheet) 0 mixed_worklist).
Defined.

Lemma process_records_edits_witness :
  length (edits eager_trace) = 4
  ∧ let '(_, _, t) :=
      run (small_world true tiny_page clean_sheet)
          (process_records ascii_runtime eager_config
             (write_status_to_excel ascii_runtime eager_config) mixed_worklist) 0 in
    (∃ turns rest, t = concat turns ++ rest ∧ edits rest = []
       ∧ Forall2 edits_of (reached mixed_worklist) turns)
    ∧ Forall (λ p, ∃ rec, rec ∈ mixed_worklist ∧ ep_pageid p = str_of_Z (pageid rec))
             (edits t).
Proof.
  split; [vm_compute; reflexivity|].
  apply (process_records_edits ascii_runtime eager_config
           (small_world true tiny_page clean_sheet) 0 mixed_worklist).
Defined.

Lemma process_one_untouched_witness :
  ∃ w',
    run (small_world false plain_page clean_sheet)
        (process_one ascii_runtime demo_config
           (write_status_to_excel ascii_runtime demo_config) 2 1 (demo_record 5) runner0) 0
    = (Return (set_status (pageid (demo_record 5))
                 match transform_wikitext ascii_runtime plain_page with
                 | Return _ => STATUS_SKIPPED_NO_OLD
                 | Raise _ => STATUS_ERROR
                 end runner0),
       w',
       [SiteApiQuery (py "5")]
       ++ if sleeps_after demo_config 2 1 then [Sleep (EDIT_SLEEP_SEC demo_config)] else []).
Proof.
  apply (process_one_untouched ascii_runtime demo_config
           (small_world false plain_page clean_sheet) 0 0 2 1 (demo_record 5) runner0
           plain_page (py "2025-09-18T10:00:00Z") [SiteApiQuery (py "5")]).
  - simpl. lia.
  - vm_compute. reflexivity.
  - vm_compute. reflexivity.
Defined.

Lemma process_one_guarded_witness :
  ∃ r w' t2,
    run (small_world false tiny_page clean_sheet)
        (process_one ascii_runtime demo_config
           (write_status_to_excel ascii_runtime demo_config) 2 1 (demo_record 5) runner0) 0
    = (r, w', [SiteApiQuery (py "5")] ++ t2)
    ∧ edits [SiteApiQuery (py "5")] = []
    ∧ Forall (same_edit demo_config (pageid (demo_record 5))
                (py "|source=
Internet Archive
* Website: {{Internet Archive link|a_1}}
* Direct download: https://archive.org/download/a_1/a_1.pdf
Delpher
* Website: https://resolver.kb.nl/resolve?urn=a:1
* Direct download: https://resolver.kb.nl/resolve?urn=a:1:mpeg21:pdf
")
                (Some (py "2025-09-18T10:00:00Z"))) (edits t2).
Proof.
  apply (process_one_guarded ascii_runtime demo_config
           (small_world false tiny_page clean_sheet) 0 0 2 1 (demo_record 5) runner0
           tiny_page (py "2025-09-18T10:00:00Z") [SiteApiQuery (py "5")]).
  - simpl. lia.
  - vm_compute. reflexivity.
  - vm_compute. reflexivity.
  - apply (bool_decide_unpack _). vm_compute. exact I.
Defined.

Lemma resolver_from_title_Some_witness :
  ∃ text pre P N sfx post,
    Some (py "Arnhemsche_courant_05-12-1852_(IA_MMKB08_000088804_mpeg21).pdf") = Some text
    ∧ text = pre ++ py "(IA_" ++ P ++ ch "_" :: N ++ sfx ++ ch ")" :: post
    ∧ P ≠ [] ∧ Forall (λ x, ascii_alnum x = true) P
    ∧ N ≠ [] ∧ Forall (λ x, is_digit ascii_runtime NO_FLAGS x = true) N
    ∧ title_suffix sfx
    ∧ py "https://resolver.kb.nl/resolve?urn=MMKB08:000088804"
      = py "https://resolver.kb.nl/resolve?urn=" ++ P ++ py ":" ++ N.
Proof. apply (resolver_from_title_Some ascii_runtime). vm_compute. reflexivity. Defined.

Lemma resolver_from_title_found_witness :
  resolver_from_title ascii_runtime
    (Some (py "Hoornsche_courant_26-03-1861_" ++ py "(IA_" ++ py "MMWFA01"
           ++ ch "_" :: py "000191129" ++ py "_mpeg21" ++ ch ")" :: py ".pdf"))
  = Some (py "https://resolver.kb.nl/resolve?urn=" ++ py "MMWFA01" ++ py ":" ++ py "000191129").
Proof.
  apply (resolver_from_title_found ascii_runtime).
  - apply (bool_decide_unpack _). vm_compute. exact I.
  - done.
  - apply (bool_decide_unpack _). vm_compute. exact I.
  - split; [done|]. apply (bool_decide_unpack _). vm_compute. exact I.
  - right. exists (py "mpeg21"). split; [reflexivity|]. split; [done|].
    apply (bool_decide_unpack _). vm_compute. exact I.
Defined.
